(** * Verification of the ad-creative generator

    A shallow embedding of the four Python modules of the repository

    - [logic_image_edit.py]  (the compositor: [create_composite],
      [_prepare_image], [_paste_with_alpha]),
    - [logic_image_gen.py]   ([generate_background]),
    - [logic_text.py]        ([generate_prompts]),
    - [app.py]               (the per-variation generation loop and the
      packaging step that follows it),

    together with the properties the specification states about them.

    Python values are modelled as the interpreter has them: [int] is [Z],
    [float] is an IEEE-754 binary64 number ([spec_float] with precision 53
    and maximal exponent 1024, rounded to nearest even), [str] is a list of
    Unicode code points, and a raised exception is the [Raise] branch of a
    result type.  The Pillow operations the compositor calls are modelled
    on 8-bit RGBA buffers, with the integer arithmetic Pillow uses. *)

From Stdlib Require Import ZArith NArith Bool List Lia String Ascii DecimalString.
From Stdlib Require Import Floats.SpecFloat.
From Stdlib Require Import DecimalZ Sorting.Sorted.
Import ListNotations.

Local Open Scope Z_scope.

(** ** Python strings and exceptions *)

(** A Python [str] is a sequence of code points. *)
Definition pystr := list N.

(** An ASCII literal of the source, as a Python string. *)
Definition lit (s : string) : pystr :=
  List.map N_of_ascii (list_ascii_of_string s).

Inductive exn_kind :=
| ZeroDivisionError
| OverflowError
| ValueError
| TypeError
| KeyError
| IndexError
| RuntimeError
| RequestException
| OtherException.

(** An exception object: its class and [str(e)]. *)
Record exn := Exn { exn_class : exn_kind; exn_str : pystr }.

Inductive result (A : Type) :=
| Ok (a : A)
| Raise (e : exn).
Arguments Ok {A} a.
Arguments Raise {A} e.

Definition bind {A B} (c : result A) (k : A -> result B) : result B :=
  match c with
  | Ok a => k a
  | Raise e => Raise e
  end.

Notation "x <- c ;; k" := (bind c (fun x => k))
  (at level 61, c at next level, right associativity).
Notation "' pat <- c ;; k" := (bind c (fun x => match x with pat => k end))
  (at level 61, pat pattern, c at next level, right associativity).

Definition is_ok {A} (c : result A) : bool :=
  match c with
  | Ok _ => true
  | Raise _ => false
  end.

Definition raise {A} (k : exn_kind) (msg : string) : result A :=
  Raise (Exn k (lit msg)).

(** ** Python [float]: IEEE-754 binary64 *)

Module PyFloat.

Definition prec : Z := 53.
Definition emax : Z := 1024.

Definition float := spec_float.

Definition fmul : float -> float -> float := SFmul prec emax.
Definition fdiv : float -> float -> float := SFdiv prec emax.
Definition fsub : float -> float -> float := SFsub prec emax.

(** [float(n)] for an [int]: the nearest double, [OverflowError] when
    there is none. *)
Definition of_int (n : Z) : result float :=
  match binary_normalize prec emax n 0 false with
  | S754_infinity _ => raise OverflowError "int too large to convert to float"
  | f => Ok f
  end.

(** An integer as an (unnormalised) mantissa with exponent 0. *)
Definition raw (n : Z) : float :=
  match n with
  | Z0 => S754_zero false
  | Zpos p => S754_finite false p 0
  | Zneg p => S754_finite true p 0
  end.

(** [a / b] on two [int]s: the correctly rounded quotient. *)
Definition int_truediv (a b : Z) : result float :=
  if b =? 0 then raise ZeroDivisionError "division by zero"
  else match fdiv (raw a) (raw b) with
       | S754_infinity _ =>
           raise OverflowError "integer division result too large for a float"
       | f => Ok f
       end.

Definition is_zero (x : float) : bool :=
  match x with S754_zero _ => true | _ => false end.

(** [x / y] on two [float]s. *)
Definition float_truediv (x y : float) : result float :=
  if is_zero y then raise ZeroDivisionError "float division by zero"
  else Ok (fdiv x y).

(** [n * x] and [n / x] with an [int] on the left: the [int] is converted
    first. *)
Definition int_mul_float (n : Z) (x : float) : result float :=
  f <- of_int n ;; Ok (fmul f x).

Definition int_div_float (n : Z) (x : float) : result float :=
  f <- of_int n ;; float_truediv f x.

(** [int(x)]: truncation toward zero. *)
Definition int_of_float (x : float) : result Z :=
  match x with
  | S754_nan => raise ValueError "cannot convert float NaN to integer"
  | S754_infinity _ =>
      raise OverflowError "cannot convert float infinity to integer"
  | S754_zero _ => Ok 0
  | S754_finite s m e =>
      let mag := if 0 <=? e then Z.pos m * 2 ^ e else Z.pos m / 2 ^ (- e) in
      Ok (if s then - mag else mag)
  end.

(** Exact comparison of an [int] with a [float] (Python compares the two
    numbers, not their conversions).  [None] for NaN. *)
Definition compare_int_float (n : Z) (x : float) : option comparison :=
  match x with
  | S754_nan => None
  | S754_infinity s => Some (if s then Gt else Lt)
  | S754_zero _ => Some (n ?= 0)
  | S754_finite s m e =>
      let sm := if s then Z.neg m else Z.pos m in
      Some (if 0 <=? e then n ?= sm * 2 ^ e else n * 2 ^ (- e) ?= sm)
  end.

(** [n > x]. *)
Definition int_gt_float (n : Z) (x : float) : bool :=
  match compare_int_float n x with
  | Some Gt => true
  | _ => false
  end.

(** [n <= x] and [x <= n], [x < n] as propositions on the exact values. *)
Definition Z_le_float (n : Z) (x : float) : Prop :=
  compare_int_float n x = Some Lt \/ compare_int_float n x = Some Eq.

Definition float_le_Z (x : float) (n : Z) : Prop :=
  compare_int_float n x = Some Gt \/ compare_int_float n x = Some Eq.

Definition float_lt_Z (x : float) (n : Z) : Prop :=
  compare_int_float n x = Some Gt.

(** [|n - x| <= 1]. *)
Definition within_one (n : Z) (x : float) : Prop :=
  Z_le_float (n - 1) x /\ float_le_Z x (n + 1).

(** A number that is not negative: a signed zero or a finite double
    with a positive sign. *)
Definition nonneg_finite (x : float) : Prop :=
  match x with
  | S754_zero _ => True
  | S754_finite s _ _ => s = false
  | _ => False
  end.

(** The same with a mantissa of at most 54 bits and an exponent of at
    most one. *)
Definition small_nonneg (x : float) : Prop :=
  match x with
  | S754_zero _ => True
  | S754_finite s m e => s = false /\ Z.pos m <= 2 ^ 53 /\ e <= 1
  | _ => False
  end.

(** The literals of the source: the doubles nearest to the decimals. *)
Definition f0_9 : float := S754_finite false 8106479329266893 (-53).
Definition f0_4 : float := S754_finite false 7205759403792794 (-54).
Definition f0_05 : float := S754_finite false 7205759403792794 (-57).
Definition f0_02 : float := S754_finite false 5764607523034235 (-58).
Definition f0_15 : float := S754_finite false 5404319552844595 (-55).
Definition f50 : float := S754_finite false 7036874417766400 (-47).

End PyFloat.

(** ** The Pillow operations used by the compositor *)

Module PIL.

(** One pixel of an 8-bit RGBA buffer. *)
Record rgba := Pixel { red : Z; green : Z; blue : Z; alpha : Z }.

(** An image: its mode string, its size and its pixel buffer, read by
    coordinates as [Image.getpixel] does.  For a mode other than
    ["RGBA"] the buffer is only handed to the conversion routines. *)
Record Image := {
  mode : string;
  width : Z;
  height : Z;
  getpixel : Z -> Z -> rgba
}.

Definition size (im : Image) : Z * Z := (width im, height im).

Definition byte_range (c : Z) : Prop := 0 <= c <= 255.

Definition pixel_ok (p : rgba) : Prop :=
  byte_range (red p) /\ byte_range (green p) /\
  byte_range (blue p) /\ byte_range (alpha p).

(** Pillow's 8-bit fixed-point arithmetic ([ImagingUtils.h]). *)
Definition UINT8 (a : Z) : Z := a mod 256.
Definition SHIFTFORDIV255 (a : Z) : Z := Z.shiftr (Z.shiftr a 8 + a) 8.
Definition DIV255 (a : Z) : Z := SHIFTFORDIV255 (a + 128).
Definition BLEND (mask in1 in2 : Z) : Z :=
  DIV255 (in1 * (255 - mask) + in2 * mask).
Definition PRECISION_BITS : Z := 7.

(** One pixel of [paste] with an RGBA mask: every band of the
    destination is blended with the source by the mask's alpha. *)
Definition paste_mask_RGBA (out src : rgba) (mask : rgba) : rgba :=
  let a := alpha mask in
  Pixel (UINT8 (BLEND a (red out) (red src)))
        (UINT8 (BLEND a (green out) (green src)))
        (UINT8 (BLEND a (blue out) (blue src)))
        (UINT8 (BLEND a (alpha out) (alpha src))).

(** One pixel of [Image.alpha_composite]. *)
Definition alpha_composite_pixel (dst src : rgba) : rgba :=
  if alpha src =? 0 then dst
  else
    let blend := alpha dst * (255 - alpha src) in
    let outa255 := alpha src * 255 + blend in
    let coef1 :=
      alpha src * 255 * 255 * Z.shiftl 1 PRECISION_BITS / outa255 in
    let coef2 := 255 * Z.shiftl 1 PRECISION_BITS - coef1 in
    let tmpr := red src * coef1 + red dst * coef2 in
    let tmpg := green src * coef1 + green dst * coef2 in
    let tmpb := blue src * coef1 + blue dst * coef2 in
    let half := Z.shiftl 128 PRECISION_BITS in
    Pixel
      (UINT8 (Z.shiftr (SHIFTFORDIV255 (tmpr + half)) PRECISION_BITS))
      (UINT8 (Z.shiftr (SHIFTFORDIV255 (tmpg + half)) PRECISION_BITS))
      (UINT8 (Z.shiftr (SHIFTFORDIV255 (tmpb + half)) PRECISION_BITS))
      (UINT8 (SHIFTFORDIV255 (outa255 + 128))).

(** [Image.new(mode, size, color)]. *)
Definition Image_new (m : string) (sz : Z * Z) (color : rgba) : Image :=
  {| mode := m; width := fst sz; height := snd sz;
     getpixel := fun _ _ => color |}.

(** [im.copy()]. *)
Definition Image_copy (im : Image) : Image :=
  {| mode := mode im; width := width im; height := height im;
     getpixel := getpixel im |}.

(** [Image.alpha_composite(im1, im2)]: both images must be RGBA and of
    one size. *)
Definition Image_alpha_composite (im1 im2 : Image) : result Image :=
  if negb (String.eqb (mode im1) "RGBA") then
    raise ValueError "image has wrong mode"
  else if negb (String.eqb (mode im1) (mode im2)
                && (width im1 =? width im2) && (height im1 =? height im2))
  then raise ValueError "images do not match"
  else Ok {| mode := mode im1; width := width im1; height := height im1;
             getpixel := fun i j =>
               alpha_composite_pixel (getpixel im1 i j) (getpixel im2 i j) |}.

(** A side Pillow's C routines take as an [int] argument. *)
Definition c_int (n : Z) : bool := (- 2 ^ 31 <=? n) && (n <? 2 ^ 31).

(** The behaviour of Pillow that depends on tables, filters, the
    image's [info] and the storage at hand, none of them in the
    repository, is taken as given:
    - [convert_buffer im m]: the buffer of [im.convert(m)], or the
      exception it raises, for a conversion between two different
      modes (for RGB to RGBA the alpha it gives depends on the
      transparency colour the image's [info] may name);
    - [lanczos im w h]: the buffer of [im] resampled to [w] by [h] with
      the Lanczos filter, or the exception Pillow raises instead (for
      a side that is no C [int], for a buffer it gets no storage for);
    - [paste_other dst im box]: [dst.paste(im, box, im)] for an [im]
      whose mode is not ["RGBA"]. *)
Section Library.
Variable convert_buffer : Image -> string -> result (Z -> Z -> rgba).
Variable lanczos : Image -> Z -> Z -> result (Z -> Z -> rgba).
Variable paste_other : Image -> Image -> Z * Z -> result Image.

(** [im.convert(m)]: a new image of mode [m] and of the same size. *)
Definition Image_convert (im : Image) (m : string) : result Image :=
  if String.eqb (mode im) m then Ok (Image_copy im)
  else
    buf <- convert_buffer im m ;;
    Ok {| mode := m; width := width im; height := height im;
          getpixel := buf |}.

(** [im.resize((w, h), Image.Resampling.LANCZOS)]: a copy when the
    size is the image's own; a [ValueError] when both sides are C
    [int]s and one of them is below one. *)
Definition Image_resize (im : Image) (sz : Z * Z) : result Image :=
  let '(w, h) := sz in
  if (width im =? w) && (height im =? h) then Ok (Image_copy im)
  else if c_int w && c_int h && ((w <? 1) || (h <? 1)) then
    raise ValueError "height and width must be > 0"
  else
    buf <- lanczos im w h ;;
    Ok {| mode := mode im; width := w; height := h;
          getpixel := buf |}.

(** [dst.paste(im, (x, y), im)] on an RGBA destination: inside the box
    of [im] placed at [(x, y)] (clipped to the destination) every
    pixel is blended by the alpha of [im] itself. *)
Definition Image_paste (dst im : Image) (box : Z * Z) : result Image :=
  let '(x, y) := box in
  if String.eqb (mode im) "RGBA" then
    Ok {| mode := mode dst; width := width dst; height := height dst;
          getpixel := fun i j =>
            if (x <=? i) && (i <? x + width im)
               && (y <=? j) && (j <? y + height im)
            then let s := getpixel im (i - x) (j - y) in
                 paste_mask_RGBA (getpixel dst i j) s s
            else getpixel dst i j |}
  else paste_other dst im box.

End Library.

End PIL.

(** ** [logic_image_edit.py] *)

Module ImageEdit.
Import PyFloat PIL.

Section Compositor.
Variable convert_buffer : Image -> string -> result (Z -> Z -> rgba).
Variable lanczos : Image -> Z -> Z -> result (Z -> Z -> rgba).
Variable paste_other : Image -> Image -> Z * Z -> result Image.

Definition _prepare_image (image : Image) (mode : string)
  : result Image :=
  if negb (String.eqb (PIL.mode image) mode) then
    if String.eqb mode "RGBA" && String.eqb (PIL.mode image) "RGB" then
      Image_convert convert_buffer image "RGBA"
    else
      Image_convert convert_buffer image mode
  else Ok image.

Definition _paste_with_alpha (base overlay : Image) (position : Z * Z)
  : result Image :=
  let temp := Image_new "RGBA" (size base) (Pixel 0 0 0 0) in
  temp <- Image_paste paste_other temp overlay position ;;
  Image_alpha_composite base temp.

(** Lines 36-40: the product's height from the size ratio, its
    aspect ratio, and the width that keeps it. *)
Definition product_default_size (bg_height : Z) (product : Image)
    (product_size_ratio : float) : result (Z * Z * float) :=
  h <- int_mul_float bg_height product_size_ratio ;;
  product_target_height <- int_of_float h ;;
  product_aspect <- int_truediv (width product) (height product) ;;
  w <- int_mul_float product_target_height product_aspect ;;
  product_target_width <- int_of_float w ;;
  Ok (product_target_width, product_target_height, product_aspect).

(** Lines 36-45: the size the product is resized to, after the cap
    at 90% of the background's width. *)
Definition product_target_size (bg_width bg_height : Z)
    (product : Image) (product_size_ratio : float) : result (Z * Z) :=
  '(product_target_width, product_target_height, product_aspect) <-
    product_default_size bg_height product product_size_ratio ;;
  limit <- int_mul_float bg_width f0_9 ;;
  if int_gt_float product_target_width limit then
    w <- int_mul_float bg_width f0_9 ;;
    product_target_width <- int_of_float w ;;
    h <- int_div_float product_target_width product_aspect ;;
    product_target_height <- int_of_float h ;;
    Ok (product_target_width, product_target_height)
  else Ok (product_target_width, product_target_height).

(** Lines 50-51: where the product is pasted. *)
Definition product_position (bg_width bg_height : Z)
    (product_target_width product_target_height : Z) : result (Z * Z) :=
  let product_x := (bg_width - product_target_width) / 2 in
  m <- int_mul_float bg_height f0_05 ;;
  margin <- int_of_float m ;;
  let product_y := bg_height - product_target_height - margin in
  Ok (product_x, product_y).

(** Lines 60-62: the size the logo is resized to. *)
Definition logo_target_size (bg_width : Z) (logo : Image)
    (logo_size_ratio : float) : result (Z * Z) :=
  w <- int_mul_float bg_width logo_size_ratio ;;
  logo_target_width <- int_of_float w ;;
  logo_aspect <- int_truediv (width logo) (height logo) ;;
  h <- int_div_float logo_target_width logo_aspect ;;
  logo_target_height <- int_of_float h ;;
  Ok (logo_target_width, logo_target_height).

(** Lines 67-69: where the logo is pasted. *)
Definition logo_position (bg_width : Z) (logo_target_width : Z)
  : result (Z * Z) :=
  m <- int_mul_float bg_width f0_02 ;;
  logo_margin <- int_of_float m ;;
  let logo_x := bg_width - logo_target_width - logo_margin in
  let logo_y := logo_margin in
  Ok (logo_x, logo_y).

Definition create_composite (background product logo : Image)
    (product_size_ratio logo_size_ratio : float) : result Image :=
  background <-
    (if negb (String.eqb (mode background) "RGBA")
     then Image_convert convert_buffer background "RGBA"
     else Ok background) ;;
  let composite := Image_copy background in
  product <- _prepare_image product "RGBA" ;;
  let '(bg_width, bg_height) := size composite in
  '(product_target_width, product_target_height) <-
    product_target_size bg_width bg_height product product_size_ratio ;;
  product_resized <-
    Image_resize lanczos product
      (product_target_width, product_target_height) ;;
  '(product_x, product_y) <-
    product_position bg_width bg_height
      product_target_width product_target_height ;;
  composite <-
    _paste_with_alpha composite product_resized (product_x, product_y) ;;
  logo <- _prepare_image logo "RGBA" ;;
  '(logo_target_width, logo_target_height) <-
    logo_target_size bg_width logo logo_size_ratio ;;
  logo_resized <-
    Image_resize lanczos logo (logo_target_width, logo_target_height) ;;
  '(logo_x, logo_y) <- logo_position bg_width logo_target_width ;;
  composite <- _paste_with_alpha composite logo_resized (logo_x, logo_y) ;;
  Ok composite.

End Compositor.

(** The defaults of [create_composite]'s keyword arguments. *)
Definition default_product_size_ratio : float := f0_4.
Definition default_logo_size_ratio : float := f0_15.

End ImageEdit.

(** ** The layout [create_composite] computes, and the layout the
       specification describes *)

Module Layout.
Import PyFloat PIL ImageEdit.

(** The product's size and position as [create_composite] computes
    them: [(width, height, x, y)]. *)
Definition product_layout (bg_width bg_height : Z) (product : Image)
    (product_size_ratio : float) : result (Z * Z * Z * Z) :=
  '(w, h) <-
    product_target_size bg_width bg_height product product_size_ratio ;;
  '(x, y) <- product_position bg_width bg_height w h ;;
  Ok (w, h, x, y).

(** The same for the logo. *)
Definition logo_layout (bg_width : Z) (logo : Image)
    (logo_size_ratio : float) : result (Z * Z * Z * Z) :=
  '(w, h) <- logo_target_size bg_width logo logo_size_ratio ;;
  '(x, y) <- logo_position bg_width w ;;
  Ok (w, h, x, y).

(** [round(x)]: the nearest integer, ties to the even one. *)
Definition round_of_float (x : float) : result Z :=
  match x with
  | S754_nan => raise ValueError "cannot convert float NaN to integer"
  | S754_infinity _ =>
      raise OverflowError "cannot convert float infinity to integer"
  | S754_zero _ => Ok 0
  | S754_finite s m e =>
      let mag :=
        if 0 <=? e then Z.pos m * 2 ^ e
        else
          let q := Z.pos m / 2 ^ (- e) in
          let r := Z.pos m mod 2 ^ (- e) in
          match 2 * r ?= 2 ^ (- e) with
          | Lt => q
          | Gt => q + 1
          | Eq => if Z.even q then q else q + 1
          end in
      Ok (if s then - mag else mag)
  end.

(** The product layout in the specification's words: the target height
    is [round(backgroundHeight * productSizeRatio)], the target width
    [round(targetHeight * productAspectRatio)]; a width above
    [0.9 * backgroundWidth] is recomputed as
    [round(0.9 * backgroundWidth)] with the height
    [round(targetWidth / productAspectRatio)]; the position is
    [x = (backgroundWidth - productWidth) / 2] and
    [y = backgroundHeight - productHeight
         - round(0.05 * backgroundHeight)]. *)
Definition spec_product_layout (bg_width bg_height : Z) (product : Image)
    (product_size_ratio : float) : result (Z * Z * Z * Z) :=
  h <- int_mul_float bg_height product_size_ratio ;;
  target_height <- round_of_float h ;;
  aspect <- int_truediv (width product) (height product) ;;
  w <- int_mul_float target_height aspect ;;
  target_width <- round_of_float w ;;
  limit <- int_mul_float bg_width f0_9 ;;
  '(target_width, target_height) <-
    (if int_gt_float target_width limit then
       target_width <- round_of_float limit ;;
       h <- int_div_float target_width aspect ;;
       target_height <- round_of_float h ;;
       Ok (target_width, target_height)
     else Ok (target_width, target_height)) ;;
  m <- int_mul_float bg_height f0_05 ;;
  margin <- round_of_float m ;;
  Ok (target_width, target_height,
      (bg_width - target_width) / 2,
      bg_height - target_height - margin).

(** The logo layout in the specification's words: the target width is
    [round(backgroundWidth * logoSizeRatio)], the target height
    [round(targetWidth / logoAspectRatio)], the margin 2% of the
    background width, and the position
    [x = backgroundWidth - logoWidth - margin], [y = margin]. *)
Definition spec_logo_layout (bg_width : Z) (logo : Image)
    (logo_size_ratio : float) : result (Z * Z * Z * Z) :=
  w <- int_mul_float bg_width logo_size_ratio ;;
  target_width <- round_of_float w ;;
  aspect <- int_truediv (width logo) (height logo) ;;
  h <- int_div_float target_width aspect ;;
  target_height <- round_of_float h ;;
  m <- int_mul_float bg_width f0_02 ;;
  margin <- round_of_float m ;;
  Ok (target_width, target_height,
      bg_width - target_width - margin, margin).

(** The doubles 1.0 and 2.0. *)
Definition f1 : float := S754_finite false 4503599627370496 (-52).
Definition f2 : float := S754_finite false 4503599627370496 (-51).

(** Sample inputs: an image of a given mode and size, of one colour. *)
Definition solid (m : string) (w h : Z) (c : rgba) : Image :=
  Image_new m (w, h) c.

Definition square_product : Image := solid "RGBA" 800 800 (Pixel 200 30 30 255).
Definition wide_product : Image := solid "RGBA" 700 100 (Pixel 200 30 30 255).
Definition wide_logo : Image := solid "RGBA" 200 100 (Pixel 10 10 120 255).

Definition background_1024 : Image :=
  solid "RGB" 1024 1024 (Pixel 240 240 245 255).

(** Stand-ins for the library routines, for running the compositor on
    the samples: RGB to RGBA for an image without a transparency
    colour (every pixel opaque) and no other conversion,
    nearest-neighbour resampling, no paste with a mask that is not
    RGBA. *)
Definition sample_convert (im : Image) (m : string)
  : result (Z -> Z -> rgba) :=
  if String.eqb (mode im) "RGB" && String.eqb m "RGBA" then
    Ok (fun i j =>
          let p := getpixel im i j in
          Pixel (red p) (green p) (blue p) 255)
  else raise ValueError "conversion not supported".

Definition sample_resample (im : Image) (w h : Z)
  : result (Z -> Z -> rgba) :=
  Ok (fun i j => getpixel im (i * width im / w) (j * height im / h)).

Definition sample_paste (dst im : Image) (box : Z * Z) : result Image :=
  raise ValueError "bad transparency mask".

(** A 1 x 1 opaque base and a 1 x 1 fully transparent overlay. *)
Definition red_pixel : rgba := Pixel 255 0 0 255.
Definition one_red : Image := solid "RGBA" 1 1 red_pixel.
Definition one_clear : Image := solid "RGBA" 1 1 (Pixel 9 9 9 0).

End Layout.

(** ** The layers [create_composite] stacks *)

Module Layers.
Import PyFloat PIL ImageEdit Layout.

(** Whether the pixel [(i, j)] lies in the box of width [w] and height
    [h] whose upper left corner is [(x, y)]. *)
Definition in_box (x y w h i j : Z) : Prop :=
  x <= i < x + w /\ y <= j < y + h.

(** What pasting [overlay] at [(x, y)] on a fully transparent canvas
    leaves at the pixel [(i, j)]. *)
Definition layer_pixel (overlay : Image) (x y i j : Z) : rgba :=
  if (x <=? i) && (i <? x + width overlay)
     && (y <=? j) && (j <? y + height overlay)
  then let s := getpixel overlay (i - x) (j - y) in
       paste_mask_RGBA (Pixel 0 0 0 0) s s
  else Pixel 0 0 0 0.

Section Library.
Variable convert_buffer : Image -> string -> result (Z -> Z -> rgba).
Variable lanczos : Image -> Z -> Z -> result (Z -> Z -> rgba).

(** Lines 25-26: the background in RGBA mode. *)
Definition background_as_rgba (background : Image) : result Image :=
  if negb (String.eqb (mode background) "RGBA")
  then Image_convert convert_buffer background "RGBA"
  else Ok background.

(** Lines 32-47: the product as it is pasted. *)
Definition resized_product (bg_width bg_height : Z) (product : Image)
    (product_size_ratio : float) : result Image :=
  product <- _prepare_image convert_buffer product "RGBA" ;;
  '(w, h) <-
    product_target_size bg_width bg_height product product_size_ratio ;;
  Image_resize lanczos product (w, h).

(** Lines 57-64: the logo as it is pasted. *)
Definition resized_logo (bg_width : Z) (logo : Image)
    (logo_size_ratio : float) : result Image :=
  logo <- _prepare_image convert_buffer logo "RGBA" ;;
  '(w, h) <- logo_target_size bg_width logo logo_size_ratio ;;
  Image_resize lanczos logo (w, h).

End Library.

(** A sample: an opaque 1024 x 1024 RGBA background, a product and a
    logo that are fully transparent. *)
Definition opaque_background : Image :=
  solid "RGBA" 1024 1024 (Pixel 240 240 245 255).
Definition clear_product : Image := solid "RGBA" 800 800 (Pixel 0 0 0 0).
Definition clear_logo : Image := solid "RGBA" 200 100 (Pixel 0 0 0 0).

End Layers.

(** ** Python string operations *)

Module PyStr.

Local Open Scope N_scope.

(** [str(n)] for an [int]. *)
Definition str_of_int (z : Z) : pystr :=
  lit (NilZero.string_of_int (Z.to_int z)).

(** [len(l)], of a string or of a list. *)
Definition len {A} (l : list A) : Z := Z.of_nat (List.length l).

(** Truth value of a string: non-empty. *)
Definition truthy (s : pystr) : bool :=
  match s with [] => false | _ => true end.

Definition between (lo hi c : N) : bool := (lo <=? c) && (c <=? hi).

(** The code points [str.isspace], [str.strip] and the pattern [\s]
    treat as whitespace. *)
Definition is_space (c : N) : bool :=
  between 9 13 c || between 28 32 c || (c =? 133) || (c =? 160)
  || (c =? 5760) || between 8192 8202 c || (c =? 8232) || (c =? 8233)
  || (c =? 8239) || (c =? 8287) || (c =? 12288).

(** [str.lower] on the letters A-Z.  The code points outside ASCII are
    left as they are: Python lowers two of them to ASCII letters,
    U+0130 to an [i] followed by a combining dot and U+212A to [k], and
    neither can be part of an occurrence of the two needles line 166 of
    [app.py] looks for, so the test of that line is not affected. *)
Definition lower_char (c : N) : N :=
  if between 65 90 c then c + 32 else c.

Definition lower (s : pystr) : pystr := List.map lower_char s.

Fixpoint starts_with (prefix s : pystr) : bool :=
  match prefix, s with
  | [], _ => true
  | _ :: _, [] => false
  | p :: prefix', c :: s' => (p =? c) && starts_with prefix' s'
  end.

(** [needle in hay]. *)
Fixpoint contains (needle hay : pystr) : bool :=
  match hay with
  | [] => starts_with needle []
  | _ :: hay' => starts_with needle hay || contains needle hay'
  end.

Fixpoint drop_while (f : N -> bool) (s : pystr) : pystr :=
  match s with
  | [] => []
  | c :: s' => if f c then drop_while f s' else s
  end.

Definition lstrip (s : pystr) : pystr := drop_while is_space s.
Definition rstrip (s : pystr) : pystr := rev (lstrip (rev s)).
Definition strip (s : pystr) : pystr := rstrip (lstrip s).

(** [s.split(sep)] for a one-character separator. *)
Fixpoint split_on (sep : N) (s : pystr) : list pystr :=
  match s with
  | [] => [[]]
  | c :: s' =>
      let r := split_on sep s' in
      if c =? sep then [] :: r
      else match r with
           | h :: t => (c :: h) :: t
           | [] => [[c]]
           end
  end.

(** [sep.join(parts)]. *)
Fixpoint join (sep : pystr) (parts : list pystr) : pystr :=
  match parts with
  | [] => []
  | [p] => p
  | p :: rest => p ++ sep ++ join sep rest
  end.

(** [l[:n]]. *)
Definition slice_to {A} (l : list A) (n : Z) : list A :=
  if (0 <=? n)%Z then firstn (Z.to_nat n) l
  else firstn (Z.to_nat (Z.of_nat (List.length l) + n)) l.

Definition newline : N := 10.
Definition quote : N := 34.

(** [s.replace(old, new)] for a one-character [old]. *)
Definition replace_char (old : N) (new : pystr) (s : pystr) : pystr :=
  flat_map (fun c => if c =? old then new else [c]) s.

(** [t] is what is left of [s] after some leading characters are
    removed. *)
Definition is_suffix (t s : pystr) : Prop := exists p, s = p ++ t.

(** [s] ends with a character that is no whitespace. *)
Definition ends_solid (s : pystr) : Prop :=
  exists q c, s = q ++ [c] /\ is_space c = false.

End PyStr.

(** ** [logic_text.py] *)

Module TextLogic.
Import PyStr.

(** The module-level configuration, read from the environment. *)
Record config := {
  GEMINI_API_KEY : option pystr;
  GEMINI_MODEL_NAME : pystr;
  GEMINI_API_BASE : pystr
}.

(** What the [generateContent] request can come to, one case per path
    of [_call_gemini]'s [try] block. *)
Inductive gemini_reply :=
| HTTPError (status_code : Z) (text : pystr)
| NetworkError (msg : pystr)
| ProcessingError (msg : pystr)
| NoCandidates
| NoParts
| PartText (text : pystr).

Section Service.
(** The remote service: the reply to a request for a URL and a
    prompt. *)
Variable post : pystr -> pystr -> gemini_reply.
(** The Unicode decimal digits, the pattern [\d]. *)
Variable is_decimal : N -> bool.
Variable cfg : config.

Definition key_present : bool :=
  match GEMINI_API_KEY cfg with
  | Some k => truthy k
  | None => false
  end.

(** [_call_gemini]; the debugging output and the [ListModels] probe,
    whose failures are swallowed, are left out. *)
Definition _call_gemini (prompt : pystr) : result pystr :=
  if negb key_present then
    raise ValueError "GEMINI_API_KEY not found in environment variables"
  else
    let url := GEMINI_API_BASE cfg ++ lit "/models/"
               ++ GEMINI_MODEL_NAME cfg ++ lit ":generateContent" in
    match post url prompt with
    | HTTPError status text =>
        Raise (Exn RuntimeError
                 (lit "Gemini HTTP error: " ++ str_of_int status
                  ++ lit " " ++ text))
    | NetworkError msg =>
        Raise (Exn RuntimeError (lit "Gemini network error: " ++ msg))
    | ProcessingError msg =>
        Raise (Exn RuntimeError (lit "Gemini processing error: " ++ msg))
    | NoCandidates =>
        Raise (Exn RuntimeError
                 (lit "Gemini processing error: "
                  ++ lit "No candidates returned from Gemini API"))
    | NoParts =>
        Raise (Exn RuntimeError
                 (lit "Gemini processing error: "
                  ++ lit "No content parts in Gemini response"))
    | PartText text => Ok (strip text)
    end.

(** The request text of [generate_prompts]. *)
Definition prompts_request (product_description : pystr)
    (num_prompts : Z) : pystr :=
  lit "You are a creative director for advertising. Based on this product description: "
  ++ [quote] ++ product_description ++ [quote; newline; newline]
  ++ lit "Generate " ++ str_of_int num_prompts
  ++ lit " distinct, visually appealing background scene prompts for Stable Diffusion. Each prompt should:"
  ++ [newline]
  ++ lit "1. Describe a unique environment/scene suitable for showcasing this product"
  ++ [newline]
  ++ lit "2. Be vivid and detailed (e.g., " ++ [quote]
  ++ lit "A sunlit modern kitchen with marble countertops and natural lighting"
  ++ [quote] ++ lit ")" ++ [newline]
  ++ lit "3. NOT include the product itself or any text/logos"
  ++ [newline]
  ++ lit "4. Focus on atmosphere, mood, and setting" ++ [newline]
  ++ lit "5. Be suitable for placing a product image in the foreground"
  ++ [newline; newline]
  ++ lit "Return ONLY a numbered list of " ++ str_of_int num_prompts
  ++ lit " prompts, one per line, without any additional text or explanation."
  ++ [newline] ++ lit "Example format:" ++ [newline]
  ++ lit "1. A minimalist white studio with soft natural lighting"
  ++ [newline]
  ++ lit "2. A vibrant urban street scene at golden hour" ++ [newline]
  ++ lit "3. A luxurious spa setting with marble and plants"
  ++ [newline].

(** [re.sub(r'^[\d\-\*•]\s*\.?\s*', '', s)]: one leading digit,
    dash, star or bullet, then blanks, an optional dot, and blanks. *)
Definition strip_numbering (s : pystr) : pystr :=
  match s with
  | c :: rest =>
      if is_decimal c || (c =? 45)%N || (c =? 42)%N || (c =? 8226)%N
      then
        match lstrip rest with
        | 46%N :: rest' => lstrip rest'
        | rest' => rest'
        end
      else s
  | [] => []
  end.

(** [re.sub(r'^\*\*|^\*|^#+\s*', '', s)]. *)
Definition strip_markdown (s : pystr) : pystr :=
  match s with
  | 42%N :: 42%N :: rest => rest
  | 42%N :: rest => rest
  | 35%N :: _ => lstrip (drop_while (fun c => (c =? 35)%N) s)
  | _ => s
  end.

(** The body of the [for line in lines] loop. *)
Fixpoint parse_lines (min_length : Z) (lines : list pystr)
  : list pystr :=
  match lines with
  | [] => []
  | line :: rest =>
      let cleaned := strip line in
      if negb (truthy cleaned) then parse_lines min_length rest
      else
        let cleaned := strip_numbering cleaned in
        let cleaned := strip_markdown cleaned in
        if truthy cleaned && (min_length <? len cleaned)%Z
        then strip cleaned :: parse_lines min_length rest
        else parse_lines min_length rest
  end.

(** The templates used when the reply holds no usable line. *)
Definition default_base_prompts (product_description : pystr)
  : list pystr :=
  [ lit "A professional setting showcasing " ++ product_description;
    lit "A modern environment featuring " ++ product_description;
    lit "An elegant backdrop for " ++ product_description ].

(** [while len(prompts) < num_prompts: ...], at most [fuel] rounds;
    [None] when the rounds do not suffice. *)
Fixpoint pad_prompts (fuel : nat) (base_prompts prompts : list pystr)
    (num_prompts : Z) : option (list pystr) :=
  if (len prompts <? num_prompts)%Z then
    match fuel with
    | O => None
    | S fuel' =>
        let idx := (List.length prompts mod List.length base_prompts)%nat in
        let variation := nth idx base_prompts [] in
        let variation :=
          if (List.length base_prompts <=? List.length prompts)%nat then
            variation ++ lit ", variation "
            ++ str_of_int (len prompts - len base_prompts + 1)
          else variation in
        pad_prompts fuel' base_prompts (prompts ++ [variation]) num_prompts
    end
  else Some prompts.

(** The templates of the [except] branch. *)
Definition fallback_templates : list pystr :=
  [ lit "A modern minimalist studio with soft lighting, perfect for showcasing ";
    lit "A vibrant contemporary setting with natural elements, ideal for ";
    lit "A luxurious elegant environment with sophisticated lighting, showcasing ";
    lit "A dynamic urban backdrop with modern aesthetics, featuring ";
    lit "A serene natural setting with professional lighting, highlighting " ].

Definition fallback_prompts (product_description : pystr) : list pystr :=
  List.map (fun t => t ++ product_description) fallback_templates.

(** [generate_prompts]; [None] only if the padding loop did not end
    within [num_prompts] rounds. *)
Definition generate_prompts (product_description : pystr)
    (num_prompts : Z) : option (list pystr) :=
  match _call_gemini (prompts_request product_description num_prompts)
  with
  | Raise e => Some (fallback_prompts product_description)
  | Ok response_text =>
      if truthy response_text then
        let lines := split_on newline (strip response_text) in
        let prompts := parse_lines 10 lines in
        if (len prompts <? num_prompts)%Z then
          let base_prompts :=
            match prompts with
            | [] => default_base_prompts product_description
            | _ => prompts
            end in
          match pad_prompts (Z.to_nat num_prompts) base_prompts prompts
                  num_prompts with
          | Some prompts => Some (slice_to prompts num_prompts)
          | None => None
          end
        else Some (slice_to prompts num_prompts)
      else Some []
  end.

(** The request text of [generate_captions]. *)
Definition captions_request (product_description : pystr)
    (num_captions : Z) : pystr :=
  lit "You are a professional copywriter. Based on this product description: "
  ++ [quote] ++ product_description ++ [quote; newline; newline]
  ++ lit "Generate " ++ str_of_int num_captions
  ++ lit " catchy, engaging marketing captions for social media ads. Each caption should:"
  ++ [newline]
  ++ lit "1. Be concise (under 100 characters)" ++ [newline]
  ++ lit "2. Be attention-grabbing and compelling" ++ [newline]
  ++ lit "3. Include relevant hashtags (2-3 per caption)" ++ [newline]
  ++ lit "4. Highlight key benefits or features" ++ [newline]
  ++ lit "5. Be suitable for Instagram/Facebook ads"
  ++ [newline; newline]
  ++ lit "Return ONLY a numbered list of " ++ str_of_int num_captions
  ++ lit " captions, one per line, without any additional text or explanation."
  ++ [newline] ++ lit "Example format:" ++ [newline]
  ++ lit "1. Transform your space with premium quality! #PremiumDesign #HomeDecor"
  ++ [newline]
  ++ lit "2. Elevate your lifestyle today. #ModernLiving #QualityFirst"
  ++ [newline]
  ++ lit "3. Discover the difference. #Innovation #Style"
  ++ [newline].

(** The templates used when the reply holds no usable caption. *)
Definition default_base_captions (product_description : pystr)
  : list pystr :=
  [ lit "Discover " ++ product_description
    ++ lit "! #Quality #Innovation";
    lit "Elevate your experience. " ++ product_description
    ++ lit " #Premium #Style" ].

(** [while len(captions) < num_captions: ...], at most [fuel] rounds;
    [None] when the rounds do not suffice. *)
Fixpoint pad_captions (fuel : nat) (base_captions captions : list pystr)
    (num_captions : Z) : option (list pystr) :=
  if (len captions <? num_captions)%Z then
    match fuel with
    | O => None
    | S fuel' =>
        let idx :=
          (List.length captions mod List.length base_captions)%nat in
        let variation := nth idx base_captions [] in
        let variation :=
          if (List.length base_captions <=? List.length captions)%nat
          then replace_char 35 (lit "#New") variation
          else variation in
        pad_captions fuel' base_captions (captions ++ [variation])
          num_captions
    end
  else Some captions.

(** The captions of the [except] branch. *)
Definition fallback_captions (product_description : pystr)
  : list pystr :=
  [ lit "Discover " ++ product_description
    ++ lit "! #Quality #Innovation";
    lit "Elevate your experience with " ++ product_description
    ++ lit ". #Premium #Style";
    lit "Transform your world. " ++ product_description
    ++ lit " #Modern #Design";
    lit "Experience the difference. " ++ product_description
    ++ lit " #Excellence #Luxury";
    lit "Your new favorite. " ++ product_description
    ++ lit " #Trending #MustHave" ].

(** [generate_captions]; [None] only if the padding loop did not end
    within [num_captions] rounds. *)
Definition generate_captions (product_description : pystr)
    (num_captions : Z) : option (list pystr) :=
  match _call_gemini (captions_request product_description num_captions)
  with
  | Raise e => Some (fallback_captions product_description)
  | Ok response_text =>
      if truthy response_text then
        let lines := split_on newline (strip response_text) in
        let captions := parse_lines 5 lines in
        if (len captions <? num_captions)%Z then
          let base_captions :=
            match captions with
            | [] => default_base_captions product_description
            | _ => captions
            end in
          match pad_captions (Z.to_nat num_captions) base_captions
                  captions num_captions with
          | Some captions => Some (slice_to captions num_captions)
          | None => None
          end
        else Some (slice_to captions num_captions)
      else Some []
  end.

End Service.

(** Lines 137-141: the prompt the padding loop appends when the list
    holds [n] prompts. *)
Definition prompt_variation (base_prompts : list pystr) (n : nat)
  : pystr :=
  let variation :=
    nth (n mod List.length base_prompts)%nat base_prompts [] in
  if (List.length base_prompts <=? n)%nat then
    variation ++ lit ", variation "
    ++ str_of_int (Z.of_nat n - len base_prompts + 1)
  else variation.

(** Lines 214-218: the caption the padding loop appends when the list
    holds [n] captions. *)
Definition caption_variation (base_captions : list pystr) (n : nat)
  : pystr :=
  let variation :=
    nth (n mod List.length base_captions)%nat base_captions [] in
  if (List.length base_captions <=? n)%nat then
    replace_char 35 (lit "#New") variation
  else variation.

(** Sample surroundings: a key, ASCII digits, and a service that is
    down or answers with a numbered list. *)
Definition sample_config : config :=
  {| GEMINI_API_KEY := Some (lit "key");
     GEMINI_MODEL_NAME := lit "gemini-2.5-pro";
     GEMINI_API_BASE := lit "https://generativelanguage.googleapis.com/v1" |}.

Definition ascii_digit (c : N) : bool := between 48 57 c.

Definition service_down (url prompt : pystr) : gemini_reply :=
  NetworkError (lit "connection refused").

Definition service_two_lines (url prompt : pystr) : gemini_reply :=
  PartText (lit "1. A minimalist white studio with soft natural lighting"
            ++ [newline]
            ++ lit "2. A vibrant urban street scene at golden hour").

Definition headphones : pystr :=
  lit "Premium wireless headphones with noise cancellation".

(** A reply with one caption, and a reply that is a heading only. *)
Definition service_one_caption (url prompt : pystr) : gemini_reply :=
  PartText (lit "1. Sound that moves you. #Audio #Wireless").

Definition service_heading_only (url prompt : pystr) : gemini_reply :=
  PartText (lit "Here you go:").

End TextLogic.

(** ** [logic_image_gen.py] *)

Module ImageGen.
Import PyStr PIL.

(** A decoded JSON document. *)
#[local] Set Warnings "-register-all".
Inductive json :=
| JNull
| JBool (b : bool)
| JNumber (n : Z)
| JString (s : pystr)
| JArray (items : list json)
| JObject (members : list (pystr * json)).

(** An HTTP response: its status, its body as text, and what
    [response.json()] gives. *)
Record response := {
  status_code : Z;
  text : pystr;
  body_json : result json
}.

(** What the [try] block comes to before the status is looked at: the
    request (building the base image, encoding it, posting it) raises a
    [requests] exception, raises another exception, or is answered. *)
Inductive http_outcome :=
| RequestFails (msg : pystr)
| OtherFailure (msg : pystr)
| Answered (r : response).

Fixpoint pystr_eqb (a b : pystr) : bool :=
  match a, b with
  | [], [] => true
  | x :: a', y :: b' => (x =? y)%N && pystr_eqb a' b'
  | _, _ => false
  end.

Fixpoint lookup (key : pystr) (members : list (pystr * json))
  : option json :=
  match members with
  | [] => None
  | (k, v) :: rest => if pystr_eqb k key then Some v else lookup key rest
  end.

Definition is_string (key : pystr) (v : json) : bool :=
  match v with
  | JString s => pystr_eqb s key
  | _ => false
  end.

(** [type(v).__name__], as the texts of the exceptions below name
    it (the texts are those of CPython 3.11 to 3.13). *)
Definition type_name (v : json) : string :=
  match v with
  | JNull => "NoneType"
  | JBool _ => "bool"
  | JNumber _ => "int"
  | JString _ => "str"
  | JArray _ => "list"
  | JObject _ => "dict"
  end.

(** [str(KeyError(key))]: the [repr] of the key, which puts a key
    without quotes, backslashes or control characters (the keys of
    the source are such) between single quotes. *)
Definition key_error (key : pystr) : exn :=
  Exn KeyError (lit "'" ++ key ++ lit "'").

(** [key in v] for a string [key]. *)
Definition json_in (key : pystr) (v : json) : result bool :=
  match v with
  | JObject members =>
      Ok (match lookup key members with Some _ => true | None => false end)
  | JArray items => Ok (existsb (is_string key) items)
  | JString s => Ok (contains key s)
  | _ =>
      raise TypeError
        ("argument of type '" ++ type_name v ++ "' is not iterable")
  end.

(** [v[key]] for a string [key]. *)
Definition json_get (key : pystr) (v : json) : result json :=
  match v with
  | JObject members =>
      match lookup key members with
      | Some x => Ok x
      | None => Raise (key_error key)
      end
  | JArray _ =>
      raise TypeError "list indices must be integers or slices, not str"
  | JString _ =>
      raise TypeError "string indices must be integers, not 'str'"
  | _ =>
      raise TypeError
        ("'" ++ type_name v ++ "' object is not subscriptable")
  end.

(** [v[0]]. *)
Definition json_first (v : json) : result json :=
  match v with
  | JArray (x :: _) => Ok x
  | JArray [] => raise IndexError "list index out of range"
  | JString (c :: _) => Ok (JString [c])
  | JString [] => raise IndexError "string index out of range"
  | JObject _ => raise KeyError "0"
  | _ =>
      raise TypeError
        ("'" ++ type_name v ++ "' object is not subscriptable")
  end.

(** [len(v)]. *)
Definition json_len (v : json) : result Z :=
  match v with
  | JArray items => Ok (len items)
  | JString s => Ok (len s)
  | JObject members => Ok (len members)
  | _ =>
      raise TypeError
        ("object of type '" ++ type_name v ++ "' has no len()")
  end.

Section Service.
(** The module-level key. *)
Variable STABILITY_API_KEY : option pystr.
(** The service: what a request for a prompt and a size comes to. *)
Variable post : pystr -> Z -> Z -> http_outcome.
(** Decoding the artifact: [base64.b64decode] and [Image.open]. *)
Variable open_image : json -> result Image.
(** [str(v)] of a decoded JSON value that is not a string, as an
    f-string prints it. *)
Variable json_repr : json -> pystr.

Definition json_str (v : json) : pystr :=
  match v with
  | JString s => s
  | _ => json_repr v
  end.

Definition key_present : bool :=
  match STABILITY_API_KEY with
  | Some k => truthy k
  | None => false
  end.

(** The branch for status 200. *)
Definition read_artifact (r : response)
  : result (option Image * option pystr) :=
  result <- body_json r ;;
  has <- json_in (lit "artifacts") result ;;
  nonempty <-
    (if has then
       artifacts <- json_get (lit "artifacts") result ;;
       n <- json_len artifacts ;;
       Ok (0 <? n)
     else Ok false) ;;
  if nonempty then
    artifacts <- json_get (lit "artifacts") result ;;
    first <- json_first artifacts ;;
    image_data <- json_get (lit "base64") first ;;
    image <- open_image image_data ;;
    Ok (Some image, None)
  else Ok (None, Some (lit "No artifacts in API response")).

(** The text of an error response: the body's ["message"] when the
    body is JSON that holds one, the raw text otherwise (every
    exception on the way is swallowed). *)
Definition api_error_text (r : response) : pystr :=
  let error_text := text r in
  match
    (error_json <- body_json r ;;
     has <- json_in (lit "message") error_json ;;
     if has then
       m <- json_get (lit "message") error_json ;;
       Ok (json_str m)
     else Ok error_text)
  with
  | Ok t => t
  | Raise _ => error_text
  end.

Definition generate_background (prompt : pystr) (width height : Z)
  : option Image * option pystr :=
  if negb key_present then
    (None,
     Some (lit "STABILITY_API_KEY not found in environment variables"))
  else
    match post prompt width height with
    | RequestFails msg => (None, Some (lit "Network error: " ++ msg))
    | OtherFailure msg =>
        (None, Some (lit "Error generating background: " ++ msg))
    | Answered r =>
        if status_code r =? 200 then
          match read_artifact r with
          | Ok res => res
          | Raise (Exn RequestException msg) =>
              (None, Some (lit "Network error: " ++ msg))
          | Raise (Exn _ msg) =>
              (None, Some (lit "Error generating background: " ++ msg))
          end
        else if status_code r =? 402 then
          (None,
           Some (lit "Stable Diffusion 3.5 Medium model is not accessible. Your credits may have ended. Please check your Stability AI account balance."))
        else if status_code r =? 401 then
          (None,
           Some (lit "Invalid API key. Please check your STABILITY_API_KEY in the .env file."))
        else if status_code r =? 429 then
          (None,
           Some (lit "Rate limit exceeded. Please wait a moment and try again."))
        else
          (None,
           Some (lit "API Error (" ++ str_of_int (status_code r)
                 ++ lit "): " ++ api_error_text r))
    end.

End Service.

(** The two shapes of a result: an image with no message, or no image
    with a non-empty message. *)
Definition well_shaped (r : option Image * option pystr) : Prop :=
  match r with
  | (Some _, None) => True
  | (None, Some msg) => msg <> []
  | _ => False
  end.

End ImageGen.

(** ** [logic_image_gen.py]: the base image *)

Module BaseImage.
Import PyFloat PIL.

(** Lines 40-42: one channel of row [y],
    [int(top - (y / height) * span)]. *)
Definition gradient_channel (top span y height : Z) : result Z :=
  q <- int_truediv y height ;;
  s <- of_int span ;;
  t <- of_int top ;;
  int_of_float (fsub t (fmul q s)).

(** Lines 40-43: the colour of row [y]. *)
Definition gradient_colour (y height : Z) : result rgba :=
  r <- gradient_channel 240 20 y height ;;
  g <- gradient_channel 240 20 y height ;;
  b <- gradient_channel 245 15 y height ;;
  Ok (Pixel r g b 255).

(** Line 38: [for y in range(height)], [n] rows from row [y] on. *)
Fixpoint gradient_rows (n : nat) (y height : Z) : result (list rgba) :=
  match n with
  | O => Ok []
  | S n' =>
      c <- gradient_colour y height ;;
      rest <- gradient_rows n' (y + 1) height ;;
      Ok (c :: rest)
  end.

Section Library.
(** [Image.new] checks the size it is given before it builds the
    image.  The check of a negative side is written out.  What else
    Pillow refuses (a side that is no C [int], a row too long, a
    size it gets no storage for) is taken as given:
    [new_error mode size] is the exception [Image.new] raises for a
    size without a negative side, if it raises one. *)
Variable new_error : string -> Z * Z -> option exn.

(** [Image.new(mode, size, color)] for a size the caller chooses. *)
Definition Image_new_checked (m : string) (sz : Z * Z) (color : rgba)
  : result Image :=
  if (fst sz <? 0) || (snd sz <? 0) then
    raise ValueError "Width and height must be >= 0"
  else
    match new_error m sz with
    | Some e => Raise e
    | None => Ok (Image_new m sz color)
    end.

(** [_create_base_image]: the new RGB image with every row [y] of
    [range(height)] drawn in the colour of that row (the line from
    [(0, y)] to [(width, y)] covers the whole row). *)
Definition _create_base_image (width height : Z) : result Image :=
  base <-
    Image_new_checked "RGB" (width, height) (Pixel 240 240 245 255) ;;
  rows <- gradient_rows (Z.to_nat height) 0 height ;;
  Ok {| mode := mode base;
        PIL.width := PIL.width base; PIL.height := PIL.height base;
        getpixel := fun x y =>
          if (0 <=? y) && (y <? height)
          then nth (Z.to_nat y) rows (getpixel base x y)
          else getpixel base x y |}.

End Library.

(** A stand-in for the size check, for running the function on a
    sample: every size of at most 4096 by 4096 is taken. *)
Definition small_sizes_only (m : string) (sz : Z * Z) : option exn :=
  if (fst sz <=? 4096) && (snd sz <=? 4096) then None
  else Some (Exn OtherException (lit "image size not taken")).

End BaseImage.

(** ** [app.py]: the generation loop and the packaging that follows *)

Module App.
Import PyStr PyFloat PIL ImageEdit ImageGen.

(** One element of [composites]. *)
Record composite_data := {
  image : Image;
  caption : pystr;
  variation_num : Z
}.

(** A member of the ZIP archive. *)
Inductive zip_member :=
| png_member (name : pystr) (content : Image)
| text_member (name : pystr) (content : pystr).

(** What the script does that can be seen from outside, in order: the
    Streamlit calls, the calls of [generate_background], the pauses and
    the archive it writes. *)
Inductive event :=
| progress (percent : Z)
| status_text (msg : pystr)
| st_error (msg : pystr)
| st_warning (msg : pystr)
| st_success (msg : pystr)
| st_header (msg : pystr)
| st_image (shown : composite_data)
| background_requested (n : Z) (prompt : pystr)
| sleep_half_second
| zip_written (members : list zip_member)
| download_button (label : pystr).

(** The loop's variables and the events so far. *)
Record session := {
  composites : list composite_data;
  failed_generations : list Z;
  trace : list event
}.

(** [st.stop()] raises Streamlit's [StopException], which is not an
    [Exception] and so passes the [except Exception] handlers: the
    script ends. *)
Inductive control := Continue | Stop.

Definition show (s : session) (es : list event) : session :=
  {| composites := composites s;
     failed_generations := failed_generations s;
     trace := trace s ++ es |}.

Definition record_failure (s : session) (n : Z) : session :=
  {| composites := composites s;
     failed_generations := failed_generations s ++ [n];
     trace := trace s |}.

Definition record_composite (s : session) (c : composite_data) : session :=
  {| composites := composites s ++ [c];
     failed_generations := failed_generations s;
     trace := trace s |}.

Definition cross_mark : pystr := [10060%N; 32%N].
Definition warning_sign : pystr := [9888%N; 65039%N; 32%N].
Definition check_mark : pystr := [9989%N; 32%N].
Definition palette : pystr := [127912%N; 32%N].
Definition package : pystr := [128230%N; 32%N].
Definition inbox : pystr := [128229%N; 32%N].
Definition camera : pystr := [128248%N; 32%N].

(** Line 166: the test for a credits error. *)
Definition is_credits_error (error_message : pystr) : bool :=
  contains (lit "credits") (lower error_message)
  || contains (lit "not accessible") (lower error_message).

(** A result of [generate_background] that is a failure whose message
    reports exhausted credits: no image, a non-empty message, and the
    test of line 166 holds. *)
Definition credits_failure (r : option Image * option pystr) : bool :=
  match r with
  | (None, Some msg) => truthy msg && is_credits_error msg
  | _ => false
  end.

Definition is_zip (e : event) : bool :=
  match e with
  | zip_written _ => true
  | _ => false
  end.

(** The variations for which a background was requested, in order. *)
Fixpoint requested (t : list event) : list Z :=
  match t with
  | [] => []
  | background_requested n _ :: t' => n :: requested t'
  | _ :: t' => requested t'
  end.

(** What one round of the loop does to the session, by the way it
    ends: it aborts the run after an error message, it skips the
    variation after a warning, or it stores a composite.  [es] are the
    events before the closing message; none of them writes an archive,
    and the only background they can request is the round's own. *)
Inductive round_result (i : Z) (s s' : session) : control -> Prop :=
| round_aborted msg es :
    composites s' = composites s ->
    failed_generations s' = failed_generations s ++ [i + 1] ->
    trace s' = trace s ++ es ++ [st_error (cross_mark ++ msg)] ->
    existsb is_zip es = false ->
    requested es = [i + 1] ->
    round_result i s s' Stop
| round_skipped msg es :
    composites s' = composites s ->
    failed_generations s' = failed_generations s ++ [i + 1] ->
    trace s' = trace s ++ es ++ [st_warning (warning_sign ++ msg)] ->
    existsb is_zip es = false ->
    (forall n, In n (requested es) -> n = i + 1) ->
    round_result i s s' Continue
| round_succeeded c es :
    composites s' = composites s ++ [c] ->
    variation_num c = i + 1 ->
    failed_generations s' = failed_generations s ->
    trace s' = trace s ++ es ->
    existsb is_zip es = false ->
    (forall n, In n (requested es) -> n = i + 1) ->
    round_result i s s' Continue.

(** Line 155: [40 + int((i / len(prompts)) * 50)]. *)
Definition progress_percent (i total : Z) : result Z :=
  q <- int_truediv i total ;;
  fifty <- of_int 50 ;;
  p <- int_of_float (fmul q fifty) ;;
  Ok (40 + p).

(** Line 181: [captions[i] if i < len(captions) else captions[-1]]. *)
Definition pick_caption (captions : list pystr) (i : Z) : result pystr :=
  if i <? len captions then
    match nth_error captions (Z.to_nat i) with
    | Some c => Ok c
    | None => raise IndexError "list index out of range"
    end
  else
    match rev captions with
    | c :: _ => Ok c
    | [] => raise IndexError "list index out of range"
    end.

(** The archives written, in order. *)
Fixpoint archives (t : list event) : list (list zip_member) :=
  match t with
  | [] => []
  | zip_written members :: t' => members :: archives t'
  | _ :: t' => archives t'
  end.

Definition member_name (m : zip_member) : pystr :=
  match m with
  | png_member name _ => name
  | text_member name _ => name
  end.

(** [repr] of a list of integers. *)
Definition list_repr (l : list Z) : pystr :=
  lit "[" ++ join (lit ", ") (List.map str_of_int l) ++ lit "]".

Section Script.
Variable STABILITY_API_KEY : option pystr.
(** The image service at the [n]-th call of the run. *)
Variable post : Z -> pystr -> Z -> Z -> http_outcome.
Variable open_image : json -> result Image.
Variable json_repr : json -> pystr.
Variable convert_buffer : Image -> string -> result (Z -> Z -> rgba).
Variable lanczos : Image -> Z -> Z -> result (Z -> Z -> rgba).
Variable paste_other : Image -> Image -> Z * Z -> result Image.
(** The uploaded images, after lines 116-123. *)
Variable product_image logo_image : Image.

(** Lines 188-191: the handler of the loop's [try]. *)
Definition on_exception (s : session) (i : Z) (e : exn)
  : session * control :=
  let s :=
    show s [st_warning (warning_sign ++ lit "Error generating variation "
                        ++ str_of_int (i + 1) ++ lit ": " ++ exn_str e)] in
  (record_failure s (i + 1), Continue).

(** Lines 153-191: one round of the loop. *)
Definition variation (i total : Z) (prompt : pystr)
    (captions : list pystr) (s : session) : session * control :=
  match progress_percent i total with
  | Raise e => on_exception s i e
  | Ok percent =>
      let s :=
        show s [progress percent;
                status_text (palette ++ lit "Generating variation "
                             ++ str_of_int (i + 1) ++ lit "/"
                             ++ str_of_int total ++ lit "...");
                background_requested (i + 1) prompt] in
      let '(background, error_message) :=
        generate_background STABILITY_API_KEY (post i) open_image
          json_repr prompt 1024 1024 in
      match background with
      | None =>
          let s := record_failure s (i + 1) in
          match error_message with
          | Some msg =>
              if truthy msg then
                if is_credits_error msg then
                  (show s [st_error (cross_mark ++ msg)], Stop)
                else
                  (show s [st_warning (warning_sign ++ lit "Variation "
                                       ++ str_of_int (i + 1) ++ lit ": "
                                       ++ msg)],
                   Continue)
              else
                (show s [st_warning
                           (warning_sign
                            ++ lit "Failed to generate background for variation "
                            ++ str_of_int (i + 1) ++ lit ". Skipping...")],
                 Continue)
          | None =>
              (show s [st_warning
                         (warning_sign
                          ++ lit "Failed to generate background for variation "
                          ++ str_of_int (i + 1) ++ lit ". Skipping...")],
               Continue)
          end
      | Some background =>
          match create_composite convert_buffer lanczos paste_other
                  background product_image logo_image
                  default_product_size_ratio default_logo_size_ratio
          with
          | Raise e => on_exception s i e
          | Ok composite =>
              match pick_caption captions i with
              | Raise e => on_exception s i e
              | Ok c =>
                  let s :=
                    record_composite s
                      {| image := composite; caption := c;
                         variation_num := i + 1 |} in
                  (show s [sleep_half_second], Continue)
              end
          end
      end
  end.

(** Line 152: [for i, prompt in enumerate(prompts)], from index [i]. *)
Fixpoint variations (i total : Z) (prompts captions : list pystr)
    (s : session) : session * control :=
  match prompts with
  | [] => (s, Continue)
  | prompt :: rest =>
      match variation i total prompt captions s with
      | (s, Stop) => (s, Stop)
      | (s, Continue) => variations (i + 1) total rest captions s
      end
  end.

Definition archive (cs : list composite_data) : list zip_member :=
  List.map (fun c =>
              png_member (lit "ad_variation_"
                          ++ str_of_int (variation_num c) ++ lit ".png")
                         (image c)) cs
  ++ [text_member (lit "captions.txt")
        (join [newline; newline]
           (List.map (fun c =>
                        lit "Variation " ++ str_of_int (variation_num c)
                        ++ lit ":" ++ [newline] ++ caption c) cs))].

(** Lines 200-253: the results are shown and packaged. *)
Definition present_and_package (s : session) : session :=
  let s :=
    show s [st_success
              (check_mark ++ lit "Successfully generated "
               ++ str_of_int (len (composites s))
               ++ lit " ad variations!")] in
  let s :=
    match failed_generations s with
    | [] => s
    | _ :: _ =>
        show s [st_warning
                  (warning_sign ++ lit "Note: "
                   ++ str_of_int (len (failed_generations s))
                   ++ lit " variation(s) failed to generate: "
                   ++ list_repr (failed_generations s))]
    end in
  let s :=
    show s (st_header (camera ++ lit "Generated Ad Variations")
            :: List.map st_image (composites s)) in
  show s [status_text (package ++ lit "Packaging files for download...");
          zip_written (archive (composites s));
          download_button
            (inbox ++ lit "Download All Variations ("
             ++ str_of_int (len (composites s))
             ++ lit " images + captions)")].

(** Lines 193-253: after the loop. *)
Definition conclude (s : session) : session * control :=
  let s :=
    show s [progress 100;
            status_text (check_mark ++ lit "Generation complete!")] in
  match composites s with
  | [] =>
      (show s [st_error
                 (cross_mark
                  ++ lit "Failed to generate any variations. Please check your API keys and try again.")],
       Stop)
  | _ :: _ => (present_and_package s, Continue)
  end.

(** Lines 145-256, for prompts and captions that passed the checks of
    lines 131 and 141: the loop, the check that something was
    generated, the display and the archive.  (Writing the archive is
    taken to succeed.) *)
Definition generate_campaign (prompts captions : list pystr)
  : session * control :=
  let s :=
    {| composites := []; failed_generations := [];
       trace := [status_text
                   (palette
                    ++ lit "Generating backgrounds and creating composites...");
                 progress 40] |} in
  match variations 0 (len prompts) prompts captions s with
  | (s, Stop) => (s, Stop)
  | (s, Continue) => conclude s
  end.

End Script.

(** Sample surroundings: a key, a service that answers every request
    with status 402, and a prompt list. *)
Definition sample_key : option pystr := Some (lit "sk-test").

Definition out_of_credits (n : Z) (prompt : pystr) (w h : Z)
  : http_outcome :=
  Answered {| status_code := 402; text := [];
              body_json := raise ValueError "no body" |}.

Definition no_image (v : json) : result Image :=
  raise OtherException "cannot identify image file".

Definition no_repr (v : json) : pystr := [].

(** A service that answers every request with one artifact, one that
    is always rate-limited, and a decoder that yields the sample
    background. *)
Definition one_artifact (n : Z) (prompt : pystr) (w h : Z)
  : http_outcome :=
  Answered
    {| status_code := 200; text := [];
       body_json :=
         Ok (JObject
               [(lit "artifacts",
                 JArray [JObject [(lit "base64", JString (lit "iVBORw0KGgo="));
                                  (lit "finishReason", JString (lit "SUCCESS"))]])]) |}.

Definition rate_limited (n : Z) (prompt : pystr) (w h : Z)
  : http_outcome :=
  Answered {| status_code := 429; text := [];
              body_json := raise ValueError "no body" |}.

Definition open_sample (v : json) : result Image :=
  Ok Layout.background_1024.

Definition three_prompts : list pystr :=
  [lit "A minimalist white studio"; lit "A vibrant urban street";
   lit "A luxurious spa setting"].

Definition one_caption : list pystr := [lit "Discover the difference."].

Definition empty_session : session :=
  {| composites := []; failed_generations := []; trace := [] |}.

End App.

(** * Properties *)

(** ** Rounding of binary64 products *)

Section Rounding.
Import PyFloat.

(** [2 ^ (d - 1) <= p < 2 ^ d] for [d] the number of binary digits. *)
Lemma digits2_pos_bounds (p : positive) :
  2 ^ (Z.pos (digits2_pos p) - 1) <= Z.pos p < 2 ^ Z.pos (digits2_pos p).
Proof.
  induction p as [p IH | p IH |]; cbn [digits2_pos].
  - rewrite Pos2Z.inj_succ. change (Z.pos p~1) with (2 * Z.pos p + 1).
    replace (Z.succ (Z.pos (digits2_pos p)) - 1)
      with (Z.succ (Z.pos (digits2_pos p) - 1)) by lia.
    rewrite !Z.pow_succ_r by lia. lia.
  - rewrite Pos2Z.inj_succ. change (Z.pos p~0) with (2 * Z.pos p).
    replace (Z.succ (Z.pos (digits2_pos p)) - 1)
      with (Z.succ (Z.pos (digits2_pos p) - 1)) by lia.
    rewrite !Z.pow_succ_r by lia. lia.
  - cbn. lia.
Qed.

Lemma digits2_pos_le (p : positive) (d : Z) :
  Z.pos p < 2 ^ d -> Z.pos (digits2_pos p) <= d.
Proof.
  intros Hlt.
  destruct (Z_le_gt_dec (Z.pos (digits2_pos p)) d) as [|Hgt]; [assumption|].
  pose proof (digits2_pos_bounds p) as [Hlo _].
  assert (2 ^ d <= 2 ^ (Z.pos (digits2_pos p) - 1)).
  { destruct (Z_lt_le_dec d 0).
    - rewrite (Z.pow_neg_r 2 d) by lia. apply Z.pow_nonneg. lia.
    - apply Z.pow_le_mono_r; lia. }
  lia.
Qed.

Lemma digits2_pos_ge (p : positive) (d : Z) :
  2 ^ (d - 1) <= Z.pos p -> d <= Z.pos (digits2_pos p).
Proof.
  intros Hle.
  destruct (Z_le_gt_dec d (Z.pos (digits2_pos p))) as [|Hgt]; [assumption|].
  pose proof (digits2_pos_bounds p) as [_ Hhi].
  assert (2 ^ Z.pos (digits2_pos p) <= 2 ^ (d - 1))
    by (apply Z.pow_le_mono_r; lia).
  lia.
Qed.

Lemma pow2_le (a b : Z) : 0 <= a <= b -> 2 ^ a <= 2 ^ b.
Proof. intros. apply Z.pow_le_mono_r; lia. Qed.

(** One step of the right shift halves the mantissa. *)
Lemma shr_1_m (mrs : shr_record) :
  0 <= shr_m mrs -> shr_m (shr_1 mrs) = shr_m mrs / 2.
Proof.
  destruct mrs as [m r s]. cbn [shr_m].
  destruct m as [|p|p]; intros Hm; [reflexivity| |lia].
  destruct p as [p|p|]; cbn [shr_1 shr_m].
  - change (Z.pos p~1) with (2 * Z.pos p + 1).
    apply Z.div_unique with 1; lia.
  - change (Z.pos p~0) with (2 * Z.pos p).
    apply Z.div_unique with 0; lia.
  - reflexivity.
Qed.

Lemma iter_pos_shr_m (p : positive) :
  forall mrs, 0 <= shr_m mrs ->
    shr_m (iter_pos shr_1 p mrs) = shr_m mrs / 2 ^ Z.pos p.
Proof.
  induction p as [p IH | p IH |]; intros mrs Hm; cbn [iter_pos].
  - assert (H1 : 0 <= shr_m (shr_1 mrs))
      by (rewrite shr_1_m by assumption; apply Z.div_pos; lia).
    assert (H2 : 0 <= shr_m (iter_pos shr_1 p (shr_1 mrs)))
      by (rewrite IH by assumption; apply Z.div_pos;
          [assumption | apply Z.pow_pos_nonneg; lia]).
    rewrite IH, IH, shr_1_m by assumption.
    assert (Hp : 0 < 2 ^ Z.pos p) by (apply Z.pow_pos_nonneg; lia).
    rewrite !Z.div_div by lia.
    f_equal. change (Z.pos p~1) with (2 * Z.pos p + 1).
    replace (2 * Z.pos p + 1) with (Z.pos p + Z.pos p + 1) by lia.
    rewrite !Z.pow_add_r by lia. change (2 ^ 1) with 2. lia.
  - assert (H2 : 0 <= shr_m (iter_pos shr_1 p mrs))
      by (rewrite IH by assumption; apply Z.div_pos;
          [assumption | apply Z.pow_pos_nonneg; lia]).
    rewrite IH, IH by assumption.
    assert (Hp : 0 < 2 ^ Z.pos p) by (apply Z.pow_pos_nonneg; lia).
    rewrite !Z.div_div by lia.
    f_equal. change (Z.pos p~0) with (2 * Z.pos p).
    replace (2 * Z.pos p) with (Z.pos p + Z.pos p) by lia.
    rewrite Z.pow_add_r by lia. reflexivity.
  - rewrite shr_1_m by assumption. reflexivity.
Qed.

(** The mantissa and exponent after [shr]. *)
Lemma shr_record_of_loc_m (m : Z) (l : location) :
  shr_m (shr_record_of_loc m l) = m.
Proof. destruct l as [|[| |]]; reflexivity. Qed.

Lemma shr_spec (m e n : Z) (l : location) :
  0 <= m ->
  let '(mrs, e') := shr (shr_record_of_loc m l) e n in
  shr_m mrs = m / 2 ^ Z.max 0 n /\ e' = e + Z.max 0 n.
Proof.
  intros Hm. unfold shr. destruct n as [|p|p].
  - rewrite shr_record_of_loc_m. cbn. rewrite Z.div_1_r. lia.
  - rewrite iter_pos_shr_m by (rewrite shr_record_of_loc_m; lia).
    rewrite shr_record_of_loc_m.
    rewrite Z.max_r by lia. split; reflexivity.
  - rewrite shr_record_of_loc_m. rewrite Z.max_l by lia.
    cbn. rewrite Z.div_1_r. lia.
Qed.

Lemma round_nearest_even_bounds (m : Z) (l : location) :
  m <= round_nearest_even m l <= m + 1.
Proof.
  unfold round_nearest_even.
  destruct l as [|[| |]]; try destruct (Z.even m); lia.
Qed.

Lemma Zdigits2_le (m d : Z) : 0 <= m < 2 ^ d -> 0 <= d -> Zdigits2 m <= d.
Proof.
  destruct m as [|p|p]; cbn [Zdigits2]; intros [Hlo Hhi] Hd; [lia| |lia].
  apply digits2_pos_le. assumption.
Qed.

(** A mantissa that needs no shift is kept as it is. *)
Lemma binary_round_aux_exact (s : bool) (mx : positive) (ex : Z) :
  fexp prec emax (Z.pos (digits2_pos mx) + ex) <= ex ->
  ex <= emax - prec ->
  binary_round_aux prec emax s (Z.pos mx) ex loc_Exact
  = S754_finite s mx ex.
Proof.
  intros Hfexp Hex.
  unfold binary_round_aux, shr_fexp. cbn [Zdigits2].
  assert (Hshr : forall mrs,
             shr mrs ex (fexp prec emax (Z.pos (digits2_pos mx) + ex) - ex)
             = (mrs, ex)).
  { intros mrs. unfold shr.
    destruct (fexp prec emax (Z.pos (digits2_pos mx) + ex) - ex)
      eqn:E; try reflexivity. lia. }
  rewrite Hshr. cbn [shr_record_of_loc shr_m loc_of_shr_record
                       round_nearest_even Zdigits2].
  rewrite Hshr. cbn [shr_record_of_loc shr_m].
  destruct (Z.leb_spec ex (emax - prec)); [reflexivity | lia].
Qed.

(** What rounding a positive mantissa can return: never NaN, the sign
    is kept, and the value is at most the mantissa truncated to the
    target precision plus one unit in the last place. *)
Lemma binary_round_aux_upper (s : bool) (mx : positive) (ex : Z)
    (l : location) :
  let n := Z.max 0 (fexp prec emax (Zdigits2 (Z.pos mx) + ex) - ex) in
  let e1 := ex + n in
  exists m2 : Z,
    0 <= m2 <= Z.pos mx / 2 ^ n + 1 /\
    let n2 := Z.max 0 (fexp prec emax (Zdigits2 m2 + e1) - e1) in
    match binary_round_aux prec emax s (Z.pos mx) ex l with
    | S754_zero s' => s' = s
    | S754_finite s' m e =>
        s' = s /\ e = e1 + n2 /\ Z.pos m = m2 / 2 ^ n2
    | S754_infinity s' => s' = s /\ emax - prec < e1 + n2
    | S754_nan => False
    end.
Proof.
  intros n e1. unfold binary_round_aux, shr_fexp.
  pose proof (shr_spec (Z.pos mx) ex
                (fexp prec emax (Zdigits2 (Z.pos mx) + ex) - ex) l) as H1.
  destruct (shr (shr_record_of_loc (Z.pos mx) l) ex
              (fexp prec emax (Zdigits2 (Z.pos mx) + ex) - ex))
    as [mrs' e'].
  destruct H1 as [Hm' He']; [lia|]. fold n in Hm', He'.
  assert (Hq : 0 <= Z.pos mx / 2 ^ n)
    by (apply Z.div_pos; [lia | apply Z.pow_pos_nonneg; lia]).
  set (m2 := round_nearest_even (shr_m mrs') (loc_of_shr_record mrs')).
  pose proof (round_nearest_even_bounds (shr_m mrs')
                (loc_of_shr_record mrs')) as Hr. fold m2 in Hr.
  exists m2. split; [lia|].
  replace e' with e1 by (unfold e1; lia).
  pose proof (shr_spec m2 e1
                (fexp prec emax (Zdigits2 m2 + e1) - e1) loc_Exact) as H2.
  destruct (shr (shr_record_of_loc m2 loc_Exact) e1
              (fexp prec emax (Zdigits2 m2 + e1) - e1)) as [mrs'' e''].
  destruct H2 as [Hm'' He'']; [lia|].
  cbv zeta.
  assert (Hq2 : 0 <= m2 / 2 ^ Z.max 0 (fexp prec emax (Zdigits2 m2 + e1) - e1))
    by (apply Z.div_pos; [lia | apply Z.pow_pos_nonneg; lia]).
  destruct (shr_m mrs'') as [|m|m] eqn:Em.
  - reflexivity.
  - destruct (Z.leb_spec e'' (emax - prec)).
    + repeat split; [lia | congruence].
    + split; [reflexivity | lia].
  - lia.
Qed.

(** Rounding a positive mantissa whose magnitude is in range gives a
    signed zero or a finite number of that sign, with a mantissa of at
    most 54 bits and an exponent at most one above the target. *)
Lemma binary_round_aux_finite (s : bool) (mx : positive) (ex : Z)
    (l : location) :
  Z.pos (digits2_pos mx) + ex <= 1000 -> ex <= 900 ->
  match binary_round_aux prec emax s (Z.pos mx) ex l with
  | S754_zero s' => s' = s
  | S754_finite s' m e =>
      s' = s /\ Z.pos m <= 2 ^ 53 /\
      e <= Z.max ex (fexp prec emax (Z.pos (digits2_pos mx) + ex)) + 1
  | _ => False
  end.
Proof.
  intros HD Hex.
  destruct (binary_round_aux_upper s mx ex l) as (m2 & Hm2 & Hres).
  cbv zeta in Hres. cbn [Zdigits2] in Hm2, Hres.
  pose proof (digits2_pos_bounds mx) as [_ HDhi].
  set (D := Z.pos (digits2_pos mx)) in *.
  set (n := Z.max 0 (fexp prec emax (D + ex) - ex)) in *.
  assert (HDpos : 0 < D) by (unfold D; lia).
  assert (Hn : 0 <= n /\ D - 53 <= n)
    by (unfold n, fexp, SpecFloat.emin, prec, emax; lia).
  assert (Hpn : 0 < 2 ^ n) by (apply Z.pow_pos_nonneg; lia).
  assert (Hq : Z.pos mx / 2 ^ n < 2 ^ 53).
  { apply Z.div_lt_upper_bound; [assumption|].
    rewrite <- Z.pow_add_r by lia.
    apply Z.lt_le_trans with (2 ^ D); [assumption|].
    apply pow2_le. lia. }
  assert (Hd2 : 0 <= Zdigits2 m2 <= 54).
  { split; [destruct m2; cbn; lia|].
    apply Zdigits2_le; [|lia]. change (2 ^ 54) with (2 * 2 ^ 53). lia. }
  set (e1 := ex + n) in *.
  assert (He1 : e1 = Z.max ex (fexp prec emax (D + ex)))
    by (unfold e1, n; lia).
  assert (He1min : SpecFloat.emin prec emax <= e1)
    by (rewrite He1; unfold fexp; lia).
  assert (Hn2 : 0 <= Z.max 0 (fexp prec emax (Zdigits2 m2 + e1) - e1) <= 1)
    by (unfold fexp, SpecFloat.emin, prec, emax in *; lia).
  set (n2 := Z.max 0 (fexp prec emax (Zdigits2 m2 + e1) - e1)) in *.
  destruct (binary_round_aux prec emax s (Z.pos mx) ex l)
    as [s' | s' | | s' m e].
  - assumption.
  - destruct Hres as [_ Hinf].
    unfold fexp, SpecFloat.emin, prec, emax in *. lia.
  - assumption.
  - destruct Hres as (Hs & He & Hm). split; [assumption|]. split.
    + rewrite Hm.
      assert (0 < 2 ^ n2) by (apply Z.pow_pos_nonneg; lia).
      assert (m2 / 2 ^ n2 <= m2).
      { apply Z.div_le_upper_bound; [assumption|]. nia. }
      lia.
    + lia.
Qed.

Lemma iter_xO_pow (d p : positive) :
  Z.pos (Pos.iter xO p d) = Z.pos p * 2 ^ Z.pos d.
Proof.
  induction d as [|d IH] using Pos.peano_ind.
  - cbn. lia.
  - rewrite Pos.iter_succ, Pos2Z.inj_succ, Z.pow_succ_r by lia.
    change (Z.pos (Pos.iter xO p d)~0) with (2 * Z.pos (Pos.iter xO p d)).
    rewrite IH. lia.
Qed.

(** [float(W)] is exact below [2 ^ 53], with a full 53-bit mantissa. *)
Lemma of_int_exact (W : Z) :
  0 < W < 2 ^ 53 ->
  exists m e,
    of_int W = Ok (S754_finite false m e) /\
    e <= 0 /\ Z.pos m = W * 2 ^ (- e) /\ 2 ^ 52 <= Z.pos m < 2 ^ 53.
Proof.
  intros [Hlo Hhi]. destruct W as [|p|p]; try lia.
  pose proof (digits2_pos_bounds p) as [Hdlo Hdhi].
  assert (Hd : Z.pos (digits2_pos p) <= 53) by (apply digits2_pos_le; lia).
  unfold of_int, binary_normalize, binary_round.
  assert (Hf : fexp prec emax (Z.pos (digits2_pos p) + 0)
               = Z.pos (digits2_pos p) - 53)
    by (unfold fexp, SpecFloat.emin, prec, emax; lia).
  rewrite Hf. unfold shl_align.
  destruct (Z.pos (digits2_pos p) - 53 - 0) as [|d|d] eqn:Ed; try lia.
  - assert (Hd53 : Z.pos (digits2_pos p) = 53) by lia.
    rewrite binary_round_aux_exact.
    + exists p, 0. rewrite Hd53 in Hdlo.
      repeat split; lia.
    + unfold fexp, SpecFloat.emin, prec, emax; lia.
    + unfold prec, emax; lia.
  - assert (Hdd : Z.pos d = 53 - Z.pos (digits2_pos p)) by lia.
    assert (Hmz : Z.pos (Pos.iter xO p d) = Z.pos p * 2 ^ Z.pos d)
      by apply iter_xO_pow.
    assert (Hb : 2 ^ 52 <= Z.pos (Pos.iter xO p d) < 2 ^ 53).
    { rewrite Hmz.
      assert (E52 : 2 ^ 52 = 2 ^ (Z.pos (digits2_pos p) - 1) * 2 ^ Z.pos d)
        by (rewrite <- Z.pow_add_r by lia; f_equal; lia).
      assert (E53 : 2 ^ 53 = 2 ^ Z.pos (digits2_pos p) * 2 ^ Z.pos d)
        by (rewrite <- Z.pow_add_r by lia; f_equal; lia).
      assert (0 < 2 ^ Z.pos d) by (apply Z.pow_pos_nonneg; lia).
      rewrite E52, E53. split.
      - apply Z.mul_le_mono_nonneg_r; lia.
      - apply Z.mul_lt_mono_pos_r; lia. }
    assert (Hdig : Z.pos (digits2_pos (Pos.iter xO p d)) = 53).
    { apply Z.le_antisymm.
      - apply digits2_pos_le. lia.
      - apply digits2_pos_ge. lia. }
    rewrite binary_round_aux_exact.
    + exists (Pos.iter xO p d), (Z.pos (digits2_pos p) - 53).
      repeat split; try lia.
      rewrite Hmz. f_equal. f_equal. lia.
    + rewrite Hdig. unfold fexp, SpecFloat.emin, prec, emax; lia.
    + unfold prec, emax; lia.
Qed.

Lemma Z_le_float_finite (k : Z) (m : positive) (e : Z) :
  Z_le_float k (S754_finite false m e) ->
  if 0 <=? e then k <= Z.pos m * 2 ^ e else k * 2 ^ (- e) <= Z.pos m.
Proof.
  unfold Z_le_float, compare_int_float.
  destruct (0 <=? e).
  - destruct (Z.compare_spec k (Z.pos m * 2 ^ e));
      intros [H' | H']; try discriminate H'; lia.
  - destruct (Z.compare_spec (k * 2 ^ (- e)) (Z.pos m));
      intros [H' | H']; try discriminate H'; lia.
Qed.

(** An integer below a rounded value is below the unrounded mantissa
    the value was shifted from. *)
Lemma Z_le_float_unshift (k : Z) (m : positive) (e e1 n2 m2 : Z) :
  Z_le_float k (S754_finite false m e) ->
  e = e1 + n2 -> 0 <= n2 -> e1 <= 0 -> 0 <= m2 ->
  Z.pos m = m2 / 2 ^ n2 ->
  k * 2 ^ (- e1) <= m2.
Proof.
  intros Hle He Hn2 He1 Hm2 Hm.
  apply Z_le_float_finite in Hle.
  assert (Hp2 : 0 < 2 ^ n2) by (apply Z.pow_pos_nonneg; lia).
  assert (Hmul : Z.pos m * 2 ^ n2 <= m2).
  { rewrite Hm, Z.mul_comm. apply Z.mul_div_le. assumption. }
  destruct (Z.leb_spec 0 e) as [Hpos | Hneg].
  - assert (Hsplit : 2 ^ n2 = 2 ^ e * 2 ^ (- e1))
      by (rewrite <- Z.pow_add_r by lia; f_equal; lia).
    assert (0 < 2 ^ (- e1)) by (apply Z.pow_pos_nonneg; lia).
    assert (k * 2 ^ (- e1) <= Z.pos m * 2 ^ e * 2 ^ (- e1))
      by (apply Z.mul_le_mono_nonneg_r; lia).
    rewrite Hsplit in Hmul. lia.
  - assert (Hsplit : 2 ^ (- e1) = 2 ^ (- e) * 2 ^ n2)
      by (rewrite <- Z.pow_add_r by lia; f_equal; lia).
    rewrite Hsplit.
    assert (k * 2 ^ (- e) * 2 ^ n2 <= Z.pos m * 2 ^ n2)
      by (apply Z.mul_le_mono_nonneg_r; lia).
    lia.
Qed.

(** [W * c] for a small positive integer [W] and a positive double [c]
    with a full mantissa: the double product is a finite, non-negative
    number, and it exceeds the exact product by less than
    [2 ^ 31 * 2 ^ ec]. *)
Lemma int_mul_float_upper (W : Z) (mc : positive) (ec : Z) :
  0 < W < 2 ^ 31 ->
  2 ^ 52 <= Z.pos mc < 2 ^ 53 ->
  -1000 <= ec <= -31 ->
  exists lim,
    int_mul_float W (S754_finite false mc ec) = Ok lim /\
    nonneg_finite lim /\
    forall k, Z_le_float k lim ->
              k * 2 ^ (- ec) <= W * Z.pos mc + 2 ^ 31.
Proof.
  intros HW Hmc Hec.
  destruct (of_int_exact W) as (m & e & Hof & He & Hm & Hmb); [lia|].
  unfold int_mul_float. rewrite Hof. cbn [bind].
  unfold fmul, SFmul. cbn [xorb].
  (* the exponent of [float(W)] *)
  assert (Hpe : 0 < 2 ^ (- e)) by (apply Z.pow_pos_nonneg; lia).
  assert (He22 : 22 <= - e).
  { destruct (Z_lt_le_dec (- e) 22) as [Hlt|]; [|assumption].
    assert (2 ^ (- e) <= 2 ^ 21) by (apply pow2_le; lia).
    assert (W * 2 ^ (- e) < 2 ^ 31 * 2 ^ 21) by nia.
    change (2 ^ 31 * 2 ^ 21) with (2 ^ 52) in *. lia. }
  assert (He52 : - e <= 52).
  { destruct (Z_lt_le_dec 52 (- e)) as [Hlt|]; [|lia].
    assert (2 ^ 53 <= 2 ^ (- e)) by (apply pow2_le; lia).
    nia. }
  (* the product of the mantissas *)
  set (P := (m * mc)%positive).
  assert (HP : Z.pos P = Z.pos m * Z.pos mc) by reflexivity.
  assert (HPb : 2 ^ 104 <= Z.pos P < 2 ^ 106).
  { change (2 ^ 104) with (2 ^ 52 * 2 ^ 52).
    change (2 ^ 106) with (2 ^ 53 * 2 ^ 53). rewrite HP. split.
    - apply Z.mul_le_mono_nonneg; lia.
    - apply Z.mul_lt_mono_nonneg; lia. }
  pose proof (digits2_pos_bounds P) as [HDlo HDhi].
  assert (HD : 105 <= Z.pos (digits2_pos P) <= 106).
  { split; [apply digits2_pos_ge | apply digits2_pos_le]; lia. }
  destruct (binary_round_aux_upper false P (e + ec) loc_Exact)
    as (m2 & Hm2 & Hres).
  cbv zeta in Hres. cbn [Zdigits2] in Hm2, Hres.
  set (D := Z.pos (digits2_pos P)) in *.
  assert (Hn : Z.max 0 (fexp prec emax (D + (e + ec)) - (e + ec)) = D - 53)
    by (unfold fexp, SpecFloat.emin, prec, emax; lia).
  rewrite Hn in Hm2, Hres.
  set (n := D - 53) in *.
  set (e1 := e + ec + n) in *.
  assert (He1 : e1 <= 0) by (unfold e1, n; lia).
  assert (Hpn : 0 < 2 ^ n) by (apply Z.pow_pos_nonneg; unfold n; lia).
  assert (Hq : Z.pos P / 2 ^ n < 2 ^ 53).
  { apply Z.div_lt_upper_bound; [assumption|].
    replace (2 ^ n * 2 ^ 53) with (2 ^ D); [assumption|].
    rewrite <- Z.pow_add_r by (unfold n; lia). f_equal. unfold n. lia. }
  assert (Hd2 : Zdigits2 m2 <= 54).
  { apply Zdigits2_le; [|lia].
    change (2 ^ 54) with (2 * 2 ^ 53). lia. }
  assert (Hd2' : 0 <= Zdigits2 m2)
    by (destruct m2; cbn; lia).
  assert (Hn2 : 0 <= Z.max 0 (fexp prec emax (Zdigits2 m2 + e1) - e1) <= 1)
    by (unfold fexp, SpecFloat.emin, prec, emax, e1, n; lia).
  set (n2 := Z.max 0 (fexp prec emax (Zdigits2 m2 + e1) - e1)) in *.
  (* what an integer below the unrounded mantissa satisfies *)
  assert (Hkey : forall k, k * 2 ^ (- e1) <= m2 ->
                           k * 2 ^ (- ec) <= W * Z.pos mc + 2 ^ 31).
  { intros k Hk.
    assert (Hdiv : Z.pos P / 2 ^ n * 2 ^ n <= Z.pos P)
      by (rewrite Z.mul_comm; apply Z.mul_div_le; assumption).
    assert (H1 : k * 2 ^ (- e1) * 2 ^ n <= Z.pos P + 2 ^ n).
    { assert (k * 2 ^ (- e1) * 2 ^ n <= (Z.pos P / 2 ^ n + 1) * 2 ^ n)
        by (apply Z.mul_le_mono_nonneg_r; lia).
      lia. }
    assert (Hs : 2 ^ (- e1) * 2 ^ n = 2 ^ (- ec) * 2 ^ (- e)).
    { rewrite <- !Z.pow_add_r by (unfold e1, n; lia).
      f_equal. unfold e1. lia. }
    assert (Hn53 : 2 ^ n <= 2 ^ 31 * 2 ^ (- e)).
    { rewrite <- Z.pow_add_r by lia. apply pow2_le. unfold n. lia. }
    assert (H2 : k * 2 ^ (- ec) * 2 ^ (- e)
                 <= (W * Z.pos mc + 2 ^ 31) * 2 ^ (- e)).
    { replace (k * 2 ^ (- ec) * 2 ^ (- e))
        with (k * 2 ^ (- e1) * 2 ^ n)
        by (rewrite <- !Z.mul_assoc, Hs; reflexivity).
      rewrite HP, Hm in H1.
      replace ((W * Z.pos mc + 2 ^ 31) * 2 ^ (- e))
        with (W * 2 ^ (- e) * Z.pos mc + 2 ^ 31 * 2 ^ (- e)) by ring.
      lia. }
    apply Z.mul_le_mono_pos_r in H2; assumption. }
  destruct (binary_round_aux prec emax false (Z.pos P) (e + ec) loc_Exact)
    as [s' | s' | | s' m' e'] eqn:Eres.
  - eexists. split; [reflexivity|]. split; [exact I|].
    intros k Hk. unfold Z_le_float, compare_int_float in Hk.
    assert (k <= 0)
      by (destruct (Z.compare_spec k 0);
          destruct Hk as [Hk|Hk]; try discriminate Hk; lia).
    assert (0 < 2 ^ (- ec)) by (apply Z.pow_pos_nonneg; lia).
    nia.
  - destruct Hres as [_ Hinf]. unfold prec, emax in Hinf. lia.
  - contradiction.
  - destruct Hres as (Hs' & He' & Hm').
    eexists. split; [reflexivity|]. split; [exact Hs'|].
    intros k Hk. subst s'. apply Hkey.
    eapply Z_le_float_unshift; eauto; lia.
Qed.

End Rounding.

(** ** Truncation and the comparison of integers with doubles *)

Section Truncation.
Import PyFloat.

Lemma bind_Ok {A B} (c : result A) (k : A -> result B) (b : B) :
  bind c k = Ok b -> exists a, c = Ok a /\ k a = Ok b.
Proof. destruct c as [a|e]; cbn; [eauto | discriminate]. Qed.

Lemma Ok_inj {A} (a b : A) : Ok a = Ok b -> a = b.
Proof. intros H. injection H. auto. Qed.

Lemma int_of_float_finite (s : bool) (m : positive) (e n : Z) :
  int_of_float (S754_finite s m e) = Ok n ->
  let mag := if 0 <=? e then Z.pos m * 2 ^ e else Z.pos m / 2 ^ (- e) in
  n = if s then - mag else mag.
Proof. cbn [int_of_float]. intros H. apply Ok_inj in H. subst n. reflexivity. Qed.

(** [int(x)] differs from [x] by less than one. *)
Lemma int_of_float_within_one (x : float) (n : Z) :
  int_of_float x = Ok n -> within_one n x.
Proof.
  destruct x as [s | s | | s m e]; cbn [int_of_float]; try discriminate.
  - intros H. apply Ok_inj in H. subst n.
    unfold within_one, Z_le_float, float_le_Z, compare_int_float.
    cbn. auto.
  - intros H. apply Ok_inj in H. subst n.
    unfold within_one, Z_le_float, float_le_Z, compare_int_float.
    destruct (Z.leb_spec 0 e) as [He | He].
    + assert (0 < 2 ^ e) by (apply Z.pow_pos_nonneg; lia).
      destruct s; split.
      * left. f_equal. apply Z.compare_lt_iff.
        change (Z.neg m) with (- Z.pos m). nia.
      * left. f_equal. apply Z.compare_gt_iff.
        change (Z.neg m) with (- Z.pos m). nia.
      * left. f_equal. apply Z.compare_lt_iff. nia.
      * left. f_equal. apply Z.compare_gt_iff. nia.
    + assert (Hp : 0 < 2 ^ (- e)) by (apply Z.pow_pos_nonneg; lia).
      pose proof (Z.mul_div_le (Z.pos m) (2 ^ (- e)) Hp) as Hlo.
      pose proof (Z.mul_succ_div_gt (Z.pos m) (2 ^ (- e)) Hp) as Hhi.
      set (q := Z.pos m / 2 ^ (- e)) in *.
      destruct s; split.
      * left. f_equal. apply Z.compare_lt_iff.
        change (Z.neg m) with (- Z.pos m). nia.
      * left. f_equal. apply Z.compare_gt_iff.
        change (Z.neg m) with (- Z.pos m). nia.
      * left. f_equal. apply Z.compare_lt_iff. nia.
      * left. f_equal. apply Z.compare_gt_iff. nia.
Qed.

(** On a non-negative double, [int(x)] is the floor:
    [0 <= int(x) <= x < int(x) + 1]. *)
Lemma int_of_float_floor (x : float) (n : Z) :
  nonneg_finite x -> int_of_float x = Ok n ->
  0 <= n /\ Z_le_float n x /\ float_lt_Z x (n + 1).
Proof.
  destruct x as [s | s | | s m e]; cbn [nonneg_finite int_of_float];
    try contradiction.
  - intros _ H. apply Ok_inj in H. subst n.
    unfold Z_le_float, float_lt_Z, compare_int_float. cbn.
    repeat split; auto. lia.
  - intros -> H. apply Ok_inj in H. subst n.
    unfold Z_le_float, float_lt_Z, compare_int_float.
    destruct (Z.leb_spec 0 e) as [He | He].
    + assert (0 < 2 ^ e) by (apply Z.pow_pos_nonneg; lia).
      split; [nia|]. split.
      * right. f_equal. apply Z.compare_eq_iff. reflexivity.
      * f_equal. apply Z.compare_gt_iff. lia.
    + assert (Hp : 0 < 2 ^ (- e)) by (apply Z.pow_pos_nonneg; lia).
      pose proof (Z.mul_div_le (Z.pos m) (2 ^ (- e)) Hp) as Hlo.
      pose proof (Z.mul_succ_div_gt (Z.pos m) (2 ^ (- e)) Hp) as Hhi.
      assert (0 <= Z.pos m / 2 ^ (- e)) by (apply Z.div_pos; lia).
      set (q := Z.pos m / 2 ^ (- e)) in *.
      split; [assumption|]. split.
      * destruct (Z.compare_spec (q * 2 ^ (- e)) (Z.pos m));
          [right | left | nia]; reflexivity.
      * f_equal. apply Z.compare_gt_iff. nia.
Qed.

(** When [n > x] is false and [x] is a number, [n <= x]. *)
Lemma not_gt_le (n : Z) (x : float) :
  nonneg_finite x -> int_gt_float n x = false -> Z_le_float n x.
Proof.
  unfold int_gt_float, Z_le_float.
  destruct x as [s | s | | s m e]; cbn [nonneg_finite]; try contradiction;
    intros _; cbn [compare_int_float];
    match goal with
    | |- context [Some ?c] => destruct c; auto; discriminate
    end.
Qed.

(** [W * 0.9] in double precision never carries an integer above
    [9 W / 10]. *)
Lemma limit_0_9 (W : Z) :
  0 <= W < 2 ^ 31 ->
  exists lim,
    int_mul_float W f0_9 = Ok lim /\ nonneg_finite lim /\
    forall k, Z_le_float k lim -> 10 * k <= 9 * W.
Proof.
  intros HW. destruct (Z.eq_dec W 0) as [-> | Hnz].
  - exists (S754_zero false). split; [reflexivity|]. split; [exact I|].
    intros k Hk. unfold Z_le_float, compare_int_float in Hk.
    destruct (Z.compare_spec k 0);
      destruct Hk as [Hk | Hk]; try discriminate Hk; lia.
  - destruct (int_mul_float_upper W 8106479329266893 (-53))
      as (lim & Heq & Hfin & Hup); [lia | lia | lia |].
    exists lim. split; [exact Heq|]. split; [exact Hfin|].
    intros k Hk. specialize (Hup k Hk).
    change (- -53) with 53 in Hup. lia.
Qed.

End Truncation.

(** ** Aspect ratios that are exact *)

Section ExactQuotients.
Import PyFloat Layout.

Lemma div_eucl_exact (a b : Z) :
  b <> 0 -> Z.div_eucl (a * b) b = (a, 0).
Proof.
  intros Hb.
  pose proof (Z.div_mul a b Hb) as Hq.
  pose proof (Z.mod_mul a b Hb) as Hr.
  unfold Z.div, Z.modulo in Hq, Hr.
  destruct (Z.div_eucl (a * b) b) as [q r]. congruence.
Qed.

Lemma new_location_zero (n : Z) : new_location n 0 = loc_Exact.
Proof.
  unfold new_location, new_location_even, new_location_odd.
  destruct (Z.even n); reflexivity.
Qed.

(** [n / n] is the double 1.0. *)
Lemma int_truediv_same (n : Z) : 0 < n -> int_truediv n n = Ok f1.
Proof.
  intros Hn. destruct n as [|p|p]; try lia.
  unfold int_truediv. cbn [Z.eqb raw].
  unfold fdiv, SFdiv, SFdiv_core_binary. cbn [xorb Zdigits2].
  replace (Z.pos (digits2_pos p) + 0 - (Z.pos (digits2_pos p) + 0))
    with 0 by lia.
  change (Z.min (fexp prec emax 0) (0 - 0)) with (-53).
  change (0 - 0 - -53) with 53.
  cbv beta iota zeta.
  rewrite Z.shiftl_mul_pow2 by lia.
  rewrite (Z.mul_comm (Z.pos p)), div_eucl_exact by lia.
  rewrite new_location_zero. reflexivity.
Qed.

(** [(2 n) / n] is the double 2.0. *)
Lemma int_truediv_double (n : Z) : 0 < n -> int_truediv (2 * n) n = Ok f2.
Proof.
  intros Hn. destruct n as [|p|p]; try lia.
  change (2 * Z.pos p) with (Z.pos p~0).
  unfold int_truediv. cbn [Z.eqb raw].
  unfold fdiv, SFdiv, SFdiv_core_binary. cbn [xorb Zdigits2 digits2_pos].
  rewrite Pos2Z.inj_succ.
  replace (Z.succ (Z.pos (digits2_pos p)) + 0
           - (Z.pos (digits2_pos p) + 0)) with 1 by lia.
  change (Z.min (fexp prec emax 1) (0 - 0)) with (-52).
  change (0 - 0 - -52) with 52.
  cbv beta iota zeta.
  rewrite Z.shiftl_mul_pow2 by lia.
  change (Z.pos p~0) with (2 * Z.pos p).
  replace (2 * Z.pos p * 2 ^ 52) with (2 ^ 53 * Z.pos p)
    by (change (2 ^ 53) with (2 * 2 ^ 52); ring).
  rewrite div_eucl_exact by lia.
  rewrite new_location_zero. reflexivity.
Qed.

End ExactQuotients.

(** ** The progress computation never fails *)

Section Progress.
Import PyFloat App.

Lemma int_truediv_small (a b : Z) :
  0 < a < 2 ^ 53 -> 0 < b < 2 ^ 53 ->
  exists q, int_truediv a b = Ok q /\ small_nonneg q.
Proof.
  intros Ha Hb.
  destruct a as [|pa|pa]; try lia. destruct b as [|pb|pb]; try lia.
  unfold int_truediv. cbn [Z.eqb raw].
  unfold fdiv, SFdiv, SFdiv_core_binary. cbn [xorb Zdigits2].
  pose proof (digits2_pos_bounds pa) as [Halo Hahi].
  pose proof (digits2_pos_bounds pb) as [Hblo Hbhi].
  assert (Hda : Z.pos (digits2_pos pa) <= 53)
    by (apply digits2_pos_le; lia).
  assert (Hdb : Z.pos (digits2_pos pb) <= 53)
    by (apply digits2_pos_le; lia).
  set (d1 := Z.pos (digits2_pos pa)) in *.
  set (d2 := Z.pos (digits2_pos pb)) in *.
  assert (Hd1 : 0 < d1) by (unfold d1; lia).
  assert (Hd2 : 0 < d2) by (unfold d2; lia).
  assert (He' : Z.min (fexp prec emax (d1 + 0 - (d2 + 0))) (0 - 0)
                = d1 - d2 - 53)
    by (unfold fexp, SpecFloat.emin, prec, emax; lia).
  rewrite He'.
  destruct (0 - 0 - (d1 - d2 - 53)) as [|sh|sh] eqn:Es; try lia.
  rewrite Z.shiftl_mul_pow2 by lia.
  assert (Hsh : Z.pos sh = 53 + d2 - d1) by lia.
  assert (Hpsh : 0 < 2 ^ Z.pos sh) by (apply Z.pow_pos_nonneg; lia).
  pose proof (Z_div_mod (Z.pos pa * 2 ^ Z.pos sh) (Z.pos pb) ltac:(lia))
    as Hdm.
  destruct (Z.div_eucl (Z.pos pa * 2 ^ Z.pos sh) (Z.pos pb)) as [q r].
  destruct Hdm as [Hdm Hr].
  (* the dividend is at least the divisor, and has [d1 + sh] digits *)
  assert (Hbig : 2 ^ (52 + d2) <= Z.pos pa * 2 ^ Z.pos sh).
  { replace (52 + d2) with ((d1 - 1) + Z.pos sh) by lia.
    rewrite Z.pow_add_r by lia.
    apply Z.mul_le_mono_nonneg_r; lia. }
  assert (Hsmall : Z.pos pa * 2 ^ Z.pos sh < 2 ^ (53 + d2)).
  { replace (53 + d2) with (d1 + Z.pos sh) by lia.
    rewrite Z.pow_add_r by lia.
    apply Z.mul_lt_mono_pos_r; lia. }
  assert (Hb52 : Z.pos pb < 2 ^ (52 + d2)).
  { apply Z.lt_le_trans with (2 ^ d2); [assumption|].
    apply pow2_le. lia. }
  assert (Hq : 0 < q) by nia.
  assert (Hqhi : q < 2 ^ (53 + d2)) by nia.
  destruct q as [|pq|pq]; try lia.
  assert (Hdq : Z.pos (digits2_pos pq) <= 53 + d2)
    by (apply digits2_pos_le; assumption).
  pose proof (binary_round_aux_finite false pq (d1 - d2 - 53)
                (new_location (Z.pos pb) r)
                ltac:(lia) ltac:(lia)) as Hfin.
  destruct (binary_round_aux prec emax false (Z.pos pq) (d1 - d2 - 53)
              (new_location (Z.pos pb) r)) as [s' | s' | | s' m e];
    try contradiction.
  - eexists. split; [reflexivity | exact I].
  - destruct Hfin as (Hs & Hm & He).
    eexists. split; [reflexivity|]. cbn. repeat split; try assumption.
    unfold fexp, SpecFloat.emin, prec, emax in He. lia.
Qed.

Lemma fmul_small_50 (q : float) :
  small_nonneg q ->
  exists p, int_of_float (fmul q f50) = Ok p.
Proof.
  destruct q as [s | s | | s m e]; cbn [small_nonneg]; try contradiction.
  - intros _. exists 0. reflexivity.
  - intros (_ & Hm & He).
    unfold fmul, f50, SFmul.
    set (P := (m * 7036874417766400)%positive).
    assert (HP : Z.pos P < 2 ^ 106).
    { change (Z.pos P) with (Z.pos m * 7036874417766400).
      change (2 ^ 106) with (2 ^ 53 * 2 ^ 53). nia. }
    assert (HD : Z.pos (digits2_pos P) <= 106)
      by (apply digits2_pos_le; assumption).
    pose proof (binary_round_aux_finite (xorb s false) P (e + -47)
                  loc_Exact ltac:(lia) ltac:(lia)) as Hfin.
    destruct (binary_round_aux prec emax (xorb s false) (Z.pos P)
                (e + -47) loc_Exact) as [s' | s' | | s' m' e'];
      try contradiction; cbn [int_of_float]; eauto.
Qed.

(** For a loop index and a number of prompts below [2 ^ 53], line 155
    yields a percentage. *)
Lemma progress_percent_ok (i total : Z) :
  0 <= i < 2 ^ 53 -> 0 < total < 2 ^ 53 ->
  exists percent, progress_percent i total = Ok percent.
Proof.
  intros Hi Ht. unfold progress_percent.
  destruct (Z.eq_dec i 0) as [-> | Hnz].
  - unfold int_truediv.
    destruct (Z.eqb_spec total 0) as [|_]; [lia|].
    destruct total as [|pt|pt]; try lia. cbn. eauto.
  - destruct (int_truediv_small i total) as (q & Hq & Hs); [lia | lia |].
    rewrite Hq. cbn [bind].
    change (of_int 50) with (Ok f50). cbn [bind].
    destruct (fmul_small_50 q Hs) as (p & Hp).
    rewrite Hp. cbn [bind]. eauto.
Qed.

End Progress.

(** ** The compositor's layout *)

Section LayoutProperties.
Import PyFloat PIL ImageEdit Layout.

Ltac inv_bind H :=
  let a := fresh "v" in
  let E := fresh "E" in
  apply bind_Ok in H; destruct H as (a & E & H).

Lemma product_default_size_inv (H : Z) (product : Image) (ratio : float)
    (w0 h0 : Z) (aspect : float) :
  product_default_size H product ratio = Ok (w0, h0, aspect) ->
  (exists h, int_mul_float H ratio = Ok h /\ int_of_float h = Ok h0) /\
  int_truediv (width product) (height product) = Ok aspect /\
  (exists w, int_mul_float h0 aspect = Ok w /\ int_of_float w = Ok w0).
Proof.
  unfold product_default_size. intros Hd.
  inv_bind Hd. inv_bind Hd. inv_bind Hd. inv_bind Hd. inv_bind Hd.
  apply Ok_inj in Hd. injection Hd as -> -> ->. eauto 8.
Qed.

(** The two ways [product_target_size] can return. *)
Lemma product_target_size_inv (W H : Z) (product : Image) (ratio : float)
    (tw th : Z) :
  product_target_size W H product ratio = Ok (tw, th) ->
  exists w0 h0 aspect limit,
    product_default_size H product ratio = Ok (w0, h0, aspect) /\
    int_mul_float W f0_9 = Ok limit /\
    if int_gt_float w0 limit then
      int_of_float limit = Ok tw /\
      exists q, int_div_float tw aspect = Ok q /\ int_of_float q = Ok th
    else tw = w0 /\ th = h0.
Proof.
  unfold product_target_size. intros Hs.
  inv_bind Hs. destruct v as [[w0 h0] aspect]. inv_bind Hs.
  exists w0, h0, aspect, v. split; [assumption|]. split; [assumption|].
  destruct (int_gt_float w0 v).
  - rewrite E0 in Hs. cbn [bind] in Hs.
    inv_bind Hs. inv_bind Hs. inv_bind Hs.
    apply Ok_inj in Hs. injection Hs as -> ->. eauto.
  - apply Ok_inj in Hs. injection Hs as -> ->. auto.
Qed.

Lemma logo_target_size_inv (W : Z) (logo : Image) (ratio : float)
    (lw lh : Z) :
  logo_target_size W logo ratio = Ok (lw, lh) ->
  (exists w, int_mul_float W ratio = Ok w /\ int_of_float w = Ok lw) /\
  exists aspect q,
    int_truediv (width logo) (height logo) = Ok aspect /\
    int_div_float lw aspect = Ok q /\ int_of_float q = Ok lh.
Proof.
  unfold logo_target_size. intros Hs.
  inv_bind Hs. inv_bind Hs. inv_bind Hs. inv_bind Hs. inv_bind Hs.
  apply Ok_inj in Hs. injection Hs as -> ->. eauto 8.
Qed.

(** C1.  Whatever the product's aspect ratio and the size ratio, the
    width [create_composite] passes to [resize] for the product is at
    most [0.9 * W]: it does not exceed the double [bg_width * 0.9] the
    code compares it with, nor the exact nine tenths of the background
    width.  [W] ranges over the widths a Pillow image can have, which
    are below [2 ^ 31]. *)
Theorem product_width_at_most_nine_tenths
    (W H : Z) (product : Image) (ratio : float) (tw th : Z) :
  0 <= W < 2 ^ 31 ->
  product_target_size W H product ratio = Ok (tw, th) ->
  (exists limit, int_mul_float W f0_9 = Ok limit /\ Z_le_float tw limit)
  /\ 10 * tw <= 9 * W.
Proof.
  intros HW Hs.
  destruct (limit_0_9 W HW) as (lim & Hlim & Hfin & Hup).
  apply product_target_size_inv in Hs.
  destruct Hs as (w0 & h0 & aspect & limit & _ & Hl & Hbranch).
  rewrite Hlim in Hl. apply Ok_inj in Hl. subst limit.
  assert (Hle : Z_le_float tw lim).
  { destruct (int_gt_float w0 lim) eqn:Egt.
    - destruct Hbranch as [Hint _].
      apply (int_of_float_floor lim tw Hfin Hint).
    - destruct Hbranch as [-> _]. apply not_gt_le; assumption. }
  split; [exists lim; auto | apply Hup; exact Hle].
Qed.

Lemma product_width_at_most_nine_tenths_witness :
  (exists limit, int_mul_float 1024 f0_9 = Ok limit /\ Z_le_float 921 limit)
  /\ 10 * 921 <= 9 * 1024.
Proof.
  apply (product_width_at_most_nine_tenths
           1024 1024 wide_product f0_4 921 131).
  - lia.
  - vm_compute. reflexivity.
Defined.

Lemma product_position_inv (W H tw th x y : Z) :
  product_position W H tw th = Ok (x, y) ->
  exists margin,
    (exists m, int_mul_float H f0_05 = Ok m /\ int_of_float m = Ok margin)
    /\ x = (W - tw) / 2 /\ y = H - th - margin.
Proof.
  unfold product_position. intros Hp. inv_bind Hp. inv_bind Hp.
  apply Ok_inj in Hp. injection Hp as <- <-. eauto 6.
Qed.

Lemma logo_position_inv (W lw x y : Z) :
  logo_position W lw = Ok (x, y) ->
  exists margin,
    (exists m, int_mul_float W f0_02 = Ok m /\ int_of_float m = Ok margin)
    /\ x = W - lw - margin /\ y = margin.
Proof.
  unfold logo_position. intros Hp. inv_bind Hp. inv_bind Hp.
  apply Ok_inj in Hp. injection Hp as <- <-. eauto 6.
Qed.

(** C3, as the specification states it, fails on the square product of
    the scenario: the code resizes to 409 x 409 and pastes at
    (307, 564), the rounded layout is 410 x 410 at (307, 563). *)
Lemma product_layout_is_not_rounded :
  product_layout 1024 1024 square_product f0_4 = Ok (409, 409, 307, 564)
  /\ spec_product_layout 1024 1024 square_product f0_4
     = Ok (410, 410, 307, 563)
  /\ product_layout 1024 1024 square_product f0_4
     <> spec_product_layout 1024 1024 square_product f0_4.
Proof.
  assert (Hc : product_layout 1024 1024 square_product f0_4
               = Ok (409, 409, 307, 564)) by (vm_compute; reflexivity).
  assert (Hs : spec_product_layout 1024 1024 square_product f0_4
               = Ok (410, 410, 307, 563)) by (vm_compute; reflexivity).
  repeat split; try assumption.
  rewrite Hc, Hs. discriminate.
Qed.

(** C3, amended.  The product's target height is
    [int(bg_height * product_size_ratio)] and its target width
    [int(target_height * aspect)], both truncated, not rounded; when
    that width exceeds [bg_width * 0.9] the size is
    [int(bg_width * 0.9)] by [int(target_width / aspect)].  The product
    is pasted at [x = (bg_width - width) // 2], which centres it to
    within one pixel, and [y = bg_height - height - int(bg_height * 0.05)].
    On a 1024 x 1024 background a square product with the ratio 0.4 is
    resized to 409 x 409 and pasted at (307, 564). *)
Theorem product_layout_truncates :
  (forall (W H : Z) (product : Image) (ratio : float) (tw th x y : Z),
      product_layout W H product ratio = Ok (tw, th, x, y) ->
      exists w0 h0 aspect limit margin,
        (exists h, int_mul_float H ratio = Ok h /\ int_of_float h = Ok h0)
        /\ int_truediv (width product) (height product) = Ok aspect
        /\ (exists w, int_mul_float h0 aspect = Ok w
                      /\ int_of_float w = Ok w0)
        /\ int_mul_float W f0_9 = Ok limit
        /\ (if int_gt_float w0 limit then
              int_of_float limit = Ok tw /\
              exists q, int_div_float tw aspect = Ok q
                        /\ int_of_float q = Ok th
            else tw = w0 /\ th = h0)
        /\ (exists m, int_mul_float H f0_05 = Ok m
                      /\ int_of_float m = Ok margin)
        /\ x = (W - tw) / 2
        /\ y = H - th - margin
        /\ 0 <= (W - tw) - 2 * x <= 1)
  /\ (forall product : Image,
         0 < width product -> height product = width product ->
         product_layout 1024 1024 product f0_4
         = Ok (409, 409, 307, 564)).
Proof.
  split.
  - intros W H product ratio tw th x y Hl.
    unfold product_layout in Hl.
    inv_bind Hl. destruct v as [tw' th']. inv_bind Hl.
    destruct v as [x' y']. apply Ok_inj in Hl.
    injection Hl as -> -> -> ->.
    apply product_target_size_inv in E.
    destruct E as (w0 & h0 & aspect & limit & Hd & Hlim & Hbr).
    apply product_default_size_inv in Hd.
    destruct Hd as (Hh & Ha & Hw).
    apply product_position_inv in E0.
    destruct E0 as (margin & Hm & -> & ->).
    exists w0, h0, aspect, limit, margin.
    repeat (split; [assumption|]).
    split; [reflexivity|]. split; [reflexivity|].
    pose proof (Z.mod_pos_bound (W - tw) 2 ltac:(lia)) as Hmod.
    pose proof (Z.div_mod (W - tw) 2 ltac:(lia)) as Hdm. lia.
  - intros product Hw Hh.
    unfold product_layout, product_target_size, product_default_size.
    rewrite Hh, int_truediv_same by assumption. reflexivity.
Qed.

Lemma product_layout_truncates_witness :
  product_layout 1024 1024 square_product f0_4 = Ok (409, 409, 307, 564).
Proof.
  apply (proj2 product_layout_truncates square_product).
  - reflexivity.
  - reflexivity.
Defined.

(** C4, as the specification states it, fails on the 2:1 logo of the
    scenario: the code resizes to 153 x 76 and pastes at (851, 20), the
    rounded layout is 154 x 77 at (850, 20). *)
Lemma logo_layout_is_not_rounded :
  logo_layout 1024 wide_logo f0_15 = Ok (153, 76, 851, 20)
  /\ spec_logo_layout 1024 wide_logo f0_15 = Ok (154, 77, 850, 20)
  /\ logo_layout 1024 wide_logo f0_15
     <> spec_logo_layout 1024 wide_logo f0_15.
Proof.
  assert (Hc : logo_layout 1024 wide_logo f0_15
               = Ok (153, 76, 851, 20)) by (vm_compute; reflexivity).
  assert (Hs : spec_logo_layout 1024 wide_logo f0_15
               = Ok (154, 77, 850, 20)) by (vm_compute; reflexivity).
  repeat split; try assumption.
  rewrite Hc, Hs. discriminate.
Qed.

(** C4, amended.  The logo's target width is
    [int(bg_width * logo_size_ratio)] and its target height
    [int(target_width / aspect)], both truncated, not rounded.  The logo
    is pasted at [x = bg_width - width - margin], [y = margin] with
    [margin = int(bg_width * 0.02)], so that the logo ends [margin]
    pixels before the right edge.  On a 1024 pixel wide background a
    2:1 logo with the ratio 0.15 is resized to 153 x 76 and pasted at
    (851, 20). *)
Theorem logo_layout_truncates :
  (forall (W : Z) (logo : Image) (ratio : float) (lw lh x y : Z),
      logo_layout W logo ratio = Ok (lw, lh, x, y) ->
      exists aspect margin,
        (exists w, int_mul_float W ratio = Ok w /\ int_of_float w = Ok lw)
        /\ int_truediv (width logo) (height logo) = Ok aspect
        /\ (exists q, int_div_float lw aspect = Ok q
                      /\ int_of_float q = Ok lh)
        /\ (exists m, int_mul_float W f0_02 = Ok m
                      /\ int_of_float m = Ok margin)
        /\ x = W - lw - margin
        /\ y = margin
        /\ x + lw + margin = W)
  /\ (forall logo : Image,
         0 < height logo -> width logo = 2 * height logo ->
         logo_layout 1024 logo f0_15 = Ok (153, 76, 851, 20)).
Proof.
  split.
  - intros W logo ratio lw lh x y Hl.
    unfold logo_layout in Hl.
    inv_bind Hl. destruct v as [lw' lh']. inv_bind Hl.
    destruct v as [x' y']. apply Ok_inj in Hl.
    injection Hl as -> -> -> ->.
    apply logo_target_size_inv in E.
    destruct E as (Hw & aspect & q & Ha & Hq & Hh).
    apply logo_position_inv in E0.
    destruct E0 as (margin & Hm & -> & ->).
    exists aspect, margin.
    repeat (split; [eauto|]). lia.
  - intros logo Hh Hw.
    unfold logo_layout, logo_target_size.
    rewrite Hw, int_truediv_double by assumption. reflexivity.
Qed.

Lemma logo_layout_truncates_witness :
  logo_layout 1024 wide_logo f0_15 = Ok (153, 76, 851, 20).
Proof.
  apply (proj2 logo_layout_truncates wide_logo).
  - reflexivity.
  - reflexivity.
Defined.

(** C5, as the specification states it, fails in the capped branch: a
    700 x 100 product on a 1024 x 1024 background is resized to
    921 x 131, and 131 times its aspect ratio 7 is 917, four pixels
    short of the width. *)
Lemma capped_width_is_off_by_more_than_one :
  exists aspect x,
    product_target_size 1024 1024 wide_product f0_4 = Ok (921, 131)
    /\ int_truediv (width wide_product) (height wide_product) = Ok aspect
    /\ int_mul_float 131 aspect = Ok x
    /\ int_of_float x = Ok 917
    /\ ~ within_one 921 x.
Proof.
  exists (S754_finite false 7881299347898368 (-50)),
         (S754_finite false 8066017301364736 (-43)).
  split; [vm_compute; reflexivity|].
  split; [vm_compute; reflexivity|].
  split; [vm_compute; reflexivity|].
  split; [vm_compute; reflexivity|].
  intros [[Hle | Hle] _]; vm_compute in Hle; discriminate Hle.
Qed.

(** C5, amended.  The dimension that is derived from the other one is
    within one pixel of the exact value for the aspect ratio: in the
    default branch the product's width differs from
    [target_height * aspect] by at most one, in the capped branch the
    product's height differs from [target_width / aspect] by at most
    one, and the logo's height differs from [target_width / aspect] by
    at most one.  (Products and quotients are the doubles the code
    computes.) *)
Theorem resize_targets_keep_aspect :
  (forall (W H : Z) (product : Image) (ratio : float) (tw th : Z),
      product_target_size W H product ratio = Ok (tw, th) ->
      exists w0 h0 aspect limit,
        product_default_size H product ratio = Ok (w0, h0, aspect)
        /\ int_mul_float W f0_9 = Ok limit
        /\ if int_gt_float w0 limit then
             exists q, int_div_float tw aspect = Ok q /\ within_one th q
           else
             exists p, int_mul_float th aspect = Ok p /\ within_one tw p)
  /\ (forall (W : Z) (logo : Image) (ratio : float) (lw lh : Z),
         logo_target_size W logo ratio = Ok (lw, lh) ->
         exists aspect q,
           int_truediv (width logo) (height logo) = Ok aspect
           /\ int_div_float lw aspect = Ok q /\ within_one lh q).
Proof.
  split.
  - intros W H product ratio tw th Hs.
    apply product_target_size_inv in Hs.
    destruct Hs as (w0 & h0 & aspect & limit & Hd & Hlim & Hbr).
    exists w0, h0, aspect, limit.
    split; [assumption|]. split; [assumption|].
    destruct (int_gt_float w0 limit).
    + destruct Hbr as (_ & q & Hq & Hth).
      exists q. split; [assumption|].
      apply int_of_float_within_one. assumption.
    + destruct Hbr as [-> ->].
      apply product_default_size_inv in Hd.
      destruct Hd as (_ & _ & w & Hw & Hint).
      exists w. split; [assumption|].
      apply int_of_float_within_one. assumption.
  - intros W logo ratio lw lh Hs.
    apply logo_target_size_inv in Hs.
    destruct Hs as (_ & aspect & q & Ha & Hq & Hh).
    exists aspect, q. repeat split; try assumption;
      apply (int_of_float_within_one q lh Hh).
Qed.

Lemma resize_targets_keep_aspect_witness :
  exists aspect q,
    int_truediv (width wide_logo) (height wide_logo) = Ok aspect
    /\ int_div_float 153 aspect = Ok q /\ within_one 76 q.
Proof.
  apply (proj2 resize_targets_keep_aspect 1024 wide_logo f0_15 153 76).
  vm_compute. reflexivity.
Defined.

End LayoutProperties.

(** ** Alpha-aware paste and the composite's shape *)

Section Pasting.
Import PyFloat PIL ImageEdit Layout.

Variable convert_buffer : Image -> string -> result (Z -> Z -> rgba).
Variable lanczos : Image -> Z -> Z -> result (Z -> Z -> rgba).
Variable paste_other : Image -> Image -> Z * Z -> result Image.

Ltac inv_bind H :=
  let a := fresh "v" in
  let E := fresh "E" in
  apply bind_Ok in H; destruct H as (a & E & H).

(** A property checked on the 256 byte values holds of every byte. *)
Lemma byte_cases (P : Z -> bool) :
  forallb P (List.map Z.of_nat (seq 0 256)) = true ->
  forall c, byte_range c -> P c = true.
Proof.
  intros Hall c [Hlo Hhi].
  rewrite forallb_forall in Hall. apply Hall.
  apply in_map_iff. exists (Z.to_nat c). split; [lia|].
  apply in_seq. lia.
Qed.

(** Blending with a mask of 255 stores the source byte. *)
Lemma BLEND_opaque (c : Z) : byte_range c -> UINT8 (BLEND 255 0 c) = c.
Proof.
  intros Hc. apply Z.eqb_eq.
  apply (byte_cases (fun c => UINT8 (BLEND 255 0 c) =? c)); [|exact Hc].
  vm_compute. reflexivity.
Qed.

(** Blending with a mask of 0 keeps the destination byte 0. *)
Lemma BLEND_transparent (c : Z) : UINT8 (BLEND 0 0 c) = 0.
Proof. unfold BLEND. rewrite Z.mul_0_r. reflexivity. Qed.

Lemma paste_mask_RGBA_opaque (s : rgba) :
  pixel_ok s -> alpha s = 255 ->
  paste_mask_RGBA (Pixel 0 0 0 0) s s = s.
Proof.
  intros (Hr & Hg & Hb & Ha) H255. unfold paste_mask_RGBA.
  cbn [red green blue alpha]. rewrite H255.
  rewrite !BLEND_opaque by (assumption || (unfold byte_range; lia)).
  destruct s as [r g b a]. cbn in *. congruence.
Qed.

Lemma paste_mask_RGBA_transparent (s : rgba) :
  alpha s = 0 -> paste_mask_RGBA (Pixel 0 0 0 0) s s = Pixel 0 0 0 0.
Proof.
  intros H0. unfold paste_mask_RGBA. cbn [red green blue alpha].
  rewrite H0, !BLEND_transparent. reflexivity.
Qed.

Lemma over_opaque_byte (c : Z) :
  byte_range c ->
  UINT8 (Z.shiftr (SHIFTFORDIV255 (c * 32640 + 16384)) 7) = c.
Proof.
  intros Hc. apply Z.eqb_eq.
  apply (byte_cases
           (fun c => UINT8 (Z.shiftr (SHIFTFORDIV255 (c * 32640 + 16384)) 7)
                     =? c)); [|exact Hc].
  vm_compute. reflexivity.
Qed.

(** Compositing an opaque source pixel over anything gives the source. *)
Lemma alpha_composite_pixel_opaque (dst src : rgba) :
  pixel_ok src -> alpha src = 255 -> alpha_composite_pixel dst src = src.
Proof.
  intros (Hr & Hg & Hb & Ha) H255. unfold alpha_composite_pixel.
  rewrite H255. change (255 =? 0) with false. cbv iota zeta.
  change (255 - 255) with 0. rewrite Z.mul_0_r.
  change (255 * 255 + 0) with 65025.
  change (255 * 255 * 255 * Z.shiftl 1 PRECISION_BITS / 65025) with 32640.
  change (255 * Z.shiftl 1 PRECISION_BITS - 32640) with 0.
  change (Z.shiftl 128 PRECISION_BITS) with 16384.
  change PRECISION_BITS with 7.
  rewrite !Z.mul_0_r, !Z.add_0_r.
  rewrite !over_opaque_byte by assumption.
  change (UINT8 (SHIFTFORDIV255 (65025 + 128))) with 255.
  destruct src as [r g b a]. cbn in *. congruence.
Qed.

(** Compositing a fully transparent source pixel keeps the destination. *)
Lemma alpha_composite_pixel_transparent (dst src : rgba) :
  alpha src = 0 -> alpha_composite_pixel dst src = dst.
Proof.
  intros H0. unfold alpha_composite_pixel. rewrite H0. reflexivity.
Qed.

(** C6.  For every base image and every RGBA overlay, the image
    [_paste_with_alpha] returns has the base's size and, at every pixel
    the overlay covers, a fully opaque overlay pixel replaces the base
    pixel and a fully transparent one leaves it unchanged; pixels the
    overlay does not cover are unchanged, so a fully transparent
    overlay leaves every base pixel unchanged.  On an RGBA base the
    function does return an image. *)
Theorem paste_with_alpha_over
    (base overlay : Image) (x y : Z) :
  mode overlay = "RGBA"%string ->
  (mode base = "RGBA"%string ->
   exists r, _paste_with_alpha paste_other base overlay (x, y) = Ok r)
  /\ forall r,
      _paste_with_alpha paste_other base overlay (x, y) = Ok r ->
      size r = size base
      /\ (forall i j,
             x <= i < x + width overlay -> y <= j < y + height overlay ->
             let s := getpixel overlay (i - x) (j - y) in
             (pixel_ok s -> alpha s = 255 -> getpixel r i j = s)
             /\ (alpha s = 0 -> getpixel r i j = getpixel base i j))
      /\ (forall i j,
             ~ (x <= i < x + width overlay
                /\ y <= j < y + height overlay) ->
             getpixel r i j = getpixel base i j)
      /\ ((forall i j, alpha (getpixel overlay i j) = 0) ->
          forall i j, getpixel r i j = getpixel base i j).
Proof.
  intros Ho.
  unfold _paste_with_alpha, Image_paste. rewrite Ho.
  cbn [String.eqb Ascii.eqb Bool.eqb bind].
  unfold Image_alpha_composite.
  destruct (String.eqb_spec (mode base) "RGBA") as [Hb | Hb];
    cbn [negb]; [|split; [contradiction | discriminate]].
  rewrite Hb.
  cbn [String.eqb Ascii.eqb Bool.eqb negb mode width height Image_new size
         fst snd andb].
  rewrite !Z.eqb_refl. cbn [andb negb].
  split; [eauto|]. intros r Hr. apply Ok_inj in Hr. subst r.
  split; [reflexivity|]. cbn [getpixel Image_new]. cbv zeta.
  assert (Hin : forall i j,
             x <= i < x + width overlay -> y <= j < y + height overlay ->
             (x <=? i) && (i <? x + width overlay) && (y <=? j)
             && (j <? y + height overlay) = true).
  { intros i j Hi Hj.
    rewrite !andb_true_iff, !Z.leb_le, !Z.ltb_lt. lia. }
  assert (Hout : forall i j,
             ~ (x <= i < x + width overlay /\ y <= j < y + height overlay) ->
             (x <=? i) && (i <? x + width overlay) && (y <=? j)
             && (j <? y + height overlay) = false).
  { intros i j Hn. apply not_true_is_false. intros Ht.
    rewrite !andb_true_iff, !Z.leb_le, !Z.ltb_lt in Ht. apply Hn. lia. }
  split; [|split].
  - intros i j Hi Hj. rewrite (Hin i j Hi Hj). split.
    + intros Hok H255. rewrite paste_mask_RGBA_opaque by assumption.
      apply alpha_composite_pixel_opaque; assumption.
    + intros H0. rewrite paste_mask_RGBA_transparent by assumption.
      apply alpha_composite_pixel_transparent. reflexivity.
  - intros i j Hn. rewrite (Hout i j Hn).
    apply alpha_composite_pixel_transparent. reflexivity.
  - intros Hclear i j.
    destruct ((x <=? i) && (i <? x + width overlay) && (y <=? j)
              && (j <? y + height overlay)).
    + rewrite paste_mask_RGBA_transparent by apply Hclear.
      apply alpha_composite_pixel_transparent. reflexivity.
    + apply alpha_composite_pixel_transparent. reflexivity.
Qed.

Lemma Image_convert_shape (im out : Image) (m : string) :
  Image_convert convert_buffer im m = Ok out ->
  mode out = m /\ width out = width im /\ height out = height im.
Proof.
  unfold Image_convert.
  destruct (String.eqb_spec (mode im) m) as [Heq | Hne].
  - intros H. apply Ok_inj in H. subst out. cbn. auto.
  - intros H. inv_bind H. apply Ok_inj in H. subst out. cbn. auto.
Qed.

Lemma paste_with_alpha_shape (base overlay out : Image) (pos : Z * Z) :
  _paste_with_alpha paste_other base overlay pos = Ok out ->
  mode out = "RGBA"%string
  /\ width out = width base /\ height out = height base.
Proof.
  unfold _paste_with_alpha. intros H. inv_bind H.
  unfold Image_alpha_composite in H.
  destruct (String.eqb_spec (mode base) "RGBA") as [Hm | Hm];
    [|discriminate H]. cbn [negb] in H.
  destruct (negb _); [discriminate H|].
  apply Ok_inj in H. subst out. cbn. auto.
Qed.

(** C2.  Whenever [create_composite] returns, the image it returns is
    in RGBA mode and has the width and the height of the background it
    was given. *)
Theorem composite_has_background_size
    (background product logo : Image)
    (product_size_ratio logo_size_ratio : float) (out : Image) :
  create_composite convert_buffer lanczos paste_other
    background product logo product_size_ratio logo_size_ratio = Ok out ->
  size out = size background /\ mode out = "RGBA"%string.
Proof.
  unfold create_composite. intros H.
  inv_bind H. rename v into bg, E into Hbg.
  assert (Hshape : width bg = width background
                   /\ height bg = height background).
  { destruct (negb (String.eqb (mode background) "RGBA")).
    - apply Image_convert_shape in Hbg. tauto.
    - apply Ok_inj in Hbg. subst bg. auto. }
  inv_bind H. cbn [size Image_copy width height] in H.
  inv_bind H. destruct v0 as [tw th].
  inv_bind H. inv_bind H. destruct v1 as [px py].
  inv_bind H. rename v1 into c1, E3 into Hc1.
  apply paste_with_alpha_shape in Hc1.
  cbn [Image_copy mode width height] in Hc1.
  inv_bind H. inv_bind H. destruct v2 as [lw lh].
  inv_bind H. inv_bind H. destruct v3 as [lx ly].
  inv_bind H. apply Ok_inj in H. subst v3.
  apply paste_with_alpha_shape in E7.
  unfold size. destruct E7 as (Hm & Hw & Hh).
  split; [|assumption]. f_equal; lia.
Qed.

End Pasting.

Section Samples.
Import PyFloat PIL ImageEdit Layout.

Lemma composite_has_background_size_witness :
  exists out,
    create_composite sample_convert sample_resample sample_paste
      background_1024 square_product wide_logo f0_4 f0_15 = Ok out
    /\ size out = (1024, 1024) /\ mode out = "RGBA"%string.
Proof.
  assert (Hok : is_ok (create_composite sample_convert sample_resample
                         sample_paste background_1024 square_product
                         wide_logo f0_4 f0_15) = true)
    by (vm_compute; reflexivity).
  destruct (create_composite sample_convert sample_resample sample_paste
              background_1024 square_product wide_logo f0_4 f0_15)
    as [out | e] eqn:E.
  - exists out. split; [reflexivity|].
    apply (composite_has_background_size
             sample_convert sample_resample sample_paste
             background_1024 square_product wide_logo f0_4 f0_15 out E).
  - discriminate Hok.
Defined.

(** A fully opaque 1 x 1 background with a fully transparent overlay
    yields the unmodified background pixel. *)
Lemma paste_with_alpha_over_witness :
  exists r,
    _paste_with_alpha sample_paste one_red one_clear (0, 0) = Ok r
    /\ getpixel r 0 0 = red_pixel.
Proof.
  destruct (paste_with_alpha_over sample_paste one_red one_clear 0 0
              eq_refl) as [Hreturns Hpixels].
  destruct (Hreturns eq_refl) as (r & Hr).
  destruct (Hpixels r Hr) as (_ & _ & _ & Hclear).
  exists r. split; [exact Hr|].
  rewrite Hclear; reflexivity.
Defined.

End Samples.

(** ** The number of prompts *)

Section PromptCount.
Import PyStr TextLogic.

Variable post : pystr -> pystr -> gemini_reply.
Variable is_decimal : N -> bool.
Variable cfg : config.

Lemma len_app {A} (l1 l2 : list A) : len (l1 ++ l2) = len l1 + len l2.
Proof. unfold len. rewrite length_app. lia. Qed.

(** [l[:n]] has [n] elements when [l] has at least [n]. *)
Lemma len_slice_to {A} (l : list A) (n : Z) :
  0 <= n <= len l -> len (slice_to l n) = n.
Proof.
  intros [Hlo Hhi]. unfold slice_to, len in *.
  destruct (Z.leb_spec 0 n); [|lia].
  rewrite firstn_length_le by lia. lia.
Qed.

(** The padding loop ends within [num_prompts - len(prompts)] rounds,
    with exactly [num_prompts] prompts. *)
Lemma pad_prompts_total (fuel : nat) :
  forall (base prompts : list pystr) (num_prompts : Z),
    len prompts <= num_prompts ->
    (Z.to_nat (num_prompts - len prompts) <= fuel)%nat ->
    exists l,
      pad_prompts fuel base prompts num_prompts = Some l
      /\ len l = num_prompts.
Proof.
  induction fuel as [|fuel IH]; intros base prompts n Hle Hfuel.
  - cbn [pad_prompts].
    destruct (Z.ltb_spec (len prompts) n); [lia|].
    exists prompts. split; [reflexivity | lia].
  - cbn [pad_prompts].
    destruct (Z.ltb_spec (len prompts) n) as [Hlt | Hge].
    + apply IH.
      * rewrite len_app. unfold len at 2. cbn [List.length]. lia.
      * rewrite len_app. unfold len at 2. cbn [List.length]. lia.
    + exists prompts. split; [reflexivity | lia].
Qed.

(** C8.  With the service down and seven prompts asked for,
    [generate_prompts] returns its five fallback prompts: on the
    [except] path the count is not looked at, while the path that
    reads a reply pads and cuts the list to the count. *)
Lemma fallback_ignores_the_count :
  exists l,
    generate_prompts service_down ascii_digit sample_config headphones 7
    = Some l
    /\ len l = 5 /\ len l <> 7.
Proof.
  eexists. split; [vm_compute; reflexivity|].
  split; [reflexivity | discriminate].
Qed.

(** X25.  [generate_prompts] gives as many prompts as asked for when
    the count is not negative and the service returns a non-empty
    text; it gives the empty list when the service returns an empty
    text; and whenever the call fails it gives the five fixed fallback
    prompts, whatever the count. *)
Theorem generate_prompts_count
    (product_description : pystr) (num_prompts : Z) :
  (forall response_text,
      0 <= num_prompts ->
      _call_gemini post cfg
        (prompts_request product_description num_prompts)
      = Ok response_text ->
      response_text <> [] ->
      exists prompts,
        generate_prompts post is_decimal cfg product_description num_prompts
        = Some prompts
        /\ len prompts = num_prompts)
  /\ (_call_gemini post cfg
        (prompts_request product_description num_prompts) = Ok [] ->
      generate_prompts post is_decimal cfg product_description num_prompts
      = Some [])
  /\ (forall e,
         _call_gemini post cfg
           (prompts_request product_description num_prompts) = Raise e ->
         generate_prompts post is_decimal cfg product_description
           num_prompts = Some (fallback_prompts product_description)
         /\ len (fallback_prompts product_description) = 5).
Proof.
  split; [|split].
  - intros text Hn Hcall Htext. unfold generate_prompts. rewrite Hcall.
    destruct text as [|c text]; [contradiction|]. cbn [truthy].
    set (prompts := parse_lines is_decimal 10
                      (split_on newline (strip (c :: text)))).
    destruct (Z.ltb_spec (len prompts) num_prompts) as [Hlt | Hge].
    + destruct (pad_prompts_total (Z.to_nat num_prompts)
                  (match prompts with
                   | [] => default_base_prompts product_description
                   | _ :: _ => prompts
                   end) prompts num_prompts) as (l & Hl & Hlen).
      * lia.
      * unfold len. lia.
      * rewrite Hl. eexists. split; [reflexivity|].
        apply len_slice_to. lia.
    + eexists. split; [reflexivity|]. apply len_slice_to. lia.
  - intros Hcall. unfold generate_prompts. rewrite Hcall. reflexivity.
  - intros e Hcall. unfold generate_prompts. rewrite Hcall.
    split; reflexivity.
Qed.

End PromptCount.

Section PromptSamples.
Import PyStr TextLogic.

Lemma generate_prompts_count_witness :
  exists prompts,
    generate_prompts service_two_lines ascii_digit sample_config
      headphones 7 = Some prompts
    /\ len prompts = 7.
Proof.
  eapply (proj1 (generate_prompts_count service_two_lines ascii_digit
                   sample_config headphones 7)).
  - lia.
  - vm_compute. reflexivity.
  - discriminate.
Defined.

End PromptSamples.

(** ** The result of [generate_background] *)

Section BackgroundResult.
Import PyStr PIL ImageGen.

Variable STABILITY_API_KEY : option pystr.
Variable post : pystr -> Z -> Z -> http_outcome.
Variable open_image : json -> result Image.
Variable json_repr : json -> pystr.

Lemma lit_app_nonempty (a : ascii) (s : string) (rest : pystr) :
  lit (String a s) ++ rest <> [].
Proof. unfold lit. cbn [list_ascii_of_string List.map app]. discriminate. Qed.

Lemma lit_nonempty (a : ascii) (s : string) : lit (String a s) <> [].
Proof. unfold lit. cbn [list_ascii_of_string List.map]. discriminate. Qed.

Lemma read_artifact_shape (r : response) (res : option Image * option pystr) :
  read_artifact open_image r = Ok res -> well_shaped res.
Proof.
  unfold read_artifact. intros H.
  apply bind_Ok in H. destruct H as (doc & _ & H).
  apply bind_Ok in H. destruct H as (has & _ & H).
  apply bind_Ok in H. destruct H as (nonempty & _ & H).
  destruct nonempty.
  - apply bind_Ok in H. destruct H as (arts & _ & H).
    apply bind_Ok in H. destruct H as (first & _ & H).
    apply bind_Ok in H. destruct H as (data & _ & H).
    apply bind_Ok in H. destruct H as (img & _ & H).
    apply Ok_inj in H. subst res. exact I.
  - apply Ok_inj in H. subst res. apply lit_nonempty.
Qed.

(** C10.  [generate_background] returns either an image and no message,
    or no image and a non-empty message: never neither, never both. *)
Theorem generate_background_result_shape
    (prompt : pystr) (width height : Z) :
  match generate_background STABILITY_API_KEY post open_image json_repr
          prompt width height with
  | (Some _, None) => True
  | (None, Some msg) => msg <> []
  | _ => False
  end.
Proof.
  change (well_shaped
            (generate_background STABILITY_API_KEY post open_image
               json_repr prompt width height)).
  unfold generate_background.
  destruct (negb (key_present STABILITY_API_KEY)); [apply lit_nonempty|].
  destruct (post prompt width height) as [msg | msg | r];
    try apply lit_app_nonempty.
  destruct (status_code r =? 200).
  - destruct (read_artifact open_image r) as [res | [k msg]] eqn:E.
    + eapply read_artifact_shape; eassumption.
    + destruct k; apply lit_app_nonempty.
  - destruct (status_code r =? 402); [apply lit_nonempty|].
    destruct (status_code r =? 401); [apply lit_nonempty|].
    destruct (status_code r =? 429); [apply lit_nonempty|].
    apply lit_app_nonempty.
Qed.

End BackgroundResult.

(** ** The generation loop *)

Section Loop.
Import PyStr PyFloat PIL ImageEdit ImageGen App.

Variable STABILITY_API_KEY : option pystr.
Variable post : Z -> pystr -> Z -> Z -> http_outcome.
Variable open_image : json -> result Image.
Variable json_repr : json -> pystr.
Variable convert_buffer : Image -> string -> result (Z -> Z -> rgba).
Variable lanczos : Image -> Z -> Z -> result (Z -> Z -> rgba).
Variable paste_other : Image -> Image -> Z * Z -> result Image.
Variable product_image logo_image : Image.

(** The background of variation [i + 1], as line 160 asks for it. *)
Let background_of (i : Z) (prompt : pystr) :=
  generate_background STABILITY_API_KEY (post i) open_image json_repr
    prompt 1024 1024.

Let composite_of (background : Image) :=
  create_composite convert_buffer lanczos paste_other background
    product_image logo_image
    default_product_size_ratio default_logo_size_ratio.

Let round_of := variation STABILITY_API_KEY post open_image json_repr
                  convert_buffer lanczos paste_other
                  product_image logo_image.

Let loop := variations STABILITY_API_KEY post open_image json_repr
              convert_buffer lanczos paste_other
              product_image logo_image.

Let campaign := generate_campaign STABILITY_API_KEY post open_image
                  json_repr convert_buffer lanczos paste_other
                  product_image logo_image.

Lemma requested_app (t1 t2 : list event) :
  requested (t1 ++ t2) = requested t1 ++ requested t2.
Proof.
  induction t1 as [|e t1 IH]; [reflexivity|].
  destruct e; cbn [app requested]; rewrite ?IH; reflexivity.
Qed.

Ltac close_round :=
  cbn [fst snd show record_failure record_composite
         composites failed_generations trace variation_num];
  first
    [ reflexivity
    | rewrite <- app_assoc; reflexivity
    | rewrite <- !app_assoc; reflexivity
    | let n := fresh "n" in
      let Hn := fresh "Hn" in
      intros n Hn; cbn in Hn;
      first [ contradiction
            | destruct Hn as [<- | []]; reflexivity ] ].

Lemma on_exception_skips (s : session) (i : Z) (e : exn) :
  round_result i s (fst (on_exception s i e)) (snd (on_exception s i e)).
Proof.
  unfold on_exception. cbn [fst snd].
  eapply round_skipped with (es := []); close_round.
Qed.

Lemma round_of_result (i total : Z) (prompt : pystr)
    (captions : list pystr) (s : session) :
  round_result i s (fst (round_of i total prompt captions s))
               (snd (round_of i total prompt captions s)).
Proof.
  unfold round_of, variation.
  destruct (progress_percent i total) as [percent | e];
    [|apply on_exception_skips].
  pose (seen := [progress percent;
                status_text (palette ++ lit "Generating variation "
                             ++ str_of_int (i + 1) ++ lit "/"
                             ++ str_of_int total ++ lit "...");
                background_requested (i + 1) prompt]).
  change (show s _) with (show s seen).
  destruct (generate_background STABILITY_API_KEY (post i) open_image
              json_repr prompt 1024 1024) as [[background|] message].
  - destruct (create_composite convert_buffer lanczos paste_other
                background product_image logo_image
                default_product_size_ratio default_logo_size_ratio)
      as [composite | e].
    + destruct (pick_caption captions i) as [c | e].
      * eapply round_succeeded with (es := seen ++ [sleep_half_second]);
          close_round.
      * unfold on_exception.
        eapply round_skipped with (es := seen); close_round.
    + unfold on_exception.
      eapply round_skipped with (es := seen); close_round.
  - destruct message as [msg|].
    + destruct (truthy msg).
      * destruct (is_credits_error msg).
        -- eapply round_aborted with (es := seen); close_round.
        -- eapply round_skipped with (es := seen); close_round.
      * eapply round_skipped with (es := seen); close_round.
    + eapply round_skipped with (es := seen); close_round.
Qed.



(** A round whose background is missing stores no composite and records
    the variation as failed. *)
Lemma round_background_none (i total : Z) (prompt : pystr)
    (captions : list pystr) (s : session) :
  fst (background_of i prompt) = None ->
  composites (fst (round_of i total prompt captions s)) = composites s
  /\ failed_generations (fst (round_of i total prompt captions s))
     = failed_generations s ++ [i + 1].
Proof.
  unfold round_of, variation, background_of, on_exception.
  destruct (progress_percent i total) as [percent | e];
    [|split; reflexivity].
  destruct (generate_background STABILITY_API_KEY (post i) open_image
              json_repr prompt 1024 1024) as [[background|] [msg|]];
    cbn [fst]; try discriminate; intros _.
  - destruct (truthy msg); [destruct (is_credits_error msg)|];
      split; reflexivity.
  - split; reflexivity.
Qed.



Lemma existsb_is_zip_app (t1 t2 : list event) :
  existsb is_zip (t1 ++ t2) = existsb is_zip t1 || existsb is_zip t2.
Proof. apply existsb_app. Qed.

Lemma no_zip_not_in (t : list event) (members : list zip_member) :
  existsb is_zip t = false -> ~ In (zip_written members) t.
Proof.
  intros Hno Hin.
  assert (Hyes : existsb is_zip t = true)
    by (apply existsb_exists; exists (zip_written members); auto).
  congruence.
Qed.

(** The loop writes no archive, and when it stops the last thing it
    did was to report an error. *)
Lemma loop_trace (prompts : list pystr) :
  forall (i total : Z) (captions : list pystr) (s : session),
  exists es,
    trace (fst (loop i total prompts captions s)) = trace s ++ es
    /\ existsb is_zip es = false
    /\ (snd (loop i total prompts captions s) = Stop ->
        exists t msg, es = t ++ [st_error msg]).
Proof.
  induction prompts as [|prompt rest IH]; intros i total captions s.
  - exists []. cbn. rewrite app_nil_r.
    repeat split; try reflexivity. discriminate.
  - unfold loop. cbn [variations]. fold round_of. fold loop.
    pose proof (round_of_result i total prompt captions s) as Hr.
    destruct (round_of i total prompt captions s) as [s1 c1].
    cbn [fst snd] in Hr.
    inversion Hr as [msg es Hc Hf Htr Hz Hrq
                    | msg es Hc Hf Htr Hz Hrq
                    | c es Hc Hv Hf Htr Hz Hrq]; subst c1.
    + exists (es ++ [st_error (cross_mark ++ msg)]). cbn [fst snd].
      split; [assumption|]. split.
      * rewrite existsb_is_zip_app. rewrite Hz. reflexivity.
      * intros _. eauto.
    + destruct (IH (i + 1) total captions s1) as (es' & Ht & Hzip & Hs).
      exists ((es ++ [st_warning (warning_sign ++ msg)]) ++ es').
      split; [|split].
      * rewrite Ht, Htr. rewrite !app_assoc. reflexivity.
      * rewrite !existsb_is_zip_app. rewrite Hz, Hzip. reflexivity.
      * intros Hstop. destruct (Hs Hstop) as (t & m & ->).
        exists ((es ++ [st_warning (warning_sign ++ msg)]) ++ t), m.
        rewrite app_assoc. reflexivity.
    + destruct (IH (i + 1) total captions s1) as (es' & Ht & Hzip & Hs).
      exists (es ++ es'). split; [|split].
      * rewrite Ht, Htr. rewrite app_assoc. reflexivity.
      * rewrite existsb_is_zip_app. rewrite Hz, Hzip. reflexivity.
      * intros Hstop. destruct (Hs Hstop) as (t & m & ->).
        exists (es ++ t), m. rewrite app_assoc. reflexivity.
Qed.

(** When no background can be generated, the loop stores nothing. *)
Lemma loop_without_backgrounds (prompts : list pystr) :
  forall (i total : Z) (captions : list pystr) (s : session),
    (forall k prompt,
        nth_error prompts k = Some prompt ->
        fst (background_of (i + Z.of_nat k) prompt) = None) ->
    composites (fst (loop i total prompts captions s)) = composites s.
Proof.
  induction prompts as [|prompt rest IH]; intros i total captions s Hall.
  - reflexivity.
  - unfold loop. cbn [variations]. fold round_of. fold loop.
    assert (Hnone : fst (background_of i prompt) = None).
    { specialize (Hall 0%nat prompt eq_refl).
      rewrite Z.add_0_r in Hall. exact Hall. }
    destruct (round_background_none i total prompt captions s Hnone)
      as [Hcomp _].
    destruct (round_of i total prompt captions s) as [s1 c1].
    cbn [fst] in Hcomp. destruct c1; [|exact Hcomp].
    rewrite IH; [exact Hcomp|].
    intros k p Hk. specialize (Hall (S k) p Hk).
    replace (i + 1 + Z.of_nat k) with (i + Z.of_nat (S k)) by lia.
    exact Hall.
Qed.

(** After the loop: with no composite the run stops on an error
    message and writes nothing; with one it goes on, keeping them. *)
Lemma conclude_spec (s : session) :
  existsb is_zip (trace s) = false ->
  match composites s with
  | [] =>
      snd (conclude s) = Stop
      /\ composites (fst (conclude s)) = []
      /\ existsb is_zip (trace (fst (conclude s))) = false
      /\ exists t msg, trace (fst (conclude s)) = t ++ [st_error msg]
  | _ :: _ =>
      snd (conclude s) = Continue
      /\ composites (fst (conclude s)) = composites s
  end.
Proof.
  intros Hzip. unfold conclude. cbn [show composites].
  destruct (composites s) as [|c cs] eqn:Ecs.
  - cbn [fst snd show composites trace].
    split; [reflexivity|]. split; [assumption|]. split.
    + rewrite !existsb_is_zip_app, Hzip. reflexivity.
    + eauto.
  - cbn [fst snd]. split; [reflexivity|].
    unfold present_and_package. cbn [show composites failed_generations].
    destruct (failed_generations s); cbn [show composites]; assumption.
Qed.

(** C9.  The archive is written only when at least one composite was
    stored; and when every background generation fails, the run stops
    with an error message, no composite and no archive. *)
Theorem no_success_no_archive (prompts captions : list pystr) :
  (forall members,
      In (zip_written members) (trace (fst (campaign prompts captions))) ->
      composites (fst (campaign prompts captions)) <> []
      /\ snd (campaign prompts captions) = Continue)
  /\ ((forall k prompt,
          nth_error prompts k = Some prompt ->
          fst (background_of (Z.of_nat k) prompt) = None) ->
      snd (campaign prompts captions) = Stop
      /\ composites (fst (campaign prompts captions)) = []
      /\ (forall members,
             ~ In (zip_written members)
                  (trace (fst (campaign prompts captions))))
      /\ exists t msg,
           trace (fst (campaign prompts captions)) = t ++ [st_error msg]).
Proof.
  unfold campaign, generate_campaign. fold loop.
  set (s0 := {| composites := []; failed_generations := [];
                trace := [status_text
                            (palette
                             ++ lit "Generating backgrounds and creating composites...");
                          progress 40] |}).
  destruct (loop_trace prompts 0 (len prompts) captions s0)
    as (es & Htrace & Hzip & Hstop).
  pose proof (loop_without_backgrounds prompts 0 (len prompts) captions s0)
    as Hnone.
  destruct (loop 0 (len prompts) prompts captions s0) as [s1 c1].
  cbn [fst snd] in *.
  assert (Hzip1 : existsb is_zip (trace s1) = false).
  { rewrite Htrace, existsb_is_zip_app, Hzip. reflexivity. }
  pose proof (conclude_spec s1 Hzip1) as Hend.
  split.
  - intros members Hin. destruct c1.
    + destruct (composites s1) as [|c cs] eqn:Ecs.
      * exfalso. destruct Hend as (_ & _ & Hz & _).
        exact (no_zip_not_in _ _ Hz Hin).
      * destruct Hend as [Hcont Hcomp]. split; [|assumption].
        rewrite Hcomp. discriminate.
    + exfalso. exact (no_zip_not_in _ _ Hzip1 Hin).
  - intros Hall.
    assert (Hempty : composites s1 = []).
    { apply Hnone. intros k p Hk. rewrite Z.add_0_l. apply Hall, Hk. }
    rewrite Hempty in Hend. destruct c1.
    + destruct Hend as (Hs & Hc & Hz & Hlast).
      split; [assumption|]. split; [assumption|]. split; [|assumption].
      intros members Hin. exact (no_zip_not_in _ _ Hz Hin).
    + cbn [fst snd]. split; [reflexivity|]. split; [exact Hempty|]. split.
      * intros members Hin. exact (no_zip_not_in _ _ Hzip1 Hin).
      * destruct (Hstop eq_refl) as (t & msg & ->).
        exists (trace s0 ++ t), msg. rewrite Htrace, app_assoc.
        reflexivity.
Qed.

End Loop.

Section LoopSamples.
Import PyStr PyFloat PIL ImageEdit ImageGen App Layout.


(** The same service, seen from the whole run: it stops without an
    archive. *)
Lemma no_success_no_archive_witness :
  snd (generate_campaign sample_key out_of_credits no_image no_repr
         sample_convert sample_resample sample_paste
         square_product wide_logo three_prompts one_caption) = Stop
  /\ composites
       (fst (generate_campaign sample_key out_of_credits no_image no_repr
               sample_convert sample_resample sample_paste
               square_product wide_logo three_prompts one_caption)) = [].
Proof.
  destruct (proj2 (no_success_no_archive
                     sample_key out_of_credits no_image no_repr
                     sample_convert sample_resample sample_paste
                     square_product wide_logo three_prompts one_caption))
    as (Hstop & Hempty & _).
  - intros k prompt _. reflexivity.
  - split; assumption.
Defined.

End LoopSamples.

(** * Further properties of the code *)

(** ** Where the layout puts the two overlays *)

Section LayoutBounds.
Import PyFloat PIL ImageEdit Layout.

Ltac inv_bind H :=
  let a := fresh "v" in
  let E := fresh "E" in
  apply bind_Ok in H; destruct H as (a & E & H).

(** [int(n * c)] for [0 <= n < 2 ^ 31] and a positive double [c] with a
    full mantissa: a natural number that exceeds the exact product by
    less than one unit of [2 ^ 31 * 2 ^ ec]. *)
Lemma int_times_constant (n : Z) (mc : positive) (ec : Z) (v : float)
    (k : Z) :
  0 <= n < 2 ^ 31 ->
  2 ^ 52 <= Z.pos mc < 2 ^ 53 ->
  -1000 <= ec <= -31 ->
  int_mul_float n (S754_finite false mc ec) = Ok v ->
  int_of_float v = Ok k ->
  0 <= k /\ k * 2 ^ (- ec) <= n * Z.pos mc + 2 ^ 31.
Proof.
  intros Hn Hmc Hec Hv Hk.
  destruct (Z.eq_dec n 0) as [-> | Hnz].
  - cbn in Hv. apply Ok_inj in Hv. subst v.
    cbn in Hk. apply Ok_inj in Hk. subst k. cbn. lia.
  - destruct (int_mul_float_upper n mc ec) as (lim & Hlim & Hfin & Hup);
      try lia.
    rewrite Hlim in Hv. apply Ok_inj in Hv. subst v.
    destruct (int_of_float_floor lim k Hfin Hk) as (Hk0 & Hle & _).
    split; [assumption | apply Hup; assumption].
Qed.

(** The width the product is resized to never exceeds the double
    [bg_width * 0.9]. *)
Lemma target_width_below_limit (W H : Z) (product : Image)
    (ratio : float) (tw th : Z) :
  0 <= W < 2 ^ 31 ->
  product_target_size W H product ratio = Ok (tw, th) ->
  10 * tw <= 9 * W.
Proof.
  intros HW Hs.
  destruct (limit_0_9 W HW) as (lim & Hlim & Hfin & Hup).
  apply product_target_size_inv in Hs.
  destruct Hs as (w0 & h0 & aspect & limit & _ & Hl & Hbranch).
  rewrite Hlim in Hl. apply Ok_inj in Hl. subst limit.
  apply Hup.
  destruct (int_gt_float w0 lim) eqn:Egt.
  - destruct Hbranch as [Hint _].
    apply (int_of_float_floor lim tw Hfin Hint).
  - destruct Hbranch as [-> _]. apply not_gt_le; assumption.
Qed.

(** X1.  The product's box never leaves the background sideways: its
    left edge is at a column that is not negative and its right edge is
    at most the background's width, whatever the product's shape and
    the size ratio. *)
Theorem product_box_within_width
    (W H : Z) (product : Image) (ratio : float) (tw th x y : Z) :
  0 <= W < 2 ^ 31 ->
  product_layout W H product ratio = Ok (tw, th, x, y) ->
  0 <= x /\ x + tw <= W.
Proof.
  intros HW Hl. unfold product_layout in Hl.
  inv_bind Hl. destruct v as [tw' th']. inv_bind Hl.
  destruct v as [x' y']. apply Ok_inj in Hl.
  injection Hl as -> -> -> ->.
  pose proof (target_width_below_limit W H product ratio tw th HW E)
    as Htw.
  apply product_position_inv in E0.
  destruct E0 as (margin & _ & -> & _).
  pose proof (Z.mod_pos_bound (W - tw) 2 ltac:(lia)) as Hmod.
  pose proof (Z.div_mod (W - tw) 2 ltac:(lia)) as Hdm.
  lia.
Qed.

(** X2.  With the default size ratio the height computed from the
    background is a natural number of at most 40% of the background's
    height, and the bottom margin of the product is a natural number of
    at most 5% of it: the product's lower edge is at or above the
    background's. *)
Theorem default_height_and_bottom_margin (W H : Z) :
  0 <= H < 2 ^ 31 ->
  (forall product w0 h0 aspect,
      product_default_size H product default_product_size_ratio
      = Ok (w0, h0, aspect) ->
      0 <= h0 /\ 10 * h0 <= 4 * H)
  /\ (forall tw th x y,
         product_position W H tw th = Ok (x, y) ->
         0 <= H - (y + th) /\ 20 * (H - (y + th)) <= H).
Proof.
  intros HH. split.
  - intros product w0 h0 aspect Hd.
    apply product_default_size_inv in Hd.
    destruct Hd as ((h & Hh & Hint) & _ & _).
    destruct (int_times_constant H 7205759403792794 (-54) h h0)
      as [H0 Hup]; [lia | lia | lia | exact Hh | exact Hint |].
    change (- -54) with 54 in Hup. lia.
  - intros tw th x y Hp.
    apply product_position_inv in Hp.
    destruct Hp as (margin & (m & Hm & Hint) & _ & ->).
    destruct (int_times_constant H 7205759403792794 (-57) m margin)
      as [H0 Hup]; [lia | lia | lia | exact Hm | exact Hint |].
    change (- -57) with 57 in Hup. lia.
Qed.

(** X3.  With the default size ratio the logo's box lies between the
    left and the right edge of the background: the logo is at most 15%
    of the background's width wide, its margin at most 2%, and the box
    ends exactly one margin before the right edge and starts one margin
    below the top. *)
Theorem logo_box_within_width
    (W : Z) (logo : Image) (lw lh x y : Z) :
  0 <= W < 2 ^ 31 ->
  logo_layout W logo default_logo_size_ratio = Ok (lw, lh, x, y) ->
  0 <= lw /\ 20 * lw <= 3 * W
  /\ 0 <= y /\ 50 * y <= W
  /\ 0 <= x /\ x + lw + y = W.
Proof.
  intros HW Hl. unfold logo_layout in Hl.
  inv_bind Hl. destruct v as [lw' lh']. inv_bind Hl.
  destruct v as [x' y']. apply Ok_inj in Hl.
  injection Hl as -> -> -> ->.
  apply logo_target_size_inv in E.
  destruct E as ((w & Hw & Hint) & _).
  apply logo_position_inv in E0.
  destruct E0 as (margin & (m & Hm & Hmint) & -> & ->).
  destruct (int_times_constant W 5404319552844595 (-55) w lw)
    as [Hlw0 Hlw]; [lia | lia | lia | exact Hw | exact Hint |].
  destruct (int_times_constant W 5764607523034235 (-58) m margin)
    as [Hm0 Hmup]; [lia | lia | lia | exact Hm | exact Hmint |].
  change (- -55) with 55 in Hlw. change (- -58) with 58 in Hmup. lia.
Qed.

End LayoutBounds.

Section LayoutBoundsSamples.
Import PyFloat PIL ImageEdit Layout.

Lemma product_box_within_width_witness : 0 <= 51 /\ 51 + 921 <= 1024.
Proof.
  apply (product_box_within_width 1024 1024 wide_product f0_4
           921 131 51 842).
  - lia.
  - vm_compute. reflexivity.
Defined.

Lemma default_height_and_bottom_margin_witness :
  0 <= 409 /\ 10 * 409 <= 4 * 1024.
Proof.
  apply (proj1 (default_height_and_bottom_margin 1024 1024 ltac:(lia))
           square_product 409 409 f1).
  vm_compute. reflexivity.
Defined.

Lemma logo_box_within_width_witness :
  0 <= 153 /\ 20 * 153 <= 3 * 1024
  /\ 0 <= 20 /\ 50 * 20 <= 1024
  /\ 0 <= 851 /\ 851 + 153 + 20 = 1024.
Proof.
  apply (logo_box_within_width 1024 wide_logo 153 76 851 20).
  - lia.
  - vm_compute. reflexivity.
Defined.

End LayoutBoundsSamples.

(** ** The composite, pixel by pixel *)

Section LayerProperties.
Import PyFloat PIL ImageEdit Layout Layers.

Variable convert_buffer : Image -> string -> result (Z -> Z -> rgba).
Variable lanczos : Image -> Z -> Z -> result (Z -> Z -> rgba).
Variable paste_other : Image -> Image -> Z * Z -> result Image.

Ltac inv_bind H :=
  let a := fresh "v" in
  let E := fresh "E" in
  apply bind_Ok in H; destruct H as (a & E & H).

Lemma prepare_image_shape (image out : Image) (m : string) :
  _prepare_image convert_buffer image m = Ok out ->
  mode out = m /\ width out = width image /\ height out = height image.
Proof.
  unfold _prepare_image.
  destruct (String.eqb_spec (mode image) m) as [Heq | Hne]; cbn [negb].
  - intros H. apply Ok_inj in H. subst out. auto.
  - destruct (String.eqb_spec m "RGBA") as [-> | Hm]; cbn [andb].
    + destruct (String.eqb (mode image) "RGB"); intros H;
        apply (Image_convert_shape convert_buffer) in H; exact H.
    + intros H. apply (Image_convert_shape convert_buffer) in H. exact H.
Qed.

Lemma resize_shape (im out : Image) (w h : Z) :
  Image_resize lanczos im (w, h) = Ok out ->
  mode out = mode im /\ width out = w /\ height out = h.
Proof.
  unfold Image_resize.
  destruct ((width im =? w) && (height im =? h)) eqn:Esame.
  - apply andb_true_iff in Esame. destruct Esame as [Hw Hh].
    apply Z.eqb_eq in Hw, Hh.
    intros H. apply Ok_inj in H. subst out. cbn. auto.
  - destruct (c_int w && c_int h && ((w <? 1) || (h <? 1)));
      [discriminate|].
    intros H. inv_bind H. apply Ok_inj in H. subst out. cbn. auto.
Qed.

(** [_paste_with_alpha] composites, pixel by pixel, the overlay's layer
    over the base. *)
Lemma paste_with_alpha_pixels (base overlay out : Image) (x y : Z) :
  mode overlay = "RGBA"%string ->
  _paste_with_alpha paste_other base overlay (x, y) = Ok out ->
  forall i j,
    getpixel out i j
    = alpha_composite_pixel (getpixel base i j)
                            (layer_pixel overlay x y i j).
Proof.
  intros Ho. unfold _paste_with_alpha, Image_paste. rewrite Ho.
  cbn [String.eqb Ascii.eqb Bool.eqb bind].
  unfold Image_alpha_composite.
  destruct (negb (String.eqb (mode base) "RGBA")); [discriminate|].
  destruct (negb _); [discriminate|].
  intros H. apply Ok_inj in H. subst out. reflexivity.
Qed.

Lemma layer_pixel_outside (overlay : Image) (x y i j : Z) :
  ~ in_box x y (width overlay) (height overlay) i j ->
  layer_pixel overlay x y i j = Pixel 0 0 0 0.
Proof.
  intros Hn. unfold layer_pixel.
  destruct ((x <=? i) && (i <? x + width overlay) && (y <=? j)
            && (j <? y + height overlay)) eqn:Ein; [|reflexivity].
  rewrite !andb_true_iff, !Z.leb_le, !Z.ltb_lt in Ein.
  exfalso. apply Hn. unfold in_box. lia.
Qed.

Lemma layer_pixel_inside (overlay : Image) (x y i j : Z) :
  in_box x y (width overlay) (height overlay) i j ->
  layer_pixel overlay x y i j
  = paste_mask_RGBA (Pixel 0 0 0 0) (getpixel overlay (i - x) (j - y))
                    (getpixel overlay (i - x) (j - y)).
Proof.
  intros [Hi Hj]. unfold layer_pixel.
  replace ((x <=? i) && (i <? x + width overlay) && (y <=? j)
           && (j <? y + height overlay)) with true; [reflexivity|].
  symmetry. rewrite !andb_true_iff, !Z.leb_le, !Z.ltb_lt. lia.
Qed.

(** A layer is transparent outside its box and wherever the overlay
    is. *)
Lemma layer_pixel_clear (overlay : Image) (x y i j : Z) :
  (in_box x y (width overlay) (height overlay) i j ->
   alpha (getpixel overlay (i - x) (j - y)) = 0) ->
  layer_pixel overlay x y i j = Pixel 0 0 0 0.
Proof.
  intros Hclear. unfold layer_pixel.
  destruct ((x <=? i) && (i <? x + width overlay) && (y <=? j)
            && (j <? y + height overlay)) eqn:Ein; [|reflexivity].
  rewrite !andb_true_iff, !Z.leb_le, !Z.ltb_lt in Ein.
  cbv zeta. apply paste_mask_RGBA_transparent. apply Hclear.
  unfold in_box. lia.
Qed.

Lemma layer_pixel_opaque (overlay : Image) (x y i j : Z) :
  in_box x y (width overlay) (height overlay) i j ->
  pixel_ok (getpixel overlay (i - x) (j - y)) ->
  alpha (getpixel overlay (i - x) (j - y)) = 255 ->
  layer_pixel overlay x y i j = getpixel overlay (i - x) (j - y).
Proof.
  intros Hin Hok H255. rewrite layer_pixel_inside by assumption.
  apply paste_mask_RGBA_opaque; assumption.
Qed.

Lemma product_layout_size_only (W H : Z) (p q : Image) (ratio : float) :
  width p = width q -> height p = height q ->
  product_layout W H p ratio = product_layout W H q ratio.
Proof.
  intros Hw Hh.
  unfold product_layout, product_target_size, product_default_size.
  rewrite Hw, Hh. reflexivity.
Qed.

Lemma logo_layout_size_only (W : Z) (p q : Image) (ratio : float) :
  width p = width q -> height p = height q ->
  logo_layout W p ratio = logo_layout W q ratio.
Proof.
  intros Hw Hh. unfold logo_layout, logo_target_size.
  rewrite Hw, Hh. reflexivity.
Qed.

(** The steps of a [create_composite] that returns: the converted
    background, the two resized overlays, their layouts, and the pixel
    of the result as the three layers composited in order. *)
Lemma create_composite_layers
    (background product logo out : Image) (r1 r2 : float) :
  create_composite convert_buffer lanczos paste_other
    background product logo r1 r2 = Ok out ->
  exists bg pr lr tw th px py lw lh lx ly,
    background_as_rgba convert_buffer background = Ok bg
    /\ width bg = width background /\ height bg = height background
    /\ resized_product convert_buffer lanczos
         (width background) (height background) product r1 = Ok pr
    /\ product_layout (width background) (height background) product r1
       = Ok (tw, th, px, py)
    /\ mode pr = "RGBA"%string /\ width pr = tw /\ height pr = th
    /\ resized_logo convert_buffer lanczos (width background) logo r2
       = Ok lr
    /\ logo_layout (width background) logo r2 = Ok (lw, lh, lx, ly)
    /\ mode lr = "RGBA"%string /\ width lr = lw /\ height lr = lh
    /\ forall i j,
        getpixel out i j
        = alpha_composite_pixel
            (alpha_composite_pixel (getpixel bg i j)
                                   (layer_pixel pr px py i j))
            (layer_pixel lr lx ly i j).
Proof.
  unfold create_composite. intros H.
  inv_bind H. rename v into bg, E into Hbg.
  assert (Hsize : width bg = width background
                  /\ height bg = height background).
  { destruct (negb (String.eqb (mode background) "RGBA")).
    - apply Image_convert_shape in Hbg. tauto.
    - apply Ok_inj in Hbg. subst bg. auto. }
  destruct Hsize as [HW HH].
  inv_bind H. rename v into product', E into Hp.
  cbn [size Image_copy width height] in H.
  inv_bind H. destruct v as [tw th]. rename E into Hts.
  inv_bind H. rename v into pr, E into Hpr.
  inv_bind H. destruct v as [px py]. rename E into Hpp.
  inv_bind H. rename v into c1, E into Hc1.
  inv_bind H. rename v into logo', E into Hl.
  inv_bind H. destruct v as [lw lh]. rename E into Hls.
  inv_bind H. rename v into lr, E into Hlr.
  inv_bind H. destruct v as [lx ly]. rename E into Hlp.
  inv_bind H. rename v into c2, E into Hc2.
  apply Ok_inj in H. subst c2.
  rewrite HW, HH in *.
  destruct (prepare_image_shape _ _ _ Hp) as (Hpm & Hpw & Hph).
  destruct (prepare_image_shape _ _ _ Hl) as (Hlm & Hlw & Hlh).
  destruct (resize_shape _ _ _ _ Hpr) as (Hprm & Hprw & Hprh).
  destruct (resize_shape _ _ _ _ Hlr) as (Hlrm & Hlrw & Hlrh).
  rewrite Hpm in Hprm. rewrite Hlm in Hlrm.
  exists bg, pr, lr, tw, th, px, py, lw, lh, lx, ly.
  split; [exact Hbg|]. split; [exact HW|]. split; [exact HH|].
  split.
  { unfold resized_product. rewrite Hp. cbn [bind]. rewrite Hts.
    cbn [bind]. exact Hpr. }
  split.
  { rewrite (product_layout_size_only _ _ product product')
      by (symmetry; assumption).
    unfold product_layout. rewrite Hts. cbn [bind]. rewrite Hpp.
    reflexivity. }
  split; [exact Hprm|]. split; [exact Hprw|]. split; [exact Hprh|].
  split.
  { unfold resized_logo. rewrite Hl. cbn [bind]. rewrite Hls.
    cbn [bind]. exact Hlr. }
  split.
  { rewrite (logo_layout_size_only _ logo logo')
      by (symmetry; assumption).
    unfold logo_layout. rewrite Hls. cbn [bind]. rewrite Hlp.
    reflexivity. }
  split; [exact Hlrm|]. split; [exact Hlrw|]. split; [exact Hlrh|].
  intros i j.
  rewrite (paste_with_alpha_pixels _ _ _ _ _ Hlrm Hc2 i j).
  rewrite (paste_with_alpha_pixels _ _ _ _ _ Hprm Hc1 i j).
  reflexivity.
Qed.

Lemma create_composite_boxes
    (background product logo out : Image) (r1 r2 : float) :
  create_composite convert_buffer lanczos paste_other
    background product logo r1 r2 = Ok out ->
  exists bg pr lr px py lx ly,
    background_as_rgba convert_buffer background = Ok bg
    /\ resized_product convert_buffer lanczos
         (width background) (height background) product r1 = Ok pr
    /\ resized_logo convert_buffer lanczos (width background) logo r2
       = Ok lr
    /\ product_layout (width background) (height background) product r1
       = Ok (width pr, height pr, px, py)
    /\ logo_layout (width background) logo r2
       = Ok (width lr, height lr, lx, ly)
    /\ forall i j,
        getpixel out i j
        = alpha_composite_pixel
            (alpha_composite_pixel (getpixel bg i j)
                                   (layer_pixel pr px py i j))
            (layer_pixel lr lx ly i j).
Proof.
  intros H. apply create_composite_layers in H.
  destruct H as (bg & pr & lr & tw & th & px & py & lw & lh & lx & ly
                 & Hbg & _ & _ & Hpr & Hpl & _ & Hpw & Hph
                 & Hlr & Hll & _ & Hlw & Hlh & Hpix).
  exists bg, pr, lr, px, py, lx, ly.
  rewrite Hpw, Hph, Hlw, Hlh. auto 10.
Qed.

(** X4.  In the image [create_composite] returns, a pixel that the
    product box does not cover or where the resized product is fully
    transparent, and that the logo box does not cover or where the
    resized logo is fully transparent, is the pixel of the background
    (converted to RGBA).  The boxes are those of the layout: the size of
    the resized overlay at the computed position. *)
Theorem composite_shows_background_where_overlays_are_clear
    (background product logo out : Image) (r1 r2 : float) :
  create_composite convert_buffer lanczos paste_other
    background product logo r1 r2 = Ok out ->
  exists bg pr lr px py lx ly,
    background_as_rgba convert_buffer background = Ok bg
    /\ resized_product convert_buffer lanczos
         (width background) (height background) product r1 = Ok pr
    /\ resized_logo convert_buffer lanczos (width background) logo r2
       = Ok lr
    /\ product_layout (width background) (height background) product r1
       = Ok (width pr, height pr, px, py)
    /\ logo_layout (width background) logo r2
       = Ok (width lr, height lr, lx, ly)
    /\ forall i j,
        (in_box px py (width pr) (height pr) i j ->
         alpha (getpixel pr (i - px) (j - py)) = 0) ->
        (in_box lx ly (width lr) (height lr) i j ->
         alpha (getpixel lr (i - lx) (j - ly)) = 0) ->
        getpixel out i j = getpixel bg i j.
Proof.
  intros H. apply create_composite_boxes in H.
  destruct H as (bg & pr & lr & px & py & lx & ly
                 & Hbg & Hpr & Hlr & Hpl & Hll & Hpix).
  exists bg, pr, lr, px, py, lx, ly.
  repeat (split; [assumption|]).
  intros i j Hp Hl. rewrite Hpix.
  rewrite (layer_pixel_clear lr) by exact Hl.
  rewrite (layer_pixel_clear pr) by exact Hp.
  reflexivity.
Qed.

(** X5.  The logo is on top: in the image [create_composite] returns,
    a pixel inside the logo box where the resized logo is fully opaque
    is the logo's pixel, whatever the background and the product are
    there. *)
Theorem composite_shows_opaque_logo
    (background product logo out : Image) (r1 r2 : float) :
  create_composite convert_buffer lanczos paste_other
    background product logo r1 r2 = Ok out ->
  exists lr lx ly,
    resized_logo convert_buffer lanczos (width background) logo r2
    = Ok lr
    /\ logo_layout (width background) logo r2
       = Ok (width lr, height lr, lx, ly)
    /\ forall i j,
        in_box lx ly (width lr) (height lr) i j ->
        pixel_ok (getpixel lr (i - lx) (j - ly)) ->
        alpha (getpixel lr (i - lx) (j - ly)) = 255 ->
        getpixel out i j = getpixel lr (i - lx) (j - ly).
Proof.
  intros H. apply create_composite_boxes in H.
  destruct H as (bg & pr & lr & px & py & lx & ly
                 & Hbg & Hpr & Hlr & Hpl & Hll & Hpix).
  exists lr, lx, ly.
  repeat (split; [assumption|]).
  intros i j Hin Hok H255. rewrite Hpix.
  rewrite (layer_pixel_opaque lr) by assumption.
  apply alpha_composite_pixel_opaque; assumption.
Qed.

(** X6.  The product is above the background and below the logo: a
    pixel inside the product box where the resized product is fully
    opaque is the product's pixel, provided the logo box does not cover
    it or the resized logo is fully transparent there. *)
Theorem composite_shows_opaque_product_under_clear_logo
    (background product logo out : Image) (r1 r2 : float) :
  create_composite convert_buffer lanczos paste_other
    background product logo r1 r2 = Ok out ->
  exists pr lr px py lx ly,
    resized_product convert_buffer lanczos
      (width background) (height background) product r1 = Ok pr
    /\ resized_logo convert_buffer lanczos (width background) logo r2
       = Ok lr
    /\ product_layout (width background) (height background) product r1
       = Ok (width pr, height pr, px, py)
    /\ logo_layout (width background) logo r2
       = Ok (width lr, height lr, lx, ly)
    /\ forall i j,
        in_box px py (width pr) (height pr) i j ->
        pixel_ok (getpixel pr (i - px) (j - py)) ->
        alpha (getpixel pr (i - px) (j - py)) = 255 ->
        (in_box lx ly (width lr) (height lr) i j ->
         alpha (getpixel lr (i - lx) (j - ly)) = 0) ->
        getpixel out i j = getpixel pr (i - px) (j - py).
Proof.
  intros H. apply create_composite_boxes in H.
  destruct H as (bg & pr & lr & px & py & lx & ly
                 & Hbg & Hpr & Hlr & Hpl & Hll & Hpix).
  exists pr, lr, px, py, lx, ly.
  repeat (split; [assumption|]).
  intros i j Hin Hok H255 Hl. rewrite Hpix.
  rewrite (layer_pixel_clear lr) by exact Hl.
  rewrite alpha_composite_pixel_transparent by reflexivity.
  rewrite (layer_pixel_opaque pr) by assumption.
  apply alpha_composite_pixel_opaque; assumption.
Qed.

End LayerProperties.

Section LayerSamples.
Import PyFloat PIL ImageEdit Layout Layers.

Lemma sample_composite_returns :
  is_ok (create_composite sample_convert sample_resample sample_paste
           background_1024 square_product wide_logo f0_4 f0_15) = true.
Proof. vm_compute. reflexivity. Qed.

Lemma sample_product_layout :
  product_layout 1024 1024 square_product f0_4 = Ok (409, 409, 307, 564).
Proof. vm_compute. reflexivity. Qed.

Lemma sample_logo_layout :
  logo_layout 1024 wide_logo f0_15 = Ok (153, 76, 851, 20).
Proof. vm_compute. reflexivity. Qed.

Lemma sample_background :
  background_as_rgba sample_convert background_1024
  = Ok (solid "RGBA" 1024 1024 (Pixel 240 240 245 255)).
Proof. reflexivity. Qed.

(** The corner of the sample composite is outside both boxes, and shows
    the background. *)
Lemma composite_shows_background_where_overlays_are_clear_witness :
  exists out,
    create_composite sample_convert sample_resample sample_paste
      background_1024 square_product wide_logo f0_4 f0_15 = Ok out
    /\ getpixel out 0 0 = Pixel 240 240 245 255.
Proof.
  destruct (create_composite sample_convert sample_resample sample_paste
              background_1024 square_product wide_logo f0_4 f0_15)
    as [out | e] eqn:E;
    [|exact (False_ind _ (Bool.diff_false_true
                            (eq_trans (f_equal is_ok (eq_sym E))
                                      sample_composite_returns)))].
  exists out. split; [reflexivity|].
  destruct (composite_shows_background_where_overlays_are_clear
              sample_convert sample_resample sample_paste
              background_1024 square_product wide_logo out f0_4 f0_15 E)
    as (bg & pr & lr & px & py & lx & ly
        & Hbg & _ & _ & Hpl & Hll & Hpix).
  change (width background_1024) with 1024 in *.
  change (height background_1024) with 1024 in *.
  rewrite sample_background in Hbg. rewrite sample_product_layout in Hpl.
  rewrite sample_logo_layout in Hll.
  injection Hbg as <-. injection Hpl as Hw Hh <- <-.
  injection Hll as Hlw Hlh <- <-.
  rewrite Hpix; [reflexivity | |]; unfold in_box; intros; lia.
Defined.

Lemma sample_resized_logo (lr : Image) :
  resized_logo sample_convert sample_resample 1024 wide_logo f0_15
  = Ok lr ->
  forall i j, getpixel lr i j = Pixel 10 10 120 255.
Proof.
  intros H. vm_compute in H. injection H as <-. reflexivity.
Qed.

Lemma sample_resized_product (pr : Image) :
  resized_product sample_convert sample_resample 1024 1024
    square_product f0_4 = Ok pr ->
  forall i j, getpixel pr i j = Pixel 200 30 30 255.
Proof.
  intros H. vm_compute in H. injection H as <-. reflexivity.
Qed.

Ltac sample_composite out E :=
  destruct (create_composite sample_convert sample_resample sample_paste
              background_1024 square_product wide_logo f0_4 f0_15)
    as [out | ?] eqn:E;
  [|exact (False_ind _ (Bool.diff_false_true
                          (eq_trans (f_equal is_ok (eq_sym E))
                                    sample_composite_returns)))].

(** A pixel of the sample logo's box shows the logo. *)
Lemma composite_shows_opaque_logo_witness :
  exists out,
    create_composite sample_convert sample_resample sample_paste
      background_1024 square_product wide_logo f0_4 f0_15 = Ok out
    /\ getpixel out 900 30 = Pixel 10 10 120 255.
Proof.
  sample_composite out E.
  exists out. split; [reflexivity|].
  destruct (composite_shows_opaque_logo
              sample_convert sample_resample sample_paste
              background_1024 square_product wide_logo out f0_4 f0_15 E)
    as (lr & lx & ly & Hlr & Hll & Hpix).
  change (width background_1024) with 1024 in *.
  rewrite sample_logo_layout in Hll.
  injection Hll as Hlw Hlh <- <-.
  pose proof (sample_resized_logo lr Hlr) as Hlogo.
  rewrite Hpix, Hlogo.
  - reflexivity.
  - unfold in_box. lia.
  - rewrite Hlogo. unfold pixel_ok, byte_range. cbn. lia.
  - rewrite Hlogo. reflexivity.
Defined.

(** A pixel of the sample product's box, away from the logo, shows the
    product. *)
Lemma composite_shows_opaque_product_under_clear_logo_witness :
  exists out,
    create_composite sample_convert sample_resample sample_paste
      background_1024 square_product wide_logo f0_4 f0_15 = Ok out
    /\ getpixel out 500 700 = Pixel 200 30 30 255.
Proof.
  sample_composite out E.
  exists out. split; [reflexivity|].
  destruct (composite_shows_opaque_product_under_clear_logo
              sample_convert sample_resample sample_paste
              background_1024 square_product wide_logo out f0_4 f0_15 E)
    as (pr & lr & px & py & lx & ly & Hpr & Hlr & Hpl & Hll & Hpix).
  change (width background_1024) with 1024 in *.
  change (height background_1024) with 1024 in *.
  rewrite sample_product_layout in Hpl. rewrite sample_logo_layout in Hll.
  injection Hpl as Hw Hh <- <-. injection Hll as Hlw Hlh <- <-.
  pose proof (sample_resized_product pr Hpr) as Hproduct.
  rewrite Hpix, Hproduct.
  - reflexivity.
  - unfold in_box. lia.
  - rewrite Hproduct. unfold pixel_ok, byte_range. cbn. lia.
  - rewrite Hproduct. reflexivity.
  - unfold in_box. intros. lia.
Defined.

End LayerSamples.

(** ** What the prompt and caption lists hold *)

Section TextProperties.
Import PyStr TextLogic.

Variable post : pystr -> pystr -> gemini_reply.
Variable is_decimal : N -> bool.
Variable cfg : config.

(** *** Whitespace stripping *)

Lemma drop_while_head (f : N -> bool) (s : pystr) :
  match drop_while f s with
  | [] => True
  | c :: _ => f c = false
  end.
Proof.
  induction s as [|c s IH]; cbn [drop_while]; [exact I|].
  destruct (f c) eqn:E; [exact IH | exact E].
Qed.

Lemma is_suffix_refl (s : pystr) : is_suffix s s.
Proof. exists []. reflexivity. Qed.

Lemma is_suffix_cons (c : N) (t s : pystr) :
  is_suffix t s -> is_suffix t (c :: s).
Proof. intros [p ->]. exists (c :: p). reflexivity. Qed.

Lemma is_suffix_trans (u t s : pystr) :
  is_suffix u t -> is_suffix t s -> is_suffix u s.
Proof.
  intros [p ->] [q ->]. exists (q ++ p). rewrite app_assoc. reflexivity.
Qed.

Lemma drop_while_suffix (f : N -> bool) (s : pystr) :
  is_suffix (drop_while f s) s.
Proof.
  induction s as [|c s IH]; cbn [drop_while]; [apply is_suffix_refl|].
  destruct (f c); [apply is_suffix_cons, IH | apply is_suffix_refl].
Qed.

Lemma drop_while_keeps_last (f : N -> bool) (q : pystr) (c : N) :
  f c = false -> exists q', drop_while f (q ++ [c]) = q' ++ [c].
Proof.
  intros Hc. induction q as [|a q IH]; cbn [app drop_while].
  - rewrite Hc. exists []. reflexivity.
  - destruct (f a); [exact IH|]. exists (a :: q). reflexivity.
Qed.

Lemma strip_ends_solid (s : pystr) : strip s <> [] -> ends_solid (strip s).
Proof.
  unfold strip, rstrip, lstrip.
  pose proof (drop_while_head is_space (rev (drop_while is_space s))) as Hh.
  destruct (drop_while is_space (rev (drop_while is_space s))) as [|c r].
  - intros H. exfalso. apply H. reflexivity.
  - intros _. exists (rev r), c. split; [reflexivity | exact Hh].
Qed.

Lemma suffix_ends_solid (t s : pystr) :
  is_suffix t s -> t <> [] -> ends_solid s -> ends_solid t.
Proof.
  intros [p Hs] Ht (q & c & Hq & Hc).
  destruct (exists_last Ht) as (t' & c' & Ht'). subst t.
  rewrite Hq, app_assoc in Hs. apply app_inj_tail in Hs.
  destruct Hs as [_ ->]. exists t', c'. auto.
Qed.

Lemma ends_solid_strip (t : pystr) : ends_solid t -> strip t <> [].
Proof.
  intros (q & c & -> & Hc). unfold strip, rstrip, lstrip.
  destruct (drop_while_keeps_last is_space q c Hc) as [q' ->].
  rewrite rev_app_distr. cbn [rev app drop_while]. rewrite Hc.
  cbn [rev]. intros H. apply app_eq_nil in H. destruct H as [_ H].
  discriminate H.
Qed.

Ltac split_char c :=
  destruct c as [|c]; [|do 6 (try destruct c as [c|c|])].

Lemma strip_numbering_suffix (s : pystr) :
  is_suffix (strip_numbering is_decimal s) s.
Proof.
  destruct s as [|c rest]; [apply is_suffix_refl|].
  unfold strip_numbering.
  destruct (is_decimal c || (c =? 45)%N || (c =? 42)%N || (c =? 8226)%N);
    [|apply is_suffix_refl].
  apply is_suffix_cons.
  pose proof (drop_while_suffix is_space rest) as Hrest.
  fold (lstrip rest) in Hrest.
  destruct (lstrip rest) as [|c' r]; [exact Hrest|].
  assert (Hr : is_suffix (lstrip r) rest).
  { eapply is_suffix_trans; [|exact Hrest].
    apply is_suffix_cons. apply drop_while_suffix. }
  split_char c'; first [exact Hrest | exact Hr].
Qed.

Lemma strip_markdown_suffix (s : pystr) :
  is_suffix (strip_markdown s) s.
Proof.
  destruct s as [|c rest]; [apply is_suffix_refl|].
  assert (Hhash : is_suffix
                    (lstrip (drop_while (fun c => (c =? 35)%N) (c :: rest)))
                    (c :: rest)).
  { eapply is_suffix_trans; apply drop_while_suffix. }
  assert (Hone : is_suffix rest (c :: rest))
    by apply is_suffix_cons, is_suffix_refl.
  assert (Htwo : forall c2 r, rest = c2 :: r -> is_suffix r (c :: rest)).
  { intros c2 r ->. do 2 apply is_suffix_cons. apply is_suffix_refl. }
  unfold strip_markdown.
  split_char c;
    try first [apply is_suffix_refl | exact Hhash];
    destruct rest as [|c2 r]; try exact Hone;
    split_char c2; first [exact Hone | exact (Htwo _ _ eq_refl)].
Qed.

(** Every line the parser keeps is non-empty. *)
Lemma parse_lines_nonempty (min_length : Z) (lines : list pystr) :
  Forall (fun p => p <> []) (parse_lines is_decimal min_length lines).
Proof.
  induction lines as [|line rest IH]; cbn [parse_lines]; [constructor|].
  destruct (strip line) as [|c0 s0] eqn:Estrip; cbn [truthy negb];
    [exact IH|].
  set (cleaned := strip_markdown (strip_numbering is_decimal (c0 :: s0))).
  destruct cleaned as [|c1 s1] eqn:Ecleaned; cbn [truthy andb];
    [exact IH|].
  destruct (min_length <? len (c1 :: s1))%Z; [|exact IH].
  constructor; [|exact IH].
  apply ends_solid_strip.
  apply suffix_ends_solid with (s := strip line).
  - rewrite Estrip, <- Ecleaned. unfold cleaned.
    eapply is_suffix_trans;
      [apply strip_markdown_suffix | apply strip_numbering_suffix].
  - discriminate.
  - apply strip_ends_solid. rewrite Estrip. discriminate.
Qed.

(** *** The padding loops in closed form *)

Lemma pad_prompts_closed (fuel : nat) :
  forall (base prompts l : list pystr) (n : Z),
    pad_prompts fuel base prompts n = Some l ->
    l = prompts
        ++ List.map (prompt_variation base)
             (seq (List.length prompts) (Z.to_nat (n - len prompts))).
Proof.
  induction fuel as [|fuel IH]; intros base prompts l n;
    cbn [pad_prompts];
    destruct (Z.ltb_spec (len prompts) n) as [Hlt | Hge]; intros H;
    try discriminate H.
  - injection H as <-.
    replace (Z.to_nat (n - len prompts)) with 0%nat by lia.
    cbn [seq List.map]. rewrite app_nil_r. reflexivity.
  - apply IH in H. rewrite H, <- app_assoc. f_equal.
    rewrite length_app, len_app. unfold len at 2. cbn [List.length].
    replace (Z.to_nat (n - len prompts))
      with (S (Z.to_nat (n - (len prompts + Z.of_nat 1)))) by lia.
    cbn [seq List.map app]. rewrite Nat.add_1_r. reflexivity.
  - injection H as <-.
    replace (Z.to_nat (n - len prompts)) with 0%nat by lia.
    cbn [seq List.map]. rewrite app_nil_r. reflexivity.
Qed.

Lemma pad_captions_closed (fuel : nat) :
  forall (base captions l : list pystr) (n : Z),
    pad_captions fuel base captions n = Some l ->
    l = captions
        ++ List.map (caption_variation base)
             (seq (List.length captions) (Z.to_nat (n - len captions))).
Proof.
  induction fuel as [|fuel IH]; intros base captions l n;
    cbn [pad_captions];
    destruct (Z.ltb_spec (len captions) n) as [Hlt | Hge]; intros H;
    try discriminate H.
  - injection H as <-.
    replace (Z.to_nat (n - len captions)) with 0%nat by lia.
    cbn [seq List.map]. rewrite app_nil_r. reflexivity.
  - apply IH in H. rewrite H, <- app_assoc. f_equal.
    rewrite length_app, len_app. unfold len at 2. cbn [List.length].
    replace (Z.to_nat (n - len captions))
      with (S (Z.to_nat (n - (len captions + Z.of_nat 1)))) by lia.
    cbn [seq List.map app]. rewrite Nat.add_1_r. reflexivity.
  - injection H as <-.
    replace (Z.to_nat (n - len captions)) with 0%nat by lia.
    cbn [seq List.map]. rewrite app_nil_r. reflexivity.
Qed.

Lemma pad_captions_total (fuel : nat) :
  forall (base captions : list pystr) (num_captions : Z),
    len captions <= num_captions ->
    (Z.to_nat (num_captions - len captions) <= fuel)%nat ->
    exists l,
      pad_captions fuel base captions num_captions = Some l
      /\ len l = num_captions.
Proof.
  induction fuel as [|fuel IH]; intros base captions n Hle Hfuel.
  - cbn [pad_captions].
    destruct (Z.ltb_spec (len captions) n); [lia|].
    exists captions. split; [reflexivity | lia].
  - cbn [pad_captions].
    destruct (Z.ltb_spec (len captions) n) as [Hlt | Hge].
    + apply IH.
      * rewrite len_app. unfold len at 2. cbn [List.length]. lia.
      * rewrite len_app. unfold len at 2. cbn [List.length]. lia.
    + exists captions. split; [reflexivity | lia].
Qed.

(** An element of [l[:n]] is the element of [l] at the same index. *)
Lemma nth_slice_to (l : list pystr) (n : Z) (i : nat) :
  (i < List.length (slice_to l n))%nat ->
  nth i (slice_to l n) [] = nth i l [].
Proof.
  unfold slice_to.
  destruct (0 <=? n)%Z; intros Hi; rewrite length_firstn in Hi;
    rewrite nth_firstn;
    match goal with
    | |- context [(i <? ?k)%nat] =>
        destruct (Nat.ltb_spec i k); [reflexivity | lia]
    end.
Qed.

Lemma Forall_slice_to (P : pystr -> Prop) (l : list pystr) (n : Z) :
  Forall P l -> Forall P (slice_to l n).
Proof.
  intros H. unfold slice_to.
  destruct (0 <=? n)%Z;
    match goal with
    | |- Forall P (firstn ?k l) =>
        rewrite <- (firstn_skipn k l) in H;
        apply Forall_app in H; exact (proj1 H)
    end.
Qed.

Lemma prompt_variation_nonempty (base : list pystr) (n : nat) :
  base <> [] -> Forall (fun p => p <> []) base ->
  prompt_variation base n <> [].
Proof.
  intros Hne Hall. unfold prompt_variation.
  destruct (Nat.leb_spec (List.length base) n) as [Hle | Hlt].
  - intros H. apply app_eq_nil in H. destruct H as [_ H].
    revert H. apply lit_app_nonempty.
  - rewrite Nat.mod_small by exact Hlt.
    rewrite Forall_forall in Hall. apply Hall. apply nth_In. exact Hlt.
Qed.

Lemma replace_char_nonempty (old : N) (a : ascii) (new : string)
    (s : pystr) :
  s <> [] -> replace_char old (lit (String a new)) s <> [].
Proof.
  destruct s as [|c s]; [contradiction|]. intros _.
  unfold replace_char. cbn [flat_map].
  destruct (c =? old)%N; [apply lit_app_nonempty | discriminate].
Qed.

Lemma caption_variation_nonempty (base : list pystr) (n : nat) :
  base <> [] -> Forall (fun p => p <> []) base ->
  caption_variation base n <> [].
Proof.
  intros Hne Hall. unfold caption_variation.
  assert (Hnth : nth (n mod List.length base) base [] <> []).
  { rewrite Forall_forall in Hall. apply Hall. apply nth_In.
    apply Nat.mod_upper_bound. destruct base; [contradiction|].
    discriminate. }
  destruct (List.length base <=? n)%nat; [|exact Hnth].
  apply replace_char_nonempty. exact Hnth.
Qed.

(** *** Properties of [generate_prompts] and [generate_captions] *)

(** X9.  [generate_captions] gives as many captions as asked for when
    the count is not negative and the service returns a non-empty
    text; it gives the empty list when the service returns an empty
    text; and whenever the call fails it gives the five fixed fallback
    captions, whatever the count. *)
Theorem generate_captions_count
    (product_description : pystr) (num_captions : Z) :
  (forall response_text,
      0 <= num_captions ->
      _call_gemini post cfg
        (captions_request product_description num_captions)
      = Ok response_text ->
      response_text <> [] ->
      exists captions,
        generate_captions post is_decimal cfg product_description
          num_captions = Some captions
        /\ len captions = num_captions)
  /\ (_call_gemini post cfg
        (captions_request product_description num_captions) = Ok [] ->
      generate_captions post is_decimal cfg product_description
        num_captions = Some [])
  /\ (forall e,
         _call_gemini post cfg
           (captions_request product_description num_captions)
         = Raise e ->
         generate_captions post is_decimal cfg product_description
           num_captions = Some (fallback_captions product_description)
         /\ len (fallback_captions product_description) = 5).
Proof.
  split; [|split].
  - intros text Hn Hcall Htext. unfold generate_captions. rewrite Hcall.
    destruct text as [|c text]; [contradiction|]. cbn [truthy].
    set (captions := parse_lines is_decimal 5
                       (split_on newline (strip (c :: text)))).
    destruct (Z.ltb_spec (len captions) num_captions) as [Hlt | Hge].
    + destruct (pad_captions_total (Z.to_nat num_captions)
                  (match captions with
                   | [] => default_base_captions product_description
                   | _ :: _ => captions
                   end) captions num_captions) as (l & Hl & Hlen).
      * lia.
      * unfold len. lia.
      * rewrite Hl. eexists. split; [reflexivity|].
        apply len_slice_to. lia.
    + eexists. split; [reflexivity|]. apply len_slice_to. lia.
  - intros Hcall. unfold generate_captions. rewrite Hcall. reflexivity.
  - intros e Hcall. unfold generate_captions. rewrite Hcall.
    split; reflexivity.
Qed.

(** X10.  No prompt [generate_prompts] returns is the empty string,
    whether it was read from the reply, made by the padding loop or
    taken from the fallback list. *)
Theorem generated_prompts_are_nonempty
    (product_description : pystr) (num_prompts : Z)
    (prompts : list pystr) :
  generate_prompts post is_decimal cfg product_description num_prompts
  = Some prompts ->
  Forall (fun p => p <> []) prompts.
Proof.
  unfold generate_prompts.
  destruct (_call_gemini post cfg
              (prompts_request product_description num_prompts))
    as [text | e].
  - destruct (truthy text);
      [|intros H; injection H as <-; constructor].
    set (parsed := parse_lines is_decimal 10
                     (split_on newline (strip text))).
    pose proof (parse_lines_nonempty 10 (split_on newline (strip text)))
      as Hparsed. fold parsed in Hparsed.
    destruct (len parsed <? num_prompts)%Z.
    + set (base := match parsed with
                   | [] => default_base_prompts product_description
                   | _ :: _ => parsed
                   end).
      assert (Hbase : base <> [] /\ Forall (fun p => p <> []) base).
      { unfold base. destruct parsed as [|p ps].
        - split; [discriminate|].
          repeat constructor; apply lit_app_nonempty.
        - split; [discriminate | exact Hparsed]. }
      destruct (pad_prompts (Z.to_nat num_prompts) base parsed
                  num_prompts) as [l|] eqn:Epad; [|discriminate].
      intros H. injection H as <-. apply Forall_slice_to.
      apply pad_prompts_closed in Epad. rewrite Epad.
      apply Forall_app. split; [exact Hparsed|].
      apply Forall_map, Forall_forall. intros j _.
      apply prompt_variation_nonempty; tauto.
    + intros H. injection H as <-. apply Forall_slice_to. exact Hparsed.
  - intros H. injection H as <-. unfold fallback_prompts.
    apply Forall_map. unfold fallback_templates.
    repeat constructor; apply lit_app_nonempty.
Qed.

(** X11.  No caption [generate_captions] returns is the empty string,
    whether it was read from the reply, made by the padding loop or
    taken from the fallback list. *)
Theorem generated_captions_are_nonempty
    (product_description : pystr) (num_captions : Z)
    (captions : list pystr) :
  generate_captions post is_decimal cfg product_description num_captions
  = Some captions ->
  Forall (fun p => p <> []) captions.
Proof.
  unfold generate_captions.
  destruct (_call_gemini post cfg
              (captions_request product_description num_captions))
    as [text | e].
  - destruct (truthy text);
      [|intros H; injection H as <-; constructor].
    set (parsed := parse_lines is_decimal 5
                     (split_on newline (strip text))).
    pose proof (parse_lines_nonempty 5 (split_on newline (strip text)))
      as Hparsed. fold parsed in Hparsed.
    destruct (len parsed <? num_captions)%Z.
    + set (base := match parsed with
                   | [] => default_base_captions product_description
                   | _ :: _ => parsed
                   end).
      assert (Hbase : base <> [] /\ Forall (fun p => p <> []) base).
      { unfold base. destruct parsed as [|p ps].
        - split; [discriminate|].
          repeat constructor; apply lit_app_nonempty.
        - split; [discriminate | exact Hparsed]. }
      destruct (pad_captions (Z.to_nat num_captions) base parsed
                  num_captions) as [l|] eqn:Epad; [|discriminate].
      intros H. injection H as <-. apply Forall_slice_to.
      apply pad_captions_closed in Epad. rewrite Epad.
      apply Forall_app. split; [exact Hparsed|].
      apply Forall_map, Forall_forall. intros j _.
      apply caption_variation_nonempty; tauto.
    + intros H. injection H as <-. apply Forall_slice_to. exact Hparsed.
  - intros H. injection H as <-. unfold fallback_captions.
    repeat constructor; apply lit_app_nonempty.
Qed.

Lemma nth_padded (f : nat -> pystr) (parsed : list pystr) (m : nat)
    (n : Z) (i : nat) :
  let l := parsed ++ List.map f (seq (List.length parsed) m) in
  (i < List.length (slice_to l n))%nat ->
  nth i (slice_to l n) []
  = if (i <? List.length parsed)%nat then nth i parsed [] else f i.
Proof.
  intros l Hi. rewrite nth_slice_to by exact Hi.
  assert (Hlen : (i < List.length l)%nat).
  { revert Hi. unfold slice_to.
    destruct (0 <=? n)%Z; rewrite length_firstn; lia. }
  unfold l in *. rewrite length_app, length_map, length_seq in Hlen.
  destruct (Nat.ltb_spec i (List.length parsed)) as [Hlt | Hge].
  - apply app_nth1. exact Hlt.
  - rewrite app_nth2 by exact Hge.
    rewrite (nth_indep _ [] (f 0%nat))
      by (rewrite length_map, length_seq; lia).
    rewrite map_nth, seq_nth by lia.
    f_equal. lia.
Qed.

Lemma generate_prompts_closed
    (product_description : pystr) (num_prompts : Z)
    (response_text : pystr) (prompts : list pystr) :
  _call_gemini post cfg (prompts_request product_description num_prompts)
  = Ok response_text ->
  response_text <> [] ->
  generate_prompts post is_decimal cfg product_description num_prompts
  = Some prompts ->
  let parsed :=
    parse_lines is_decimal 10 (split_on newline (strip response_text)) in
  let base :=
    match parsed with
    | [] => default_base_prompts product_description
    | _ :: _ => parsed
    end in
  prompts
  = slice_to
      (parsed ++ List.map (prompt_variation base)
                   (seq (List.length parsed)
                        (Z.to_nat (num_prompts - len parsed))))
      num_prompts.
Proof.
  intros Hcall Htext. unfold generate_prompts. rewrite Hcall.
  destruct response_text as [|c text]; [contradiction|]. cbn [truthy].
  intros H.
  set (parsed := parse_lines is_decimal 10
                   (split_on newline (strip (c :: text)))) in *.
  set (base := match parsed with
               | [] => default_base_prompts product_description
               | _ :: _ => parsed
               end) in *.
  cbv zeta.
  destruct (Z.ltb_spec (len parsed) num_prompts) as [Hlt | Hge].
  - destruct (pad_prompts (Z.to_nat num_prompts) base parsed num_prompts)
      as [l|] eqn:Epad; [|discriminate].
    injection H as <-. apply pad_prompts_closed in Epad.
    rewrite Epad. reflexivity.
  - injection H as <-.
    replace (Z.to_nat (num_prompts - len parsed)) with 0%nat by lia.
    cbn [seq List.map]. rewrite app_nil_r. reflexivity.
Qed.

Lemma generate_captions_closed
    (product_description : pystr) (num_captions : Z)
    (response_text : pystr) (captions : list pystr) :
  _call_gemini post cfg
    (captions_request product_description num_captions)
  = Ok response_text ->
  response_text <> [] ->
  generate_captions post is_decimal cfg product_description num_captions
  = Some captions ->
  let parsed :=
    parse_lines is_decimal 5 (split_on newline (strip response_text)) in
  let base :=
    match parsed with
    | [] => default_base_captions product_description
    | _ :: _ => parsed
    end in
  captions
  = slice_to
      (parsed ++ List.map (caption_variation base)
                   (seq (List.length parsed)
                        (Z.to_nat (num_captions - len parsed))))
      num_captions.
Proof.
  intros Hcall Htext. unfold generate_captions. rewrite Hcall.
  destruct response_text as [|c text]; [contradiction|]. cbn [truthy].
  intros H.
  set (parsed := parse_lines is_decimal 5
                   (split_on newline (strip (c :: text)))) in *.
  set (base := match parsed with
               | [] => default_base_captions product_description
               | _ :: _ => parsed
               end) in *.
  cbv zeta.
  destruct (Z.ltb_spec (len parsed) num_captions) as [Hlt | Hge].
  - destruct (pad_captions (Z.to_nat num_captions) base parsed
                num_captions) as [l|] eqn:Epad; [|discriminate].
    injection H as <-. apply pad_captions_closed in Epad.
    rewrite Epad. reflexivity.
  - injection H as <-.
    replace (Z.to_nat (num_captions - len parsed)) with 0%nat by lia.
    cbn [seq List.map]. rewrite app_nil_r. reflexivity.
Qed.

(** X12.  When the service returns a non-empty text, the prompts
    [generate_prompts] returns are, in order, the usable lines of the
    reply, followed by the prompts of the padding loop: the one at
    index [i] is taken from the base list (the usable lines, or the
    three templates when there is none) at index [i mod len(base)],
    with ", variation k" appended once [i] reaches the base's length,
    where [k = i - len(base) + 1]. *)
Theorem generate_prompts_layout
    (product_description : pystr) (num_prompts : Z)
    (response_text : pystr) (prompts : list pystr) :
  _call_gemini post cfg (prompts_request product_description num_prompts)
  = Ok response_text ->
  response_text <> [] ->
  generate_prompts post is_decimal cfg product_description num_prompts
  = Some prompts ->
  let parsed :=
    parse_lines is_decimal 10 (split_on newline (strip response_text)) in
  let base :=
    match parsed with
    | [] => default_base_prompts product_description
    | _ :: _ => parsed
    end in
  forall i,
    (i < List.length prompts)%nat ->
    nth i prompts []
    = if (i <? List.length parsed)%nat then nth i parsed []
      else prompt_variation base i.
Proof.
  intros Hcall Htext Hgen parsed base i.
  pose proof (generate_prompts_closed _ _ _ _ Hcall Htext Hgen) as Hclosed.
  cbv zeta in Hclosed. fold parsed in Hclosed. fold base in Hclosed.
  rewrite Hclosed. apply nth_padded.
Qed.

(** X13.  The same for [generate_captions]: the usable lines of the
    reply come first, in order; the caption the padding loop puts at
    index [i] is the base caption at index [i mod len(base)], with
    every "#" replaced by "#New" once [i] reaches the base's length. *)
Theorem generate_captions_layout
    (product_description : pystr) (num_captions : Z)
    (response_text : pystr) (captions : list pystr) :
  _call_gemini post cfg
    (captions_request product_description num_captions)
  = Ok response_text ->
  response_text <> [] ->
  generate_captions post is_decimal cfg product_description num_captions
  = Some captions ->
  let parsed :=
    parse_lines is_decimal 5 (split_on newline (strip response_text)) in
  let base :=
    match parsed with
    | [] => default_base_captions product_description
    | _ :: _ => parsed
    end in
  forall i,
    (i < List.length captions)%nat ->
    nth i captions []
    = if (i <? List.length parsed)%nat then nth i parsed []
      else caption_variation base i.
Proof.
  intros Hcall Htext Hgen parsed base i.
  pose proof (generate_captions_closed _ _ _ _ Hcall Htext Hgen)
    as Hclosed.
  cbv zeta in Hclosed. fold parsed in Hclosed. fold base in Hclosed.
  rewrite Hclosed. apply nth_padded.
Qed.

(** X14.  The padding of [generate_captions] repeats itself: when the
    reply holds [k >= 1] usable captions, the captions at the indices
    [i] and [i + k] are the same string for every [i >= k]. *)
Theorem padded_captions_repeat
    (product_description : pystr) (num_captions : Z)
    (response_text : pystr) (captions : list pystr) (i : nat) :
  _call_gemini post cfg
    (captions_request product_description num_captions)
  = Ok response_text ->
  response_text <> [] ->
  generate_captions post is_decimal cfg product_description num_captions
  = Some captions ->
  let k := List.length
             (parse_lines is_decimal 5
                (split_on newline (strip response_text))) in
  (1 <= k)%nat -> (k <= i)%nat -> (i + k < List.length captions)%nat ->
  nth i captions [] = nth (i + k) captions [].
Proof.
  intros Hcall Htext Hgen k Hk Hi Hik.
  pose proof (generate_captions_closed _ _ _ _ Hcall Htext Hgen)
    as Hclosed.
  cbv zeta in Hclosed. rewrite Hclosed in Hik |- *.
  rewrite !nth_padded by lia. fold k.
  destruct (Nat.ltb_spec i k); [lia|].
  destruct (Nat.ltb_spec (i + k) k); [lia|].
  destruct (parse_lines is_decimal 5
              (split_on newline (strip response_text)))
    as [|p ps] eqn:Eparsed; [cbn in k; lia|].
  fold k. unfold caption_variation. fold k.
  replace (k <=? i)%nat with true by (symmetry; apply Nat.leb_le; lia).
  replace (k <=? i + k)%nat with true
    by (symmetry; apply Nat.leb_le; lia).
  replace ((i + k) mod k)%nat with (i mod k)%nat; [reflexivity|].
  rewrite <- (Nat.Div0.add_mod_idemp_r i k k).
  rewrite Nat.Div0.mod_same, Nat.add_0_r. reflexivity.
Qed.

End TextProperties.

Section TextSamples.
Import PyStr TextLogic.

Lemma generate_captions_count_witness :
  exists captions,
    generate_captions service_one_caption ascii_digit sample_config
      headphones 5 = Some captions
    /\ len captions = 5.
Proof.
  eapply (proj1 (generate_captions_count service_one_caption ascii_digit
                   sample_config headphones 5)).
  - lia.
  - vm_compute. reflexivity.
  - discriminate.
Defined.

Lemma generated_prompts_are_nonempty_witness :
  exists prompts,
    generate_prompts service_heading_only ascii_digit sample_config
      headphones 5 = Some prompts
    /\ Forall (fun p => p <> []) prompts.
Proof.
  eexists. split; [vm_compute; reflexivity|].
  apply (generated_prompts_are_nonempty service_heading_only ascii_digit
           sample_config headphones 5).
  vm_compute. reflexivity.
Defined.

Lemma generated_captions_are_nonempty_witness :
  exists captions,
    generate_captions service_one_caption ascii_digit sample_config
      headphones 5 = Some captions
    /\ Forall (fun p => p <> []) captions.
Proof.
  eexists. split; [vm_compute; reflexivity|].
  apply (generated_captions_are_nonempty service_one_caption ascii_digit
           sample_config headphones 5).
  vm_compute. reflexivity.
Defined.

Lemma sample_prompts :
  exists prompts,
    generate_prompts service_two_lines ascii_digit sample_config
      headphones 7 = Some prompts
    /\ List.length prompts = 7%nat.
Proof. eexists. split; vm_compute; reflexivity. Qed.

Lemma sample_captions :
  exists captions,
    generate_captions service_one_caption ascii_digit sample_config
      headphones 5 = Some captions
    /\ List.length captions = 5%nat.
Proof. eexists. split; vm_compute; reflexivity. Qed.

(** Two usable lines and seven prompts asked for: the third prompt is
    the first line again, marked as variation 1. *)
Lemma generate_prompts_layout_witness :
  exists prompts,
    generate_prompts service_two_lines ascii_digit sample_config
      headphones 7 = Some prompts
    /\ nth 2 prompts []
       = lit "A minimalist white studio with soft natural lighting, variation 1".
Proof.
  destruct sample_prompts as (prompts & Hgen & Hlen).
  exists prompts. split; [exact Hgen|].
  rewrite (generate_prompts_layout service_two_lines ascii_digit
             sample_config headphones 7
             (lit "1. A minimalist white studio with soft natural lighting"
              ++ [newline]
              ++ lit "2. A vibrant urban street scene at golden hour")
             prompts).
  - vm_compute. reflexivity.
  - vm_compute. reflexivity.
  - discriminate.
  - exact Hgen.
  - rewrite Hlen. lia.
Defined.

(** One usable caption and five asked for: the others are that caption
    with its hashtags renamed. *)
Lemma generate_captions_layout_witness :
  exists captions,
    generate_captions service_one_caption ascii_digit sample_config
      headphones 5 = Some captions
    /\ nth 3 captions []
       = lit "Sound that moves you. #NewAudio #NewWireless".
Proof.
  destruct sample_captions as (captions & Hgen & Hlen).
  exists captions. split; [exact Hgen|].
  rewrite (generate_captions_layout service_one_caption ascii_digit
             sample_config headphones 5
             (lit "1. Sound that moves you. #Audio #Wireless") captions).
  - vm_compute. reflexivity.
  - vm_compute. reflexivity.
  - discriminate.
  - exact Hgen.
  - rewrite Hlen. lia.
Defined.

Lemma padded_captions_repeat_witness :
  exists captions,
    generate_captions service_one_caption ascii_digit sample_config
      headphones 5 = Some captions
    /\ nth 1 captions [] = nth 2 captions [].
Proof.
  destruct sample_captions as (captions & Hgen & Hlen).
  exists captions. split; [exact Hgen|].
  apply (padded_captions_repeat service_one_caption ascii_digit
           sample_config headphones 5
           (lit "1. Sound that moves you. #Audio #Wireless") captions 1).
  - vm_compute. reflexivity.
  - discriminate.
  - exact Hgen.
  - vm_compute. lia.
  - vm_compute. lia.
  - rewrite Hlen. vm_compute. lia.
Defined.

End TextSamples.

(** ** Which failures of the image service stop the campaign *)

Section FailureClassification.
Import PyStr PIL ImageGen App.

Variable STABILITY_API_KEY : option pystr.
Variable post : pystr -> Z -> Z -> http_outcome.
Variable open_image : json -> result Image.
Variable json_repr : json -> pystr.

Lemma starts_with_other_head (c x : N) (needle hay : pystr) :
  x <> c -> starts_with (c :: needle) (x :: hay) = false.
Proof.
  intros Hne. cbn [starts_with].
  destruct (N.eqb_spec c x) as [-> | _]; [contradiction | reflexivity].
Qed.

(** A prefix in which the needle's first character does not occur
    does not change whether the needle occurs. *)
Lemma contains_skip_prefix (c : N) (needle a b : pystr) :
  Forall (fun x => x <> c) a ->
  contains (c :: needle) (a ++ b) = contains (c :: needle) b.
Proof.
  induction 1 as [|x a Hx Ha IH]; [reflexivity|].
  cbn [app contains].
  rewrite starts_with_other_head by exact Hx. exact IH.
Qed.

Lemma lower_app (a b : pystr) : lower (a ++ b) = lower a ++ lower b.
Proof. apply map_app. Qed.

(** The characters of [str(n)] are a sign and digits. *)
Lemma string_of_uint_chars (d : Decimal.uint) :
  Forall (fun x => (48 <= x <= 57)%N)
         (lit (NilEmpty.string_of_uint d)).
Proof.
  induction d; cbn [NilEmpty.string_of_uint];
    [constructor | constructor; [vm_compute; split; discriminate|] ..];
    exact IHd.
Qed.

Lemma str_of_int_chars (z : Z) :
  Forall (fun x => (45 <= x <= 57)%N) (str_of_int z).
Proof.
  assert (Hu : forall d,
             Forall (fun x => (45 <= x <= 57)%N)
                    (lit (NilZero.string_of_uint d))).
  { intros d.
    assert (Hd : Forall (fun x => (45 <= x <= 57)%N)
                        (lit (NilEmpty.string_of_uint d))).
    { eapply Forall_impl; [|apply string_of_uint_chars].
      cbv beta. intros x Hx. lia. }
    destruct d; try exact Hd.
    repeat constructor; vm_compute; discriminate. }
  unfold str_of_int, NilZero.string_of_int.
  destruct (Z.to_int z) as [d | d]; [apply Hu|].
  constructor; [vm_compute; split; discriminate | apply Hu].
Qed.

(** The text before the service's message in an "API Error" report
    holds neither a [c] nor an [n]. *)
Lemma api_error_prefix_neutral (status : Z) (text : pystr) :
  is_credits_error (lit "API Error (" ++ str_of_int status
                    ++ lit "): " ++ text)
  = is_credits_error text.
Proof.
  unfold is_credits_error.
  rewrite !app_assoc, lower_app.
  assert (Hpre : forall c,
             c = 99%N \/ c = 110%N ->
             Forall (fun x => x <> c)
                    (lower ((lit "API Error (" ++ str_of_int status)
                            ++ lit "): "))).
  { intros c Hc. rewrite !lower_app. apply Forall_app. split.
    - apply Forall_app. split.
      + destruct Hc as [-> | ->]; repeat constructor; discriminate.
      + unfold lower. apply Forall_map.
        eapply Forall_impl; [|apply str_of_int_chars].
        cbv beta. intros x Hx. unfold lower_char, between.
        destruct ((65 <=? x)%N && (x <=? 90)%N) eqn:Eup.
        * apply andb_true_iff in Eup. destruct Eup as [Hlo _].
          apply N.leb_le in Hlo. lia.
        * destruct Hc as [-> | ->]; lia.
    - destruct Hc as [-> | ->]; repeat constructor; discriminate. }
  change (lit "credits") with (99%N :: lit "redits").
  change (lit "not accessible") with (110%N :: lit "ot accessible").
  rewrite !contains_skip_prefix by (apply Hpre; auto).
  reflexivity.
Qed.

(** Nor do the two other prefixes complete or start an occurrence. *)
Lemma network_error_prefix_neutral (msg : pystr) :
  is_credits_error (lit "Network error: " ++ msg) = is_credits_error msg.
Proof.
  unfold is_credits_error. rewrite lower_app.
  generalize (lower msg). intros m. reflexivity.
Qed.

Lemma other_error_prefix_neutral (msg : pystr) :
  is_credits_error (lit "Error generating background: " ++ msg)
  = is_credits_error msg.
Proof.
  unfold is_credits_error. rewrite lower_app.
  generalize (lower msg). intros m. reflexivity.
Qed.

Lemma credits_failure_message (msg : pystr) (a : ascii) (pre : string) :
  credits_failure (None, Some (lit (String a pre) ++ msg))
  = is_credits_error (lit (String a pre) ++ msg).
Proof. reflexivity. Qed.

(** X15.  Which results of [generate_background] make the loop of
    [app.py] stop the run (the test of line 166).  A missing key, the
    statuses 401 and 429 and an answer without artifacts never do;
    the status 402 always does; for every other failure the report
    stops the run exactly when the underlying text (the exception's
    message, or the error text of the response) holds "credits" or
    "not accessible" in any letter case: the words the function puts
    in front of that text never complete an occurrence. *)
Theorem failures_that_stop_the_campaign (prompt : pystr) (w h : Z) :
  let r := generate_background STABILITY_API_KEY post open_image
             json_repr prompt w h in
  (key_present STABILITY_API_KEY = false -> credits_failure r = false)
  /\ (key_present STABILITY_API_KEY = true ->
      (forall msg,
          post prompt w h = RequestFails msg
          \/ post prompt w h = OtherFailure msg ->
          credits_failure r = is_credits_error msg)
      /\ (forall resp,
             post prompt w h = Answered resp ->
             (status_code resp = 402 -> credits_failure r = true)
             /\ (status_code resp = 401 \/ status_code resp = 429 ->
                 credits_failure r = false)
             /\ (status_code resp <> 200 -> status_code resp <> 402 ->
                 status_code resp <> 401 -> status_code resp <> 429 ->
                 credits_failure r
                 = is_credits_error (api_error_text json_repr resp))
             /\ (status_code resp = 200 ->
                 (forall res,
                     read_artifact open_image resp = Ok res ->
                     credits_failure r = false)
                 /\ (forall kind msg,
                        read_artifact open_image resp
                        = Raise (Exn kind msg) ->
                        credits_failure r = is_credits_error msg)))).
Proof.
  cbv zeta. unfold generate_background. split.
  - intros ->. reflexivity.
  - intros ->. cbn [negb]. split.
    + intros msg [-> | ->]; rewrite credits_failure_message.
      * apply network_error_prefix_neutral.
      * apply other_error_prefix_neutral.
    + intros resp ->. split; [|split; [|split]].
      * intros ->. vm_compute. reflexivity.
      * intros [-> | ->]; vm_compute; reflexivity.
      * intros H200 H402 H401 H429.
        apply Z.eqb_neq in H200, H402, H401, H429.
        rewrite H200, H402, H401, H429.
        rewrite credits_failure_message.
        apply api_error_prefix_neutral.
      * intros ->. cbn [Z.eqb Pos.eqb]. split.
        -- intros res Hres. rewrite Hres.
           pose proof (read_artifact_shape open_image resp res Hres)
             as Hshape.
           unfold read_artifact in Hres.
           apply bind_Ok in Hres. destruct Hres as (doc & _ & Hres).
           apply bind_Ok in Hres. destruct Hres as (has & _ & Hres).
           apply bind_Ok in Hres. destruct Hres as (ne & _ & Hres).
           destruct ne.
           ++ apply bind_Ok in Hres. destruct Hres as (a1 & _ & Hres).
              apply bind_Ok in Hres. destruct Hres as (a2 & _ & Hres).
              apply bind_Ok in Hres. destruct Hres as (a3 & _ & Hres).
              apply bind_Ok in Hres. destruct Hres as (a4 & _ & Hres).
              apply Ok_inj in Hres. subst res. reflexivity.
           ++ apply Ok_inj in Hres. subst res. vm_compute. reflexivity.
        -- intros kind msg Hres. rewrite Hres.
           destruct kind; rewrite credits_failure_message;
             first [apply network_error_prefix_neutral
                   | apply other_error_prefix_neutral].
Qed.

(** X16.  [generate_background] hands out an image only when the key
    is set and the service answers with status 200, and the image is
    then the decoded ["base64"] member of the first element of the
    answer's ["artifacts"]; the message that goes with it is [None]. *)
Theorem background_is_the_first_artifact
    (prompt : pystr) (w h : Z) (img : Image) (message : option pystr) :
  generate_background STABILITY_API_KEY post open_image json_repr
    prompt w h = (Some img, message) ->
  key_present STABILITY_API_KEY = true
  /\ message = None
  /\ exists resp doc artifacts first data,
      post prompt w h = Answered resp
      /\ status_code resp = 200
      /\ body_json resp = Ok doc
      /\ json_get (lit "artifacts") doc = Ok artifacts
      /\ json_first artifacts = Ok first
      /\ json_get (lit "base64") first = Ok data
      /\ open_image data = Ok img.
Proof.
  unfold generate_background.
  destruct (key_present STABILITY_API_KEY); cbn [negb];
    [|discriminate].
  destruct (post prompt w h) as [msg | msg | resp]; try discriminate.
  destruct (Z.eqb_spec (status_code resp) 200) as [H200 | _].
  - destruct (read_artifact open_image resp) as [res | [kind msg]] eqn:E.
    + intros ->. unfold read_artifact in E.
      apply bind_Ok in E. destruct E as (doc & Hdoc & E).
      apply bind_Ok in E. destruct E as (has & _ & E).
      apply bind_Ok in E. destruct E as (ne & _ & E).
      destruct ne; [|apply Ok_inj in E; discriminate E].
      apply bind_Ok in E. destruct E as (arts & Harts & E).
      apply bind_Ok in E. destruct E as (first & Hfirst & E).
      apply bind_Ok in E. destruct E as (data & Hdata & E).
      apply bind_Ok in E. destruct E as (image & Himage & E).
      apply Ok_inj in E. injection E as -> <-.
      split; [reflexivity|]. split; [reflexivity|].
      exists resp, doc, arts, first, data. auto 10.
    + destruct kind; discriminate.
  - destruct (status_code resp =? 402); [discriminate|].
    destruct (status_code resp =? 401); [discriminate|].
    destruct (status_code resp =? 429); discriminate.
Qed.

End FailureClassification.

Section FailureSamples.
Import PyStr PIL ImageGen App Layout.

Lemma failures_that_stop_the_campaign_witness :
  credits_failure
    (generate_background sample_key (out_of_credits 0) no_image no_repr
       (lit "A minimalist white studio") 1024 1024) = true.
Proof.
  exact (proj1 (proj2 (proj2 (failures_that_stop_the_campaign sample_key
                                (out_of_credits 0) no_image no_repr
                                (lit "A minimalist white studio")
                                1024 1024)
                         eq_refl)
                  _ eq_refl)
           eq_refl).
Defined.

Lemma background_is_the_first_artifact_witness :
  key_present sample_key = true
  /\ (None : option pystr) = None
  /\ exists resp doc artifacts first data,
      one_artifact 0 (lit "A minimalist white studio") 1024 1024
      = Answered resp
      /\ status_code resp = 200
      /\ body_json resp = Ok doc
      /\ json_get (lit "artifacts") doc = Ok artifacts
      /\ json_first artifacts = Ok first
      /\ json_get (lit "base64") first = Ok data
      /\ open_sample data = Ok background_1024.
Proof.
  apply (background_is_the_first_artifact sample_key (one_artifact 0)
           open_sample no_repr (lit "A minimalist white studio")
           1024 1024 background_1024 None).
  reflexivity.
Defined.

End FailureSamples.

(** ** The ledger of the generation loop *)

Section Ledger.
Import PyStr PyFloat PIL ImageEdit ImageGen App.

Variable STABILITY_API_KEY : option pystr.
Variable post : Z -> pystr -> Z -> Z -> http_outcome.
Variable open_image : json -> result Image.
Variable json_repr : json -> pystr.
Variable convert_buffer : Image -> string -> result (Z -> Z -> rgba).
Variable lanczos : Image -> Z -> Z -> result (Z -> Z -> rgba).
Variable paste_other : Image -> Image -> Z * Z -> result Image.
Variable product_image logo_image : Image.

Let background_of (i : Z) (prompt : pystr) :=
  generate_background STABILITY_API_KEY (post i) open_image json_repr
    prompt 1024 1024.

Let composite_of (background : Image) :=
  create_composite convert_buffer lanczos paste_other background
    product_image logo_image
    default_product_size_ratio default_logo_size_ratio.

Let round_of := variation STABILITY_API_KEY post open_image json_repr
                  convert_buffer lanczos paste_other
                  product_image logo_image.

Let loop := variations STABILITY_API_KEY post open_image json_repr
              convert_buffer lanczos paste_other
              product_image logo_image.

Let campaign := generate_campaign STABILITY_API_KEY post open_image
                  json_repr convert_buffer lanczos paste_other
                  product_image logo_image.

(** One round either records a failure, or stores one composite: the
    composite of the round's background, with the caption line 181
    picks. *)
Lemma round_cases (i total : Z) (prompt : pystr) (captions : list pystr)
    (s s1 : session) (c : control) :
  round_of i total prompt captions s = (s1, c) ->
  (composites s1 = composites s
   /\ failed_generations s1 = failed_generations s ++ [i + 1])
  \/ (exists bg img cap,
         c = Continue
         /\ failed_generations s1 = failed_generations s
         /\ composites s1
            = composites s
              ++ [{| image := img; caption := cap;
                     variation_num := i + 1 |}]
         /\ fst (background_of i prompt) = Some bg
         /\ composite_of bg = Ok img
         /\ pick_caption captions i = Ok cap).
Proof.
  unfold round_of, variation, background_of, composite_of.
  destruct (progress_percent i total) as [percent | e].
  - destruct (generate_background STABILITY_API_KEY (post i) open_image
                json_repr prompt 1024 1024) as [[background|] message].
    + destruct (create_composite convert_buffer lanczos paste_other
                  background product_image logo_image
                  default_product_size_ratio default_logo_size_ratio)
        as [composite | e] eqn:Ecomposite.
      * destruct (pick_caption captions i) as [cap | e] eqn:Ecap.
        -- intros H. injection H as <- <-. right.
           exists background, composite, cap. cbn. auto 10.
        -- intros H. injection H as <- <-. left. cbn. auto.
      * intros H. injection H as <- <-. left. cbn. auto.
    + destruct message as [msg|].
      * destruct (truthy msg).
        -- destruct (is_credits_error msg);
             intros H; injection H as <- <-; left; cbn; auto.
        -- intros H. injection H as <- <-. left. cbn. auto.
      * intros H. injection H as <- <-. left. cbn. auto.
  - intros H. injection H as <- <-. left. cbn. auto.
Qed.

Lemma len_cons {A} (a : A) (l : list A) : len (a :: l) = len l + 1.
Proof. unfold len. cbn [List.length]. lia. Qed.

Lemma len_nonneg {A} (l : list A) : 0 <= len l.
Proof. unfold len. lia. Qed.

(** What a run of the loop from index [i] adds to the two lists. *)
Lemma loop_ledger (total : Z) (captions : list pystr)
    (prompts : list pystr) :
  forall (i : Z) (s s' : session) (c : control),
    loop i total prompts captions s = (s', c) ->
    exists done failed,
      composites s' = composites s ++ done
      /\ failed_generations s' = failed_generations s ++ failed
      /\ StronglySorted Z.lt (List.map variation_num done)
      /\ StronglySorted Z.lt failed
      /\ Forall (fun n => i < n <= i + len prompts)
                (List.map variation_num done)
      /\ Forall (fun n => i < n <= i + len prompts) failed
      /\ (forall n, In n (List.map variation_num done) -> ~ In n failed)
      /\ (c = Continue ->
          (forall n, i < n <= i + len prompts ->
                     In n (List.map variation_num done) \/ In n failed)
          /\ len done + len failed = len prompts)
      /\ Forall (fun cd =>
                   pick_caption captions (variation_num cd - 1)
                   = Ok (caption cd)
                   /\ exists bg, composite_of bg = Ok (image cd))
                done.
Proof.
  induction prompts as [|prompt rest IH]; intros i s s' c.
  - cbn [loop variations]. unfold loop. cbn [variations].
    intros H. injection H as <- <-.
    exists [], []. rewrite !app_nil_r. cbn [List.map].
    split; [reflexivity|]. split; [reflexivity|].
    split; [constructor|]. split; [constructor|].
    split; [constructor|]. split; [constructor|].
    split; [intros n []|].
    split; [|constructor].
    intros _. split; [|reflexivity].
    intros n Hn. unfold len in Hn. cbn in Hn. lia.
  - unfold loop. cbn [variations]. fold round_of. fold loop.
    destruct (round_of i total prompt captions s) as [s1 c1] eqn:Eround.
    pose proof (len_nonneg rest) as Hrest.
    apply round_cases in Eround.
    destruct c1.
    + (* the loop goes on *)
      intros Hloop. apply IH in Hloop.
      destruct Hloop as (done & failed & Hc & Hf & Sd & Sf & Bd & Bf
                         & Hdis & Hcov & Hcap).
      assert (Bd' : Forall (fun n => i < n <= i + len (prompt :: rest))
                           (List.map variation_num done)).
      { eapply Forall_impl; [|exact Bd]. cbv beta. intros n Hn.
        rewrite len_cons. lia. }
      assert (Bf' : Forall (fun n => i < n <= i + len (prompt :: rest))
                           failed).
      { eapply Forall_impl; [|exact Bf]. cbv beta. intros n Hn.
        rewrite len_cons. lia. }
      assert (Hd_gt : Forall (Z.lt (i + 1)) (List.map variation_num done)).
      { eapply Forall_impl; [|exact Bd]. cbv beta. intros n Hn. lia. }
      assert (Hf_gt : Forall (Z.lt (i + 1)) failed).
      { eapply Forall_impl; [|exact Bf]. cbv beta. intros n Hn. lia. }
      assert (Hnew : i < i + 1 <= i + len (prompt :: rest))
        by (rewrite len_cons; lia).
      destruct Eround as [[Ec1 Ef1] | (bg & img & cap & _ & Ef1 & Ec1
                                       & _ & Himg & Hpick)].
      * exists done, ((i + 1) :: failed).
        rewrite Hc, Hf, Ec1, Ef1, <- app_assoc. cbn [app].
        split; [reflexivity|]. split; [reflexivity|].
        split; [exact Sd|]. split; [constructor; assumption|].
        split; [exact Bd'|]. split; [constructor; assumption|].
        split.
        { intros n Hn [<- | Hin]; [|exact (Hdis n Hn Hin)].
          rewrite Forall_forall in Hd_gt. specialize (Hd_gt _ Hn). lia. }
        split; [|exact Hcap].
        intros Hcont. destruct (Hcov Hcont) as [Hall Hcount].
        split.
        -- intros n Hn. rewrite len_cons in Hn.
           destruct (Z.eq_dec n (i + 1)) as [-> | Hne].
           ++ right. left. reflexivity.
           ++ destruct (Hall n ltac:(lia)) as [Hin | Hin];
                [left; exact Hin | right; right; exact Hin].
        -- rewrite !len_cons. lia.
      * exists ({| image := img; caption := cap;
                   variation_num := i + 1 |} :: done), failed.
        rewrite Hc, Hf, Ec1, Ef1, <- app_assoc. cbn [app List.map].
        cbn [variation_num].
        split; [reflexivity|]. split; [reflexivity|].
        split; [constructor; assumption|]. split; [exact Sf|].
        split; [constructor; assumption|]. split; [exact Bf'|].
        split.
        { intros n [<- | Hn] Hin; [|exact (Hdis n Hn Hin)].
          rewrite Forall_forall in Hf_gt. specialize (Hf_gt _ Hin). lia. }
        split.
        -- intros Hcont. destruct (Hcov Hcont) as [Hall Hcount].
           split.
           ++ intros n Hn. rewrite len_cons in Hn.
              destruct (Z.eq_dec n (i + 1)) as [-> | Hne].
              ** left. left. reflexivity.
              ** destruct (Hall n ltac:(lia)) as [Hin | Hin];
                   [left; right; exact Hin | right; exact Hin].
           ++ rewrite !len_cons. lia.
        -- constructor; [|exact Hcap]. cbn [variation_num caption image].
           replace (i + 1 - 1) with i by lia. eauto.
    + (* the run is aborted *)
      intros H. injection H as <- <-.
      destruct Eround as [[Ec1 Ef1] | (bg & img & cap & Hcont & _)];
        [|discriminate Hcont].
      exists [], [i + 1]. rewrite Ec1, Ef1, app_nil_r. cbn [List.map].
      split; [reflexivity|]. split; [reflexivity|].
      split; [constructor|].
      split; [repeat constructor|].
      split; [constructor|].
      split; [constructor; [rewrite len_cons; lia | constructor]|].
      split; [intros n []|].
      split; [discriminate | constructor].
Qed.

Lemma StronglySorted_lt_NoDup (l : list Z) :
  StronglySorted Z.lt l -> NoDup l.
Proof.
  induction 1 as [|a l Hs IH Ha]; constructor; [|exact IH].
  intros Hin. rewrite Forall_forall in Ha. specialize (Ha a Hin). lia.
Qed.

(** Line 181 on a list index that is not negative. *)
Lemma pick_caption_spec (captions : list pystr) (i : Z) (cap : pystr) :
  0 <= i ->
  pick_caption captions i = Ok cap ->
  captions <> []
  /\ cap = nth (Z.to_nat (Z.min i (len captions - 1))) captions [].
Proof.
  intros Hi. unfold pick_caption.
  destruct (Z.ltb_spec i (len captions)) as [Hlt | Hge].
  - destruct (nth_error captions (Z.to_nat i)) as [x|] eqn:E;
      [|discriminate].
    intros H. apply Ok_inj in H. subst x. split.
    + destruct captions; [|discriminate].
      destruct (Z.to_nat i); discriminate E.
    + rewrite Z.min_l by lia. symmetry. apply nth_error_nth. exact E.
  - destruct (rev captions) as [|x r] eqn:E; [discriminate|].
    intros H. apply Ok_inj in H. subst x.
    assert (Hc : captions = rev r ++ [cap]).
    { rewrite <- (rev_involutive captions), E. reflexivity. }
    split; [rewrite Hc; intros H; apply app_eq_nil in H;
            destruct H as [_ H]; discriminate H|].
    rewrite Z.min_r by lia. rewrite Hc. unfold len.
    rewrite length_app. cbn [List.length].
    replace (Z.to_nat (Z.of_nat (List.length (rev r) + 1) - 1))
      with (List.length (rev r)) by lia.
    rewrite nth_middle. reflexivity.
Qed.

(** X17.  The loop accounts for every variation exactly once.  Started
    with empty lists, it leaves the numbers of the stored composites and
    the failed numbers each in increasing order, all between 1 and the
    number of prompts, and no number in both; when it runs to its end
    (no credits error), every number from 1 to the number of prompts is
    in one of the two lists, so the two lengths add up to the number of
    prompts. *)
Theorem every_variation_is_stored_or_failed
    (total : Z) (prompts captions : list pystr) (s0 s' : session)
    (c : control) :
  composites s0 = [] -> failed_generations s0 = [] ->
  loop 0 total prompts captions s0 = (s', c) ->
  let stored := List.map variation_num (composites s') in
  let failed := failed_generations s' in
  StronglySorted Z.lt stored /\ StronglySorted Z.lt failed
  /\ (forall n, In n stored \/ In n failed -> 1 <= n <= len prompts)
  /\ (forall n, In n stored -> ~ In n failed)
  /\ (c = Continue ->
      (forall n, 1 <= n <= len prompts -> In n stored \/ In n failed)
      /\ len (composites s') + len failed = len prompts).
Proof.
  intros Hc0 Hf0 Hloop. apply loop_ledger in Hloop.
  destruct Hloop as (done & failed & Hc & Hf & Sd & Sf & Bd & Bf
                     & Hdis & Hcov & _).
  rewrite Hc0 in Hc. rewrite Hf0 in Hf. cbn [app] in Hc, Hf.
  cbv zeta. rewrite Hc, Hf.
  split; [exact Sd|]. split; [exact Sf|]. split.
  { rewrite Forall_forall in Bd, Bf.
    intros n [Hn | Hn]; [specialize (Bd n Hn) | specialize (Bf n Hn)];
      lia. }
  split; [exact Hdis|].
  intros Hcont. destruct (Hcov Hcont) as [Hall Hcount].
  split; [|exact Hcount].
  intros n Hn. apply Hall. lia.
Qed.

(** X18.  Every stored composite is an image [create_composite] made
    from a background with the uploaded product and logo, and carries
    the caption of its own position: variation [k] has [captions[k-1]]
    when there are that many captions, and the last caption
    otherwise. *)
Theorem stored_composites_carry_their_captions
    (total : Z) (prompts captions : list pystr) (s0 s' : session)
    (c : control) (cd : composite_data) :
  composites s0 = [] ->
  loop 0 total prompts captions s0 = (s', c) ->
  In cd (composites s') ->
  captions <> []
  /\ caption cd
     = nth (Z.to_nat (Z.min (variation_num cd - 1) (len captions - 1)))
           captions []
  /\ exists background,
      create_composite convert_buffer lanczos paste_other background
        product_image logo_image
        default_product_size_ratio default_logo_size_ratio
      = Ok (image cd).
Proof.
  intros Hc0 Hloop Hin. apply loop_ledger in Hloop.
  destruct Hloop as (done & failed & Hc & _ & _ & _ & Bd & _ & _ & _
                     & Hcap).
  rewrite Hc0 in Hc. cbn [app] in Hc. rewrite Hc in Hin.
  rewrite Forall_forall in Hcap, Bd.
  destruct (Hcap cd Hin) as [Hpick Himg].
  assert (Hnum : 0 < variation_num cd).
  { apply (Bd (variation_num cd)). apply in_map. exact Hin. }
  destruct (pick_caption_spec captions (variation_num cd - 1)
              (caption cd) ltac:(lia) Hpick) as [Hne Hnth].
  auto.
Qed.

(** *** Requests and archives along the trace *)

Lemma archives_app (t1 t2 : list event) :
  archives (t1 ++ t2) = archives t1 ++ archives t2.
Proof.
  induction t1 as [|e t1 IH]; [reflexivity|].
  destruct e; cbn [app archives]; rewrite ?IH; reflexivity.
Qed.

Lemma archives_images (cs : list composite_data) :
  archives (List.map st_image cs) = [].
Proof. induction cs as [|c cs IH]; [reflexivity | exact IH]. Qed.

Lemma requested_images (cs : list composite_data) :
  requested (List.map st_image cs) = [].
Proof. induction cs as [|c cs IH]; [reflexivity | exact IH]. Qed.

(** One round writes no archive and, when the progress value can be
    computed, asks for exactly one background: its own. *)
Lemma round_trace (i total : Z) (prompt : pystr) (captions : list pystr)
    (s s1 : session) (c : control) :
  round_of i total prompt captions s = (s1, c) ->
  archives (trace s1) = archives (trace s)
  /\ (0 <= i < 2 ^ 53 -> 0 < total < 2 ^ 53 ->
      requested (trace s1) = requested (trace s) ++ [i + 1]).
Proof.
  unfold round_of, variation.
  pose proof (progress_percent_ok i total) as Hok.
  destruct (progress_percent i total) as [percent | e].
  - clear Hok.
    destruct (generate_background STABILITY_API_KEY (post i) open_image
                json_repr prompt 1024 1024) as [[background|] message].
    + destruct (create_composite convert_buffer lanczos paste_other
                  background product_image logo_image
                  default_product_size_ratio default_logo_size_ratio)
        as [composite | e].
      * destruct (pick_caption captions i) as [cap | e];
          intros H; injection H as <- <-;
          cbn [on_exception show record_failure record_composite trace];
          rewrite ?archives_app, ?requested_app; cbn [archives requested];
          rewrite ?app_nil_r; auto.
      * intros H. injection H as <- <-.
        cbn [on_exception show record_failure record_composite trace].
        rewrite ?archives_app, ?requested_app. cbn [archives requested].
        rewrite ?app_nil_r. auto.
    + destruct message as [msg|];
        [destruct (truthy msg); [destruct (is_credits_error msg)|]|];
        intros H; injection H as <- <-;
        cbn [on_exception show record_failure record_composite trace];
        rewrite ?archives_app, ?requested_app; cbn [archives requested];
        rewrite ?app_nil_r; auto.
  - intros H. injection H as <- <-.
    cbn [on_exception show record_failure trace].
    rewrite archives_app. cbn [archives]. rewrite app_nil_r.
    split; [reflexivity|]. intros Hi Ht.
    destruct (Hok Hi Ht) as (percent & Hp). discriminate Hp.
Qed.

Lemma loop_trace_ledger (total : Z) (captions : list pystr)
    (prompts : list pystr) :
  forall (i : Z) (s s' : session) (c : control),
    loop i total prompts captions s = (s', c) ->
    archives (trace s') = archives (trace s)
    /\ (0 <= i -> i + len prompts <= 2 ^ 53 -> 0 < total < 2 ^ 53 ->
        exists m,
          requested (trace s')
          = requested (trace s)
            ++ List.map (fun k => i + Z.of_nat k) (seq 1 m)
          /\ (List.length (composites s')
              + List.length (failed_generations s')
              = List.length (composites s)
                + List.length (failed_generations s) + m)%nat).
Proof.
  induction prompts as [|prompt rest IH]; intros i s s' c.
  - unfold loop. cbn [variations]. intros H. injection H as <- <-.
    split; [reflexivity|]. intros _ _ _. exists 0%nat.
    cbn [seq List.map]. rewrite app_nil_r. split; [reflexivity | lia].
  - unfold loop. cbn [variations]. fold round_of. fold loop.
    destruct (round_of i total prompt captions s) as [s1 c1] eqn:Eround.
    pose proof (len_nonneg rest) as Hrest.
    destruct (round_trace _ _ _ _ _ _ _ Eround) as [Hzip Hreq].
    assert (Hcount : (List.length (composites s1)
                      + List.length (failed_generations s1)
                      = List.length (composites s)
                        + List.length (failed_generations s) + 1)%nat).
    { apply round_cases in Eround.
      destruct Eround as [[-> ->] | (bg & img & cap & _ & -> & -> & _)];
        rewrite length_app; cbn [List.length]; lia. }
    destruct c1.
    + intros Hloop. destruct (IH _ _ _ _ Hloop) as [Hzip' Hreq'].
      split; [congruence|]. intros Hi Hlen Ht.
      rewrite len_cons in Hlen.
      destruct (Hreq' ltac:(lia) ltac:(lia) Ht) as (m & Hm & Hcount').
      exists (S m). split; [|lia].
      rewrite Hm, Hreq by lia. rewrite <- app_assoc. f_equal.
      cbn [seq List.map app]. f_equal; try lia.
      rewrite <- (seq_shift m 1), map_map. apply map_ext. intros k. lia.
    + intros H. injection H as <- <-.
      split; [exact Hzip|]. intros Hi Hlen Ht.
      rewrite len_cons in Hlen.
      exists 1%nat. split; [|lia].
      rewrite Hreq by lia. reflexivity.
Qed.

(** The steps after the loop change neither list, request nothing, and
    write one archive when there is a composite. *)
Lemma conclude_ledger (s : session) :
  composites (fst (conclude s)) = composites s
  /\ failed_generations (fst (conclude s)) = failed_generations s
  /\ requested (trace (fst (conclude s))) = requested (trace s)
  /\ archives (trace (fst (conclude s)))
     = archives (trace s)
       ++ match composites s with
          | [] => []
          | _ :: _ => [archive (composites s)]
          end.
Proof.
  unfold conclude. cbn [show composites].
  destruct (composites s) as [|cd cs] eqn:Ecs.
  - cbn [fst show composites failed_generations trace].
    rewrite !requested_app, !archives_app. cbn [requested archives].
    rewrite !app_nil_r. auto.
  - cbn [fst]. unfold present_and_package.
    cbn [show composites failed_generations trace].
    destruct (failed_generations s) as [|f fs] eqn:Efs;
      cbn [show composites failed_generations trace];
      rewrite Ecs, ?Efs;
      rewrite !requested_app, !archives_app;
      cbn [requested archives];
      rewrite ?requested_images, ?archives_images, ?app_nil_r; auto.
Qed.

(** *** The names in the archive *)

Lemma lit_inj (a b : string) : lit a = lit b -> a = b.
Proof.
  revert b. induction a as [|x a IH]; intros [|y b] H;
    try reflexivity; try discriminate H.
  unfold lit in H. cbn [list_ascii_of_string List.map] in H.
  injection H as Hxy Hab.
  f_equal.
  - rewrite <- (ascii_N_embedding x), <- (ascii_N_embedding y).
    f_equal. exact Hxy.
  - apply IH. exact Hab.
Qed.

Lemma str_of_int_inj (a b : Z) : str_of_int a = str_of_int b -> a = b.
Proof.
  unfold str_of_int. intros H. apply lit_inj in H.
  assert (Hback : forall z,
             NilZero.int_of_string (NilZero.string_of_int (Z.to_int z))
             = Some (Z.to_int z)).
  { intros z. apply NilZero.isi; destruct z; cbn [Z.to_int];
      try discriminate; intros E; injection E as E;
      exact (DecimalPos.Unsigned.to_uint_nonnil _ E). }
  pose proof (Hback a) as Ha. rewrite H, Hback in Ha.
  injection Ha as Ha. apply DecimalZ.to_int_inj. symmetry. exact Ha.
Qed.

Lemma NoDup_map_injective {A B} (f : A -> B) (l : list A) :
  (forall x y, f x = f y -> x = y) -> NoDup l -> NoDup (List.map f l).
Proof.
  intros Hinj. induction 1 as [|a l Hnotin Hnodup IH]; cbn [List.map];
    constructor; [|exact IH].
  intros Hin. apply in_map_iff in Hin. destruct Hin as (x & Hx & Hxin).
  apply Hinj in Hx. subst x. contradiction.
Qed.

Lemma archive_names (cs : list composite_data) :
  List.map member_name (archive cs)
  = List.map (fun n => lit "ad_variation_" ++ str_of_int n ++ lit ".png")
             (List.map variation_num cs)
    ++ [lit "captions.txt"].
Proof.
  unfold archive. rewrite map_app, !map_map. reflexivity.
Qed.

(** X19.  A campaign writes at most one archive, and it is the archive
    of the stored composites: one PNG member per composite, named
    after its variation number, and the captions file.  The member
    names are pairwise distinct, so no member overwrites another. *)
Theorem one_archive_with_distinct_names (prompts captions : list pystr) :
  let s := fst (campaign prompts captions) in
  (archives (trace s) = [] \/ archives (trace s) = [archive (composites s)])
  /\ List.map member_name (archive (composites s))
     = List.map (fun n => lit "ad_variation_" ++ str_of_int n
                          ++ lit ".png")
                (List.map variation_num (composites s))
       ++ [lit "captions.txt"]
  /\ NoDup (List.map member_name (archive (composites s))).
Proof.
  cbv zeta. unfold campaign, generate_campaign. fold loop.
  set (s0 := {| composites := []; failed_generations := [];
                trace := [status_text
                            (palette
                             ++ lit "Generating backgrounds and creating composites...");
                          progress 40] |}).
  destruct (loop 0 (len prompts) prompts captions s0) as [s1 c1] eqn:Eloop.
  destruct (loop_trace_ledger _ _ _ _ _ _ _ Eloop) as [Hzip _].
  pose proof (loop_ledger _ _ _ _ _ _ _ Eloop)
    as (done & failed & Hc & _ & Sd & _).
  cbn [composites s0 app] in Hc.
  assert (Hnodup : NoDup (List.map variation_num (composites s1))).
  { rewrite Hc. apply StronglySorted_lt_NoDup. exact Sd. }
  assert (Hnames : forall s,
             composites s = composites s1 ->
             NoDup (List.map member_name (archive (composites s)))).
  { intros s ->. rewrite archive_names.
    apply NoDup_app.
    - apply NoDup_map_injective; [|exact Hnodup].
      intros x y Hxy. apply app_inv_head in Hxy.
      apply app_inv_tail in Hxy. apply str_of_int_inj. exact Hxy.
    - repeat constructor. intros [].
    - intros name Hin [<- | []].
      apply in_map_iff in Hin. destruct Hin as (n & Hn & _).
      discriminate Hn. }
  destruct c1; cbn [fst].
  - destruct (conclude_ledger s1) as (Hcs & _ & _ & Harch).
    rewrite Hzip in Harch. cbn [s0 trace archives app] in Harch.
    split; [|split].
    + rewrite Harch, Hcs. destruct (composites s1); auto.
    + apply archive_names.
    + apply Hnames. exact Hcs.
  - split; [|split].
    + left. rewrite Hzip. reflexivity.
    + apply archive_names.
    + apply Hnames. reflexivity.
Qed.

(** X20.  A campaign asks for one background per variation it handles,
    in order and without repetition: with [m] the number of stored
    composites plus the number of failed variations at the end, the
    backgrounds requested are those of the variations 1, 2, ..., [m].
    After a credits error no further background is requested. *)
Theorem one_request_per_variation (prompts captions : list pystr) :
  len prompts < 2 ^ 53 ->
  let s := fst (campaign prompts captions) in
  requested (trace s)
  = List.map Z.of_nat
      (seq 1 (List.length (composites s)
              + List.length (failed_generations s))).
Proof.
  intros Hlen. cbv zeta. unfold campaign, generate_campaign. fold loop.
  set (s0 := {| composites := []; failed_generations := [];
                trace := [status_text
                            (palette
                             ++ lit "Generating backgrounds and creating composites...");
                          progress 40] |}).
  destruct (loop 0 (len prompts) prompts captions s0) as [s1 c1] eqn:Eloop.
  assert (Hreq : requested (trace s1)
                 = List.map Z.of_nat
                     (seq 1 (List.length (composites s1)
                             + List.length (failed_generations s1)))).
  { destruct prompts as [|prompt rest].
    - unfold loop in Eloop. cbn [variations] in Eloop.
      injection Eloop as <- <-. reflexivity.
    - destruct (loop_trace_ledger _ _ _ _ _ _ _ Eloop) as [_ Hr].
      destruct Hr as (m & Hm & Hcount);
        [lia | lia | rewrite len_cons in *;
                     pose proof (len_nonneg rest); lia |].
      cbn [s0 composites failed_generations trace requested
             List.length app] in Hm, Hcount.
      rewrite Hm, Hcount. apply map_ext. intros k. lia. }
  destruct c1; cbn [fst]; [|exact Hreq].
  destruct (conclude_ledger s1) as (-> & -> & -> & _). exact Hreq.
Qed.

End Ledger.

Section LedgerSamples.
Import PyStr PyFloat PIL ImageEdit ImageGen App Layout.

(** Three prompts against a service that is always rate-limited: the
    loop runs to its end with every variation listed as failed. *)
Lemma every_variation_is_stored_or_failed_witness :
  exists s',
    variations sample_key rate_limited no_image no_repr
      sample_convert sample_resample sample_paste
      square_product wide_logo 0 3 three_prompts one_caption
      empty_session = (s', Continue)
    /\ len (composites s') + len (failed_generations s') = 3
    /\ StronglySorted Z.lt (failed_generations s').
Proof.
  eexists. split; [vm_compute; reflexivity|].
  destruct (every_variation_is_stored_or_failed
              sample_key rate_limited no_image no_repr
              sample_convert sample_resample sample_paste
              square_product wide_logo 3 three_prompts one_caption
              empty_session _ Continue eq_refl eq_refl
              ltac:(vm_compute; reflexivity))
    as (_ & Hsorted & _ & _ & Hall).
  destruct (Hall eq_refl) as [_ Hcount].
  split; [exact Hcount | exact Hsorted].
Defined.

Lemma sample_loop_returns :
  exists s' c,
    variations sample_key one_artifact open_sample no_repr
      sample_convert sample_resample sample_paste
      square_product wide_logo 0 3 three_prompts one_caption
      empty_session = (s', c)
    /\ composites s' <> [].
Proof.
  assert (Hlen : List.length
                   (composites
                      (fst (variations sample_key one_artifact open_sample
                              no_repr sample_convert sample_resample
                              sample_paste square_product wide_logo 0 3
                              three_prompts one_caption empty_session)))
                 = 3%nat)
    by (vm_compute; reflexivity).
  destruct (variations sample_key one_artifact open_sample no_repr
              sample_convert sample_resample sample_paste
              square_product wide_logo 0 3 three_prompts one_caption
              empty_session) as [s' c].
  exists s', c. split; [reflexivity|].
  intros Hnone. cbn [fst] in Hlen.
  rewrite Hnone in Hlen. discriminate Hlen.
Qed.

(** Three prompts, one caption: every stored composite carries that
    caption. *)
Lemma stored_composites_carry_their_captions_witness :
  exists s' c,
    variations sample_key one_artifact open_sample no_repr
      sample_convert sample_resample sample_paste
      square_product wide_logo 0 3 three_prompts one_caption
      empty_session = (s', c)
    /\ composites s' <> []
    /\ forall cd, In cd (composites s') ->
                  caption cd = lit "Discover the difference.".
Proof.
  destruct sample_loop_returns as (s' & c & E & Hne).
  exists s', c. split; [exact E|]. split; [exact Hne|].
  intros cd Hin.
  destruct (stored_composites_carry_their_captions
              sample_key one_artifact open_sample no_repr
              sample_convert sample_resample sample_paste
              square_product wide_logo 3 three_prompts one_caption
              empty_session s' c cd eq_refl E Hin)
    as (_ & Hcap & _).
  rewrite Hcap. change (len one_caption - 1) with 0.
  replace (Z.to_nat (Z.min (variation_num cd - 1) 0)) with 0%nat by lia.
  reflexivity.
Defined.

Lemma one_request_per_variation_witness :
  requested
    (trace (fst (generate_campaign sample_key out_of_credits no_image
                   no_repr sample_convert sample_resample sample_paste
                   square_product wide_logo three_prompts one_caption)))
  = [1].
Proof.
  rewrite (one_request_per_variation sample_key out_of_credits no_image
             no_repr sample_convert sample_resample sample_paste
             square_product wide_logo three_prompts one_caption).
  - vm_compute. reflexivity.
  - vm_compute. reflexivity.
Defined.

End LedgerSamples.

(** ** The progress value of the loop *)

Section ProgressRange.
Import PyFloat App.

(** Rounding a positive mantissa: the rounded mantissa lies between
    the truncated one and its successor. *)
Lemma binary_round_aux_enclosed (s : bool) (mx : positive) (ex : Z)
    (l : location) :
  let n := Z.max 0 (fexp prec emax (Zdigits2 (Z.pos mx) + ex) - ex) in
  let e1 := ex + n in
  exists m2 : Z,
    Z.pos mx / 2 ^ n <= m2 <= Z.pos mx / 2 ^ n + 1 /\
    let n2 := Z.max 0 (fexp prec emax (Zdigits2 m2 + e1) - e1) in
    match binary_round_aux prec emax s (Z.pos mx) ex l with
    | S754_zero s' => s' = s /\ m2 / 2 ^ n2 = 0
    | S754_finite s' m e =>
        s' = s /\ e = e1 + n2 /\ Z.pos m = m2 / 2 ^ n2
    | S754_infinity s' => s' = s /\ emax - prec < e1 + n2
    | S754_nan => False
    end.
Proof.
  intros n e1. unfold binary_round_aux, shr_fexp.
  pose proof (shr_spec (Z.pos mx) ex
                (fexp prec emax (Zdigits2 (Z.pos mx) + ex) - ex) l) as H1.
  destruct (shr (shr_record_of_loc (Z.pos mx) l) ex
              (fexp prec emax (Zdigits2 (Z.pos mx) + ex) - ex))
    as [mrs' e'].
  destruct H1 as [Hm' He']; [lia|]. fold n in Hm', He'.
  assert (Hq : 0 <= Z.pos mx / 2 ^ n)
    by (apply Z.div_pos; [lia | apply Z.pow_pos_nonneg; lia]).
  set (m2 := round_nearest_even (shr_m mrs') (loc_of_shr_record mrs')).
  pose proof (round_nearest_even_bounds (shr_m mrs')
                (loc_of_shr_record mrs')) as Hr. fold m2 in Hr.
  exists m2. split; [lia|].
  replace e' with e1 by (unfold e1; lia).
  pose proof (shr_spec m2 e1
                (fexp prec emax (Zdigits2 m2 + e1) - e1) loc_Exact) as H2.
  destruct (shr (shr_record_of_loc m2 loc_Exact) e1
              (fexp prec emax (Zdigits2 m2 + e1) - e1)) as [mrs'' e''].
  destruct H2 as [Hm'' He'']; [lia|].
  cbv zeta.
  assert (Hq2 : 0 <= m2 / 2 ^ Z.max 0 (fexp prec emax (Zdigits2 m2 + e1) - e1))
    by (apply Z.div_pos; [lia | apply Z.pow_pos_nonneg; lia]).
  destruct (shr_m mrs'') as [|m|m] eqn:Em.
  - split; [reflexivity | congruence].
  - destruct (Z.leb_spec e'' (emax - prec)).
    + repeat split; [lia | congruence].
    + split; [reflexivity | lia].
  - lia.
Qed.

Lemma quotient_range (q r x b h : Z) :
  x = b * q + r -> 0 <= r < b -> h <= b < 2 * h ->
  2 ^ 52 * (2 * h) <= x < 2 ^ 54 * h ->
  2 ^ 52 <= q < 2 ^ 54.
Proof.
  intros Hx Hr Hb Hrange.
  change (2 ^ 52) with 4503599627370496 in *.
  change (2 ^ 54) with 18014398509481984 in *.
  split.
  - assert (H1 : 4503599627370496 * b < b * (q + 1)) by lia.
    assert (H2 : 4503599627370496 < q + 1).
    { apply Z.mul_lt_mono_pos_l with b; lia. }
    lia.
  - assert (H1 : b * q < b * 18014398509481984) by lia.
    apply Z.mul_lt_mono_pos_l with b; lia.
Qed.

Lemma quotient_bound (m m2 q q' r a b A B X : Z) :
  1 <= A -> 0 < B -> 0 < b -> 0 <= r -> 0 <= m ->
  m * A <= m2 -> m2 <= q' + 1 -> q' * B <= q ->
  a * (X * (A * B)) = b * q + r ->
  m * b <= a * X + b.
Proof.
  intros HA HB Hb Hr Hm H1 H2 H3 Hdm.
  assert (Hab : 0 < A * B) by (apply Z.mul_pos_pos; lia).
  assert (S1 : m * A * B <= (q' + 1) * B)
    by (apply Z.mul_le_mono_nonneg_r; lia).
  assert (S2 : m * A * B <= q + B) by lia.
  assert (S3 : m * A * B * b <= (q + B) * b)
    by (apply Z.mul_le_mono_nonneg_r; lia).
  assert (S4 : B * b <= A * B * b).
  { apply Z.mul_le_mono_nonneg_r; [lia|].
    rewrite <- (Z.mul_1_l B) at 1.
    apply Z.mul_le_mono_nonneg_r; lia. }
  assert (S5 : m * b * (A * B) <= (a * X + b) * (A * B)).
  { replace (m * b * (A * B)) with (m * A * B * b) by ring.
    replace ((a * X + b) * (A * B))
      with (a * (X * (A * B)) + A * B * b) by ring.
    rewrite Hdm. lia. }
  apply Z.mul_le_mono_pos_r in S5; assumption.
Qed.

Lemma Zdigits2_ge (m d : Z) : 2 ^ (d - 1) <= m -> 1 <= d -> d <= Zdigits2 m.
Proof.
  intros Hm Hd.
  assert (0 < 2 ^ (d - 1)) by (apply Z.pow_pos_nonneg; lia).
  destruct m as [|p|p]; cbn [Zdigits2]; try lia.
  apply digits2_pos_ge. assumption.
Qed.

(** [a / b] for [0 < a < b < 2 ^ 31]: a positive double [m * 2 ^ (- E)]
    that exceeds the exact quotient by at most [2 ^ (- E)]. *)
Lemma int_truediv_below (a b : Z) :
  0 < a < b -> b < 2 ^ 31 ->
  exists m E,
    int_truediv a b = Ok (S754_finite false m (- E))
    /\ 51 <= E <= 83
    /\ Z.pos m * b <= a * 2 ^ E + b.
Proof.
  intros Ha Hb.
  destruct a as [|pa|pa]; try lia. destruct b as [|pb|pb]; try lia.
  unfold int_truediv. cbn [Z.eqb raw].
  unfold fdiv, SFdiv, SFdiv_core_binary. cbn [xorb Zdigits2].
  pose proof (digits2_pos_bounds pa) as [Halo Hahi].
  pose proof (digits2_pos_bounds pb) as [Hblo Hbhi].
  assert (Hdb : Z.pos (digits2_pos pb) <= 31)
    by (apply digits2_pos_le; lia).
  assert (Hdab : Z.pos (digits2_pos pa) <= Z.pos (digits2_pos pb)).
  { apply digits2_pos_le. lia. }
  set (d1 := Z.pos (digits2_pos pa)) in *.
  set (d2 := Z.pos (digits2_pos pb)) in *.
  assert (Hd1 : 0 < d1) by (unfold d1; lia).
  assert (He' : Z.min (fexp prec emax (d1 + 0 - (d2 + 0))) (0 - 0)
                = d1 - d2 - 53)
    by (unfold fexp, SpecFloat.emin, prec, emax; lia).
  rewrite He'.
  destruct (0 - 0 - (d1 - d2 - 53)) as [|sh|sh] eqn:Es; try lia.
  rewrite Z.shiftl_mul_pow2 by lia.
  set (s := Z.pos sh) in *.
  assert (Hs : s = 53 + d2 - d1) by lia.
  assert (Hps : 0 < 2 ^ s) by (apply Z.pow_pos_nonneg; lia).
  pose proof (Z_div_mod (Z.pos pa * 2 ^ s) (Z.pos pb) ltac:(lia)) as Hdm.
  destruct (Z.div_eucl (Z.pos pa * 2 ^ s) (Z.pos pb)) as [q r].
  destruct Hdm as [Hdm Hr].
  assert (Hbig : 2 ^ (52 + d2) <= Z.pos pa * 2 ^ s).
  { replace (52 + d2) with ((d1 - 1) + s) by lia.
    rewrite Z.pow_add_r by lia.
    apply Z.mul_le_mono_nonneg_r; lia. }
  assert (Hsmall : Z.pos pa * 2 ^ s < 2 ^ (53 + d2)).
  { replace (53 + d2) with (d1 + s) by lia.
    rewrite Z.pow_add_r by lia.
    apply Z.mul_lt_mono_pos_r; lia. }
  assert (Hp52 : 2 ^ (52 + d2) = 2 ^ 52 * (2 * 2 ^ (d2 - 1))).
  { replace (52 + d2) with (52 + (1 + (d2 - 1))) by lia.
    rewrite Z.pow_add_r by lia. rewrite (Z.pow_add_r 2 1) by lia.
    reflexivity. }
  assert (Hp53 : 2 ^ (53 + d2) = 2 ^ 54 * 2 ^ (d2 - 1)).
  { rewrite <- Z.pow_add_r by lia. f_equal. lia. }
  assert (Hpd : 2 ^ d2 = 2 * 2 ^ (d2 - 1)).
  { replace d2 with (1 + (d2 - 1)) at 1 by lia.
    rewrite Z.pow_add_r by lia. reflexivity. }
  assert (Hq : 2 ^ 52 <= q < 2 ^ 54).
  { apply (quotient_range q r (Z.pos pa * 2 ^ s) (Z.pos pb)
             (2 ^ (d2 - 1))); [exact Hdm | exact Hr | fold d2 in Hblo; lia
                              | lia]. }
  destruct Hq as [Hq52 Hq54].
  destruct q as [|pq|pq]; try lia.
  replace (d1 - d2 - 53) with (- s) by lia.
  destruct (binary_round_aux_enclosed false pq (- s)
              (new_location (Z.pos pb) r)) as (m2 & Hm2 & Hres).
  cbv zeta in Hres. cbn [Zdigits2] in Hm2, Hres.
  pose proof (digits2_pos_bounds pq) as [Hqlo Hqhi].
  assert (Hdq : 53 <= Z.pos (digits2_pos pq) <= 54).
  { split; [apply digits2_pos_ge | apply digits2_pos_le]; lia. }
  set (dq := Z.pos (digits2_pos pq)) in *.
  assert (Hn : Z.max 0 (fexp prec emax (dq + - s) - - s) = dq - 53)
    by (unfold fexp, SpecFloat.emin, prec, emax; lia).
  rewrite Hn in Hm2, Hres.
  set (n := dq - 53) in *.
  assert (Hpn : 0 < 2 ^ n) by (apply Z.pow_pos_nonneg; unfold n; lia).
  assert (Hdiv : Z.pos pq / 2 ^ n * 2 ^ n <= Z.pos pq)
    by (rewrite Z.mul_comm; apply Z.mul_div_le; assumption).
  assert (Hqn_hi : Z.pos pq / 2 ^ n < 2 ^ 53).
  { apply Z.div_lt_upper_bound; [assumption|].
    replace (2 ^ n * 2 ^ 53) with (2 ^ dq); [assumption|].
    rewrite <- Z.pow_add_r by (unfold n; lia). f_equal. unfold n. lia. }
  assert (Hqn_lo : 2 ^ 52 <= Z.pos pq / 2 ^ n).
  { apply Z.div_le_lower_bound; [assumption|].
    replace (2 ^ n * 2 ^ 52) with (2 ^ (dq - 1)); [assumption|].
    rewrite <- Z.pow_add_r by (unfold n; lia). f_equal. unfold n. lia. }
  assert (Hd2 : 53 <= Zdigits2 m2 <= 54).
  { split.
    - apply Zdigits2_ge; [change (2 ^ (53 - 1)) with (2 ^ 52)|]; lia.
    - apply Zdigits2_le; [|lia]. change (2 ^ 54) with (2 * 2 ^ 53). lia. }
  assert (Hn2 : Z.max 0 (fexp prec emax (Zdigits2 m2 + (- s + n))
                         - (- s + n)) = Zdigits2 m2 - 53)
    by (unfold fexp, SpecFloat.emin, prec, emax, n; lia).
  rewrite Hn2 in Hres.
  set (n2 := Zdigits2 m2 - 53) in *.
  assert (Hpn2 : 0 < 2 ^ n2) by (apply Z.pow_pos_nonneg; unfold n2; lia).
  assert (Hm2n2 : 1 <= m2 / 2 ^ n2).
  { apply Z.div_le_lower_bound; [assumption|].
    assert (2 ^ n2 <= 2 ^ 1) by (apply pow2_le; unfold n2; lia).
    change (2 ^ 1) with 2 in *. change (2 ^ 52) with 4503599627370496 in *.
    lia. }
  destruct (binary_round_aux prec emax false (Z.pos pq) (- s)
              (new_location (Z.pos pb) r)) as [s' | s' | | s' m e].
  - destruct Hres as [_ Hzero]. lia.
  - destruct Hres as [_ Hinf]. unfold prec, emax, n, n2 in Hinf. lia.
  - contradiction.
  - destruct Hres as (-> & He & Hm).
    exists m, (s - n - n2).
    split; [do 2 f_equal; lia|].
    split; [unfold n, n2; lia|].
    assert (Hmm : Z.pos m * 2 ^ n2 <= m2)
      by (rewrite Hm, Z.mul_comm; apply Z.mul_div_le; assumption).
    assert (Hsplit : 2 ^ s = 2 ^ (s - n - n2) * (2 ^ n2 * 2 ^ n)).
    { rewrite <- !Z.pow_add_r by (unfold n, n2; lia).
      f_equal. lia. }
    apply (quotient_bound (Z.pos m) m2 (Z.pos pq) (Z.pos pq / 2 ^ n) r
             (Z.pos pa) (Z.pos pb) (2 ^ n2) (2 ^ n) (2 ^ (s - n - n2)));
      [lia | lia | lia | lia | lia | exact Hmm | lia | exact Hdiv |].
    rewrite <- Hsplit. exact Hdm.
Qed.

(** [int(x * c)] for a double [x = m * 2 ^ (- E)] of at most one and a
    positive double [c] with a full mantissa: a natural number that
    exceeds the exact product by less than two units of
    [2 ^ ec]. *)
Lemma fmul_floor_upper (m : positive) (E : Z) (mc : positive) (ec : Z) :
  0 <= E <= 200 -> -100 <= ec <= -1 ->
  Z.pos m <= 2 ^ E -> 2 ^ 52 <= Z.pos mc < 2 ^ 53 ->
  exists k,
    int_of_float (fmul (S754_finite false m (- E))
                       (S754_finite false mc ec)) = Ok k
    /\ 0 <= k
    /\ k * 2 ^ (E - ec) <= Z.pos m * Z.pos mc + 2 ^ (E + 1).
Proof.
  intros HE Hec Hm Hmc. unfold fmul, SFmul. cbn [xorb].
  set (P := (m * mc)%positive).
  assert (HP : Z.pos P = Z.pos m * Z.pos mc) by reflexivity.
  assert (HpE : 0 < 2 ^ E) by (apply Z.pow_pos_nonneg; lia).
  assert (HPlo : 2 ^ 52 <= Z.pos P).
  { rewrite HP. rewrite <- (Z.mul_1_l (2 ^ 52)).
    apply Z.mul_le_mono_nonneg; lia. }
  assert (HPhi : Z.pos P < 2 ^ (E + 54)).
  { rewrite HP. replace (E + 54) with (E + 1 + 53) by lia.
    rewrite Z.pow_add_r by lia.
    assert (Z.pos m < 2 ^ (E + 1)).
    { rewrite Z.pow_add_r by lia. change (2 ^ 1) with 2. lia. }
    apply Z.mul_lt_mono_nonneg; lia. }
  assert (HD : 53 <= Z.pos (digits2_pos P) <= E + 54).
  { split; [apply digits2_pos_ge | apply digits2_pos_le]; assumption. }
  pose proof (digits2_pos_bounds P) as [_ HDhi].
  destruct (binary_round_aux_enclosed false P (- E + ec) loc_Exact)
    as (m2 & Hm2 & Hres).
  cbv zeta in Hres. cbn [Zdigits2] in Hm2, Hres.
  set (D := Z.pos (digits2_pos P)) in *.
  assert (Hn : Z.max 0 (fexp prec emax (D + (- E + ec)) - (- E + ec))
               = D - 53)
    by (unfold fexp, SpecFloat.emin, prec, emax; lia).
  rewrite Hn in Hm2, Hres.
  set (n := D - 53) in *.
  set (e1 := - E + ec + n) in *.
  assert (He1 : e1 <= 0) by (unfold e1, n; lia).
  assert (Hpn : 0 < 2 ^ n) by (apply Z.pow_pos_nonneg; unfold n; lia).
  assert (Hq : 0 <= Z.pos P / 2 ^ n < 2 ^ 53).
  { split; [apply Z.div_pos; lia|].
    apply Z.div_lt_upper_bound; [assumption|].
    replace (2 ^ n * 2 ^ 53) with (2 ^ D); [assumption|].
    rewrite <- Z.pow_add_r by (unfold n; lia). f_equal. unfold n. lia. }
  assert (Hd2 : 0 <= Zdigits2 m2 <= 54).
  { split; [destruct m2; cbn; lia|].
    apply Zdigits2_le; [|lia]. change (2 ^ 54) with (2 * 2 ^ 53). lia. }
  assert (Hn2 : 0 <= Z.max 0 (fexp prec emax (Zdigits2 m2 + e1) - e1) <= 1)
    by (unfold fexp, SpecFloat.emin, prec, emax, e1, n; lia).
  set (n2 := Z.max 0 (fexp prec emax (Zdigits2 m2 + e1) - e1)) in *.
  assert (Hdiv : Z.pos P / 2 ^ n * 2 ^ n <= Z.pos P)
    by (rewrite Z.mul_comm; apply Z.mul_div_le; assumption).
  assert (Hpn_le : 2 ^ n <= 2 ^ (E + 1))
    by (apply pow2_le; unfold n; lia).
  assert (Hsplit : 2 ^ (E - ec) = 2 ^ (- e1) * 2 ^ n).
  { rewrite <- Z.pow_add_r by (unfold e1, n; lia).
    f_equal. unfold e1. lia. }
  assert (Hkey : forall k, 0 <= k -> k * 2 ^ (- e1) <= m2 ->
                           k * 2 ^ (E - ec) <= Z.pos P + 2 ^ (E + 1)).
  { intros k Hk0 Hk. rewrite Hsplit, Z.mul_assoc.
    assert (k * 2 ^ (- e1) * 2 ^ n <= (Z.pos P / 2 ^ n + 1) * 2 ^ n)
      by (apply Z.mul_le_mono_nonneg_r; lia).
    lia. }
  destruct (binary_round_aux prec emax false (Z.pos P) (- E + ec)
              loc_Exact) as [s' | s' | | s' mr e] eqn:Eres.
  - exists 0. split; [reflexivity|]. split; [lia|].
    assert (0 < 2 ^ (E + 1)) by (apply Z.pow_pos_nonneg; lia). lia.
  - destruct Hres as [_ Hinf]. unfold prec, emax in Hinf. lia.
  - contradiction.
  - destruct Hres as (-> & He & Hmr).
    destruct (int_of_float (S754_finite false mr e)) as [k | ex] eqn:Ek;
      [|discriminate Ek].
    exists k. split; [reflexivity|].
    destruct (int_of_float_floor (S754_finite false mr e) k eq_refl Ek)
      as (Hk0 & Hle & _).
    split; [exact Hk0|]. rewrite <- HP. apply Hkey; [exact Hk0|].
    apply (Z_le_float_unshift k mr e e1 n2 m2); try assumption; lia.
Qed.

Lemma below_fifty (k m i t X : Z) :
  0 <= i < t -> t < 2 ^ 31 -> 2 ^ 51 <= X -> 0 <= m ->
  m * t <= i * X + t ->
  k * (X * 2 ^ 47) <= m * (50 * 2 ^ 47) + 2 * X ->
  k <= 49.
Proof.
  intros Hi Ht HX Hm H1 H2.
  change (2 ^ 31) with 2147483648 in *.
  change (2 ^ 51) with 2251799813685248 in *.
  change (2 ^ 47) with 140737488355328 in *.
  destruct (Z_le_gt_dec k 49) as [|Hk]; [assumption|]. exfalso.
  assert (A0 : 50 * (X * 140737488355328) <= k * (X * 140737488355328))
    by (apply Z.mul_le_mono_nonneg_r; lia).
  assert (A1 : 50 * 140737488355328 * X
               <= 50 * 140737488355328 * m + 2 * X) by lia.
  assert (A2 : (50 * 140737488355328 * X) * t
               <= (50 * 140737488355328 * m + 2 * X) * t)
    by (apply Z.mul_le_mono_nonneg_r; lia).
  assert (A3 : i * X <= (t - 1) * X)
    by (apply Z.mul_le_mono_nonneg_r; lia).
  assert (A4 : X * t <= X * 2147483647)
    by (apply Z.mul_le_mono_nonneg_l; lia).
  assert (A5 : 50 * 140737488355328 * (X * t)
               <= 50 * 140737488355328 * (m * t) + 2 * (X * t)).
  { replace (50 * 140737488355328 * (X * t))
      with (50 * 140737488355328 * X * t) by ring.
    replace (50 * 140737488355328 * (m * t) + 2 * (X * t))
      with ((50 * 140737488355328 * m + 2 * X) * t) by ring.
    exact A2. }
  replace ((t - 1) * X) with (X * t - X) in A3 by ring.
  lia.
Qed.

(** X21.  The progress value of line 155 is always a percentage the
    progress bar accepts: for every index [i] of a list of fewer than
    [2 ^ 31] prompts the computation raises nothing and yields a
    number from 40 to 89, so the bar never runs backwards past 40 and
    never reaches the 100 that is shown after the loop. *)
Theorem progress_stays_in_range (i total : Z) :
  0 <= i < total -> total < 2 ^ 31 ->
  exists percent,
    progress_percent i total = Ok percent /\ 40 <= percent <= 89.
Proof.
  intros Hi Ht. unfold progress_percent.
  destruct (Z.eq_dec i 0) as [-> | Hnz].
  - unfold int_truediv.
    destruct (Z.eqb_spec total 0) as [|_]; [lia|].
    destruct total as [|pt|pt]; try lia.
    exists 40. split; [reflexivity | lia].
  - destruct (int_truediv_below i total) as (m & E & Hq & HE & Hm);
      [lia | lia |].
    rewrite Hq. cbn [bind].
    change (of_int 50) with (Ok f50). cbn [bind]. unfold f50.
    assert (HpE : 0 < 2 ^ E) by (apply Z.pow_pos_nonneg; lia).
    assert (H31 : 2 ^ 31 <= 2 ^ E) by (apply pow2_le; lia).
    assert (HmE : Z.pos m <= 2 ^ E).
    { assert (Z.pos m * total <= 2 ^ E * total).
      { assert (i * 2 ^ E <= (total - 1) * 2 ^ E)
          by (apply Z.mul_le_mono_nonneg_r; lia).
        lia. }
      apply Z.mul_le_mono_pos_r with total; lia. }
    destruct (fmul_floor_upper m E 7036874417766400 (-47))
      as (k & Hk & Hk0 & Hup); [lia | lia | exact HmE | lia |].
    rewrite Hk. cbn [bind]. exists (40 + k). split; [reflexivity|].
    assert (Hk49 : k <= 49).
    { apply (below_fifty k (Z.pos m) i total (2 ^ E)); try lia.
      - apply Z.le_trans with (2 ^ E); [|lia].
        change (2 ^ 51) with (2 ^ 51). apply pow2_le. lia.
      - replace (E - -47) with (E + 47) in Hup by lia.
        rewrite !Z.pow_add_r in Hup by lia.
        change (2 ^ 1) with 2 in Hup.
        change (Z.pos 7036874417766400) with (50 * 2 ^ 47) in Hup.
        lia. }
    lia.
Qed.

End ProgressRange.

Section ProgressSamples.
Import PyFloat App.

Lemma progress_stays_in_range_witness :
  exists percent, progress_percent 3 7 = Ok percent /\ 40 <= percent <= 89.
Proof. apply (progress_stays_in_range 3 7); lia. Defined.

End ProgressSamples.

(** ** Rounding to a normal double: both bounds *)

Section FloatTools.
Import PyFloat.

(** Rounding a mantissa of at least 53 digits in the normal range
    gives a double with a full mantissa [m] and the exponent
    [ex + n + c], where [n] is the number of digits dropped and [c] is
    1 when rounding carried into a new digit; the value is within one
    unit of the last kept digit of the exact one. *)
Lemma round_normal (mx : positive) (ex : Z) (l : location) :
  let n := Z.pos (digits2_pos mx) - 53 in
  0 <= n -> -1074 <= ex -> ex + n <= 900 ->
  exists m c,
    binary_round_aux prec emax false (Z.pos mx) ex l
    = S754_finite false m (ex + n + c)
    /\ 0 <= c <= 1
    /\ 2 ^ 52 <= Z.pos m < 2 ^ 53
    /\ Z.pos mx - 2 ^ n < Z.pos m * 2 ^ (n + c) <= Z.pos mx + 2 ^ n.
Proof.
  intros n Hn Hex Hhi.
  destruct (binary_round_aux_enclosed false mx ex l) as (m2 & Hm2 & Hres).
  cbv zeta in Hres. cbn [Zdigits2] in Hm2, Hres.
  pose proof (digits2_pos_bounds mx) as [HDlo HDhi].
  set (D := Z.pos (digits2_pos mx)) in *.
  assert (Hn' : Z.max 0 (fexp prec emax (D + ex) - ex) = n)
    by (unfold fexp, SpecFloat.emin, prec, emax, n in *; lia).
  rewrite Hn' in Hm2, Hres.
  assert (Hpn : 0 < 2 ^ n) by (apply Z.pow_pos_nonneg; lia).
  assert (Hdiv : Z.pos mx / 2 ^ n * 2 ^ n <= Z.pos mx)
    by (rewrite Z.mul_comm; apply Z.mul_div_le; assumption).
  assert (Hdiv' : Z.pos mx < (Z.pos mx / 2 ^ n + 1) * 2 ^ n).
  { rewrite Z.mul_comm. apply Z.mul_succ_div_gt. assumption. }
  assert (Hq_hi : Z.pos mx / 2 ^ n < 2 ^ 53).
  { apply Z.div_lt_upper_bound; [assumption|].
    replace (2 ^ n * 2 ^ 53) with (2 ^ D); [assumption|].
    rewrite <- Z.pow_add_r by lia. f_equal. unfold n. lia. }
  assert (Hq_lo : 2 ^ 52 <= Z.pos mx / 2 ^ n).
  { apply Z.div_le_lower_bound; [assumption|].
    replace (2 ^ n * 2 ^ 52) with (2 ^ (D - 1)); [assumption|].
    rewrite <- Z.pow_add_r by lia. f_equal. unfold n. lia. }
  assert (Hd2 : 53 <= Zdigits2 m2 <= 54).
  { split.
    - apply Zdigits2_ge; [change (2 ^ (53 - 1)) with (2 ^ 52)|]; lia.
    - apply Zdigits2_le; [|lia]. change (2 ^ 54) with (2 * 2 ^ 53). lia. }
  assert (Hn2 : Z.max 0 (fexp prec emax (Zdigits2 m2 + (ex + n))
                         - (ex + n)) = Zdigits2 m2 - 53)
    by (unfold fexp, SpecFloat.emin, prec, emax; lia).
  rewrite Hn2 in Hres.
  set (c := Zdigits2 m2 - 53) in *.
  assert (Hm2c : m2 / 2 ^ c * 2 ^ c = m2 /\ 2 ^ 52 <= m2 / 2 ^ c < 2 ^ 53).
  { destruct (Z.eq_dec c 0) as [Hc0 | Hc1].
    - rewrite Hc0. change (2 ^ 0) with 1. rewrite Z.div_1_r.
      split; [lia|]. split; [lia|].
      destruct m2 as [|p2|p2]; try (cbn in Hd2; lia).
      pose proof (digits2_pos_bounds p2) as [_ Hp2].
      cbn [Zdigits2] in *. unfold c in Hc0.
      replace (Z.pos (digits2_pos p2)) with 53 in Hp2 by lia.
      exact Hp2.
    - assert (Hc : c = 1) by (unfold c in *; lia).
      assert (Hm253 : m2 = 2 ^ 53).
      { destruct m2 as [|p2|p2]; try (cbn in Hd2; lia).
        pose proof (digits2_pos_bounds p2) as [Hp2 _].
        cbn [Zdigits2] in *. unfold c in Hc.
        replace (Z.pos (digits2_pos p2) - 1) with 53 in Hp2 by lia.
        lia. }
      rewrite Hc, Hm253. change (2 ^ 53 / 2 ^ 1) with (2 ^ 52).
      change (2 ^ 52 * 2 ^ 1) with (2 ^ 53).
      split; [reflexivity|].
      change (2 ^ 52) with 4503599627370496.
      change (2 ^ 53) with 9007199254740992. lia. }
  destruct Hm2c as [Hexact Hnorm].
  destruct (binary_round_aux prec emax false (Z.pos mx) ex l)
    as [s' | s' | | s' m e].
  - destruct Hres as [_ Hzero]. lia.
  - destruct Hres as [_ Hinf]. unfold prec, emax, c in Hinf. lia.
  - contradiction.
  - destruct Hres as (-> & -> & Hm).
    exists m, c. split; [reflexivity|].
    split; [unfold c; lia|]. split; [rewrite Hm; exact Hnorm|].
    rewrite Z.pow_add_r by (unfold c; lia).
    replace (Z.pos m * (2 ^ n * 2 ^ c)) with (Z.pos m * 2 ^ c * 2 ^ n)
      by ring.
    rewrite Hm, Hexact.
    assert (m2 * 2 ^ n <= (Z.pos mx / 2 ^ n + 1) * 2 ^ n)
      by (apply Z.mul_le_mono_nonneg_r; lia).
    assert (Z.pos mx / 2 ^ n * 2 ^ n <= m2 * 2 ^ n)
      by (apply Z.mul_le_mono_nonneg_r; lia).
    lia.
Qed.

Lemma normal_digits (m : positive) :
  2 ^ 52 <= Z.pos m < 2 ^ 53 -> Z.pos (digits2_pos m) = 53.
Proof.
  intros [Hlo Hhi].
  assert (Z.pos (digits2_pos m) <= 53) by (apply digits2_pos_le; lia).
  assert (53 <= Z.pos (digits2_pos m))
    by (apply digits2_pos_ge; change (2 ^ (53 - 1)) with (2 ^ 52); lia).
  lia.
Qed.

(** The product of two normal doubles. *)
Lemma fmul_normal (m1 m2 : positive) (e1 e2 : Z) :
  2 ^ 52 <= Z.pos m1 < 2 ^ 53 -> 2 ^ 52 <= Z.pos m2 < 2 ^ 53 ->
  -1000 <= e1 + e2 <= 800 ->
  exists m d,
    fmul (S754_finite false m1 e1) (S754_finite false m2 e2)
    = S754_finite false m (e1 + e2 + d)
    /\ 52 <= d <= 54
    /\ 2 ^ 52 <= Z.pos m < 2 ^ 53
    /\ Z.pos m * 2 ^ d <= Z.pos m1 * Z.pos m2 + 2 ^ 53.
Proof.
  intros H1 H2 He. unfold fmul, SFmul. cbn [xorb].
  set (P := (m1 * m2)%positive).
  assert (HP : Z.pos P = Z.pos m1 * Z.pos m2) by reflexivity.
  assert (HPb : 2 ^ 104 <= Z.pos P < 2 ^ 106).
  { change (2 ^ 104) with (2 ^ 52 * 2 ^ 52).
    change (2 ^ 106) with (2 ^ 53 * 2 ^ 53). rewrite HP. split.
    - apply Z.mul_le_mono_nonneg; lia.
    - apply Z.mul_lt_mono_nonneg; lia. }
  assert (HD : 105 <= Z.pos (digits2_pos P) <= 106).
  { split; [apply digits2_pos_ge | apply digits2_pos_le]; lia. }
  destruct (round_normal P (e1 + e2) loc_Exact)
    as (m & c & Hres & Hc & Hm & Hlo & Hhi); [lia | lia | lia |].
  set (n := Z.pos (digits2_pos P) - 53) in *.
  exists m, (n + c). split; [rewrite Hres; f_equal; lia|].
  split; [unfold n; lia|]. split; [exact Hm|].
  assert (2 ^ n <= 2 ^ 53) by (apply pow2_le; unfold n; lia).
  rewrite <- HP. lia.
Qed.

(** The quotient of two normal doubles. *)
Lemma fdiv_normal (m1 m2 : positive) (e1 e2 : Z) :
  2 ^ 52 <= Z.pos m1 < 2 ^ 53 -> 2 ^ 52 <= Z.pos m2 < 2 ^ 53 ->
  -900 <= e1 - e2 <= 900 ->
  exists m d,
    fdiv (S754_finite false m1 e1) (S754_finite false m2 e2)
    = S754_finite false m (e1 - e2 - 53 + d)
    /\ 0 <= d <= 2
    /\ 2 ^ 52 <= Z.pos m < 2 ^ 53
    /\ Z.pos m * 2 ^ d * Z.pos m2 <= Z.pos m1 * 2 ^ 53 + 2 * Z.pos m2.
Proof.
  intros H1 H2 He.
  unfold fdiv, SFdiv, SFdiv_core_binary. cbn [xorb Zdigits2].
  rewrite (normal_digits m1 H1), (normal_digits m2 H2).
  assert (He' : Z.min (fexp prec emax (53 + e1 - (53 + e2))) (e1 - e2)
                = e1 - e2 - 53)
    by (unfold fexp, SpecFloat.emin, prec, emax; lia).
  rewrite He'.
  replace (e1 - e2 - (e1 - e2 - 53)) with 53 by lia.
  cbv beta iota zeta.
  rewrite Z.shiftl_mul_pow2 by lia.
  pose proof (Z_div_mod (Z.pos m1 * 2 ^ 53) (Z.pos m2) ltac:(lia)) as Hdm.
  destruct (Z.div_eucl (Z.pos m1 * 2 ^ 53) (Z.pos m2)) as [q r].
  destruct Hdm as [Hdm Hr].
  assert (Hq : 2 ^ 52 <= q < 2 ^ 54).
  { apply (quotient_range q r (Z.pos m1 * 2 ^ 53) (Z.pos m2) (2 ^ 52));
      [exact Hdm | exact Hr | |].
    - change (2 * 2 ^ 52) with (2 ^ 53). lia.
    - change (2 ^ 52 * (2 * 2 ^ 52)) with (2 ^ 52 * 2 ^ 53).
      change (2 ^ 54 * 2 ^ 52) with (2 ^ 53 * 2 ^ 53).
      split; [apply Z.mul_le_mono_nonneg_r | apply Z.mul_lt_mono_pos_r];
        lia. }
  destruct q as [|pq|pq]; try lia.
  assert (Hdq : 53 <= Z.pos (digits2_pos pq) <= 54).
  { split; [apply digits2_pos_ge | apply digits2_pos_le];
      change (2 ^ (53 - 1)) with (2 ^ 52); lia. }
  destruct (round_normal pq (e1 - e2 - 53) (new_location (Z.pos m2) r))
    as (m & c & Hres & Hc & Hm & Hlo & Hhi); [lia | lia | lia |].
  set (n := Z.pos (digits2_pos pq) - 53) in *.
  exists m, (n + c). split; [rewrite Hres; f_equal; lia|].
  split; [unfold n; lia|]. split; [exact Hm|].
  assert (Hn2 : 2 ^ n <= 2).
  { change 2 with (2 ^ 1) at 2. apply pow2_le. unfold n. lia. }
  assert (Z.pos m * 2 ^ (n + c) * Z.pos m2 <= (Z.pos pq + 2) * Z.pos m2)
    by (apply Z.mul_le_mono_nonneg_r; lia).
  lia.
Qed.

(** [a / b] on two positive integers below [2 ^ 31] is a normal
    double between [2 ^ (- 32)] and [2 ^ 32]. *)
Lemma int_truediv_normal (a b : Z) :
  0 < a < 2 ^ 31 -> 0 < b < 2 ^ 31 ->
  exists m E,
    int_truediv a b = Ok (S754_finite false m (- E))
    /\ 21 <= E <= 83
    /\ 2 ^ 52 <= Z.pos m < 2 ^ 53.
Proof.
  intros Ha Hb.
  destruct a as [|pa|pa]; try lia. destruct b as [|pb|pb]; try lia.
  unfold int_truediv. cbn [Z.eqb raw].
  unfold fdiv, SFdiv, SFdiv_core_binary. cbn [xorb Zdigits2].
  pose proof (digits2_pos_bounds pa) as [Halo Hahi].
  pose proof (digits2_pos_bounds pb) as [Hblo Hbhi].
  assert (Hda : Z.pos (digits2_pos pa) <= 31)
    by (apply digits2_pos_le; lia).
  assert (Hdb : Z.pos (digits2_pos pb) <= 31)
    by (apply digits2_pos_le; lia).
  set (d1 := Z.pos (digits2_pos pa)) in *.
  set (d2 := Z.pos (digits2_pos pb)) in *.
  assert (Hd1 : 0 < d1) by (unfold d1; lia).
  assert (Hd2 : 0 < d2) by (unfold d2; lia).
  assert (He' : Z.min (fexp prec emax (d1 + 0 - (d2 + 0))) (0 - 0)
                = d1 - d2 - 53)
    by (unfold fexp, SpecFloat.emin, prec, emax; lia).
  rewrite He'.
  destruct (0 - 0 - (d1 - d2 - 53)) as [|sh|sh] eqn:Es; try lia.
  rewrite Z.shiftl_mul_pow2 by lia.
  set (s := Z.pos sh) in *.
  assert (Hs : s = 53 + d2 - d1) by lia.
  assert (Hps : 0 < 2 ^ s) by (apply Z.pow_pos_nonneg; lia).
  pose proof (Z_div_mod (Z.pos pa * 2 ^ s) (Z.pos pb) ltac:(lia)) as Hdm.
  destruct (Z.div_eucl (Z.pos pa * 2 ^ s) (Z.pos pb)) as [q r].
  destruct Hdm as [Hdm Hr].
  assert (Hbig : 2 ^ (52 + d2) <= Z.pos pa * 2 ^ s).
  { replace (52 + d2) with ((d1 - 1) + s) by lia.
    rewrite Z.pow_add_r by lia.
    apply Z.mul_le_mono_nonneg_r; lia. }
  assert (Hsmall : Z.pos pa * 2 ^ s < 2 ^ (53 + d2)).
  { replace (53 + d2) with (d1 + s) by lia.
    rewrite Z.pow_add_r by lia.
    apply Z.mul_lt_mono_pos_r; lia. }
  assert (Hp52 : 2 ^ (52 + d2) = 2 ^ 52 * (2 * 2 ^ (d2 - 1))).
  { replace (52 + d2) with (52 + (1 + (d2 - 1))) by lia.
    rewrite Z.pow_add_r by lia. rewrite (Z.pow_add_r 2 1) by lia.
    reflexivity. }
  assert (Hp53 : 2 ^ (53 + d2) = 2 ^ 54 * 2 ^ (d2 - 1)).
  { rewrite <- Z.pow_add_r by lia. f_equal. lia. }
  assert (Hpd : 2 ^ d2 = 2 * 2 ^ (d2 - 1)).
  { replace d2 with (1 + (d2 - 1)) at 1 by lia.
    rewrite Z.pow_add_r by lia. reflexivity. }
  assert (Hq : 2 ^ 52 <= q < 2 ^ 54).
  { apply (quotient_range q r (Z.pos pa * 2 ^ s) (Z.pos pb)
             (2 ^ (d2 - 1))); [exact Hdm | exact Hr | fold d2 in Hblo; lia
                              | lia]. }
  destruct q as [|pq|pq]; try lia.
  assert (Hdq : 53 <= Z.pos (digits2_pos pq) <= 54).
  { split; [apply digits2_pos_ge | apply digits2_pos_le];
      change (2 ^ (53 - 1)) with (2 ^ 52); lia. }
  replace (d1 - d2 - 53) with (- s) by lia.
  destruct (round_normal pq (- s) (new_location (Z.pos pb) r))
    as (m & c & Hres & Hc & Hm & _); [lia | lia | lia |].
  set (n := Z.pos (digits2_pos pq) - 53) in *.
  rewrite Hres. exists m, (s - n - c).
  split; [do 2 f_equal; lia|]. split; [unfold n; lia | exact Hm].
Qed.

(** An integer below a double, on a common scale. *)
Lemma Z_le_float_scaled (k : Z) (m : positive) (e L : Z) :
  Z_le_float k (S754_finite false m e) -> 0 <= L -> 0 <= L + e ->
  k * 2 ^ L <= Z.pos m * 2 ^ (L + e).
Proof.
  intros Hle HL HLe. apply Z_le_float_finite in Hle.
  destruct (Z.leb_spec 0 e) as [Hpos | Hneg].
  - rewrite Z.pow_add_r by lia.
    assert (0 < 2 ^ L) by (apply Z.pow_pos_nonneg; lia).
    replace (Z.pos m * (2 ^ L * 2 ^ e)) with (Z.pos m * 2 ^ e * 2 ^ L)
      by ring.
    apply Z.mul_le_mono_nonneg_r; lia.
  - replace L with (- e + (L + e)) at 1 by lia.
    rewrite Z.pow_add_r by lia. rewrite Z.mul_assoc.
    assert (0 < 2 ^ (L + e)) by (apply Z.pow_pos_nonneg; lia).
    apply Z.mul_le_mono_nonneg_r; lia.
Qed.

(** [n > x] puts [int(x)] strictly below [n]. *)
Lemma int_gt_float_floor (n k : Z) (x : float) :
  nonneg_finite x -> int_gt_float n x = true -> int_of_float x = Ok k ->
  k < n.
Proof.
  intros Hx Hgt Hk.
  destruct (int_of_float_floor x k Hx Hk) as (Hk0 & Hle & _).
  unfold int_gt_float in Hgt.
  destruct x as [s | s | | s m e]; cbn [nonneg_finite] in Hx;
    try contradiction.
  - cbn [int_of_float] in Hk. apply Ok_inj in Hk. subst k.
    cbn [compare_int_float] in Hgt.
    destruct (Z.compare_spec n 0); try discriminate Hgt. lia.
  - subst s. apply Z_le_float_finite in Hle.
    cbn [compare_int_float] in Hgt.
    destruct (Z.leb_spec 0 e) as [Hpos | Hneg].
    + destruct (Z.compare_spec n (Z.pos m * 2 ^ e));
        try discriminate Hgt. lia.
    + destruct (Z.compare_spec (n * 2 ^ (- e)) (Z.pos m));
        try discriminate Hgt.
      assert (0 < 2 ^ (- e)) by (apply Z.pow_pos_nonneg; lia).
      apply Z.mul_lt_mono_pos_r with (2 ^ (- e)); lia.
Qed.

End FloatTools.

(** ** The product's box stays inside the background from top to bottom *)

Section Vertical.
Import PyFloat PIL ImageEdit Layout.

Ltac inv_bind H :=
  let a := fresh "v" in
  let E := fresh "E" in
  apply bind_Ok in H; destruct H as (a & E & H).

Lemma capped_arith (h0 tw th ma Y Xa Z0 : Z) :
  0 <= h0 -> 0 < Y -> 0 <= Xa -> 0 < ma -> 2 * ma <= Y -> Z0 < ma ->
  0 <= tw ->
  (tw + 1) * Xa <= h0 * ma + Z0 ->
  th * Y * ma <= tw * Y * Xa + 2 * ma * Xa ->
  th <= h0.
Proof.
  intros Hh HY HXa Hma HY2 HZ Htw HA HB.
  destruct (Z_le_gt_dec th h0) as [|Hgt]; [assumption|]. exfalso.
  assert (HYma : 0 < Y * ma) by (apply Z.mul_pos_pos; lia).
  assert (S1 : (h0 + 1) * (Y * ma) <= th * (Y * ma))
    by (apply Z.mul_le_mono_nonneg_r; lia).
  assert (S2 : (tw + 1) * Xa * Y <= (h0 * ma + Z0) * Y)
    by (apply Z.mul_le_mono_nonneg_r; lia).
  assert (S3 : 2 * ma * Xa <= Y * Xa)
    by (apply Z.mul_le_mono_nonneg_r; lia).
  assert (S4 : Z0 * Y < ma * Y)
    by (apply Z.mul_lt_mono_pos_r; lia).
  replace (th * (Y * ma)) with (th * Y * ma) in S1 by ring.
  replace ((h0 + 1) * (Y * ma)) with (h0 * ma * Y + ma * Y) in S1 by ring.
  replace ((tw + 1) * Xa * Y) with (tw * Y * Xa + Y * Xa) in S2 by ring.
  replace ((h0 * ma + Z0) * Y) with (h0 * ma * Y + Z0 * Y) in S2 by ring.
  lia.
Qed.

(** The exponent of [float(n)] for [0 < n < 2 ^ 31]. *)
Lemma of_int_small (n : Z) :
  0 < n < 2 ^ 31 ->
  exists m u,
    of_int n = Ok (S754_finite false m (- u))
    /\ 22 <= u <= 52
    /\ Z.pos m = n * 2 ^ u
    /\ 2 ^ 52 <= Z.pos m < 2 ^ 53.
Proof.
  intros Hn.
  destruct (of_int_exact n) as (m & e & Hof & He & Hm & Hmb);
    [change (2 ^ 53) with 9007199254740992;
     change (2 ^ 31) with 2147483648 in Hn; lia|].
  exists m, (- e). rewrite Z.opp_involutive.
  split; [exact Hof|]. split; [|split; assumption].
  assert (Hpe : 0 < 2 ^ (- e)) by (apply Z.pow_pos_nonneg; lia).
  split.
  - destruct (Z_lt_le_dec (- e) 22) as [Hlt|]; [|assumption].
    assert (2 ^ (- e) <= 2 ^ 21) by (apply pow2_le; lia).
    assert (n * 2 ^ (- e) < 2 ^ 31 * 2 ^ 21).
    { apply Z.le_lt_trans with (n * 2 ^ 21).
      - apply Z.mul_le_mono_nonneg_l; lia.
      - apply Z.mul_lt_mono_pos_r; [reflexivity | lia]. }
    change (2 ^ 31 * 2 ^ 21) with (2 ^ 52) in *. lia.
  - destruct (Z_lt_le_dec 52 (- e)) as [Hlt|]; [|lia].
    assert (2 ^ 53 <= 2 ^ (- e)) by (apply pow2_le; lia).
    assert (1 * 2 ^ (- e) <= n * 2 ^ (- e))
      by (apply Z.mul_le_mono_nonneg_r; lia).
    lia.
Qed.

(** When the width is capped, the height recomputed from it does not
    exceed the default height. *)
Lemma capped_height_le_default (h0 w0 tw th : Z) (ma : positive) (Ea : Z)
    (F q : float) :
  0 < h0 < 2 ^ 31 -> 0 <= tw < w0 -> tw < 2 ^ 31 ->
  21 <= Ea <= 83 -> 2 ^ 52 <= Z.pos ma < 2 ^ 53 ->
  int_mul_float h0 (S754_finite false ma (- Ea)) = Ok F ->
  int_of_float F = Ok w0 ->
  int_div_float tw (S754_finite false ma (- Ea)) = Ok q ->
  int_of_float q = Ok th ->
  0 <= th <= h0.
Proof.
  intros Hh Htw Htw31 HEa Hma HF Hw0 Hq Hth.
  destruct (Z.eq_dec tw 0) as [-> | Htwnz].
  - cbn in Hq. apply Ok_inj in Hq. subst q.
    cbn in Hth. apply Ok_inj in Hth. subst th. lia.
  - (* the default width *)
    destruct (of_int_small h0 Hh) as (mh & u & Hofh & Hu & Hmh & Hmhn).
    unfold int_mul_float in HF. rewrite Hofh in HF. cbn [bind] in HF.
    apply Ok_inj in HF.
    destruct (fmul_normal mh ma (- u) (- Ea) Hmhn Hma ltac:(lia))
      as (mF & dF & HFeq & HdF & HmF & HFup).
    rewrite HFeq in HF. subst F.
    destruct (int_of_float_floor (S754_finite false mF (- u + - Ea + dF))
                w0 eq_refl Hw0) as (_ & Hw0le & _).
    apply (Z_le_float_scaled w0 mF _ (u + Ea)) in Hw0le; [|lia|lia].
    replace (u + Ea + (- u + - Ea + dF)) with dF in Hw0le by lia.
    (* the recomputed height *)
    destruct (of_int_small tw ltac:(lia)) as (mt & v & Hoft & Hv & Hmt & Hmtn).
    unfold int_div_float, float_truediv in Hq.
    rewrite Hoft in Hq. cbn [bind is_zero] in Hq. apply Ok_inj in Hq.
    destruct (fdiv_normal mt ma (- v) (- Ea) Hmtn Hma ltac:(lia))
      as (mG & dG & HGeq & HdG & HmG & HGup).
    rewrite HGeq in Hq. subst q.
    destruct (int_of_float_floor
                (S754_finite false mG (- v - - Ea - 53 + dG))
                th eq_refl Hth) as (Hth0 & Hthle & _).
    split; [exact Hth0|].
    apply (Z_le_float_scaled th mG _ (v + 53)) in Hthle; [|lia|lia].
    replace (v + 53 + (- v - - Ea - 53 + dG)) with (Ea + dG) in Hthle
      by lia.
    (* the arithmetic *)
    assert (Hpu : 0 < 2 ^ u) by (apply Z.pow_pos_nonneg; lia).
    assert (HpEa : 0 < 2 ^ Ea) by (apply Z.pow_pos_nonneg; lia).
    assert (HpY : 0 < 2 ^ (v + 53)) by (apply Z.pow_pos_nonneg; lia).
    assert (HpdG : 0 < 2 ^ dG) by (apply Z.pow_pos_nonneg; lia).
    assert (HY54 : 2 ^ 54 <= 2 ^ (v + 53)) by (apply pow2_le; lia).
    assert (HZ0 : 2 ^ (53 - u) <= 2 ^ 31) by (apply pow2_le; lia).
    apply (capped_arith h0 tw th (Z.pos ma) (2 ^ (v + 53)) (2 ^ Ea)
             (2 ^ (53 - u)));
      [lia | exact HpY | lia | lia | | | lia | |].
    + change (2 ^ 54) with (2 * 2 ^ 53) in HY54. lia.
    + change (2 ^ 31) with 2147483648 in HZ0.
      change (2 ^ 52) with 4503599627370496 in Hma. lia.
    + (* A *)
      assert (H53 : 2 ^ 53 = 2 ^ (53 - u) * 2 ^ u).
      { rewrite <- Z.pow_add_r by lia. f_equal. lia. }
      assert (HuEa : 2 ^ (u + Ea) = 2 ^ Ea * 2 ^ u).
      { rewrite Z.add_comm. apply Z.pow_add_r; lia. }
      assert (S1 : (tw + 1) * 2 ^ (u + Ea) <= w0 * 2 ^ (u + Ea)).
      { apply Z.mul_le_mono_nonneg_r; [|lia].
        apply Z.pow_nonneg. lia. }
      assert (S2 : (tw + 1) * 2 ^ Ea * 2 ^ u
                   <= (h0 * Z.pos ma + 2 ^ (53 - u)) * 2 ^ u).
      { replace ((tw + 1) * 2 ^ Ea * 2 ^ u)
          with ((tw + 1) * 2 ^ (u + Ea)) by (rewrite HuEa; ring).
        replace ((h0 * Z.pos ma + 2 ^ (53 - u)) * 2 ^ u)
          with (Z.pos mh * Z.pos ma + 2 ^ 53)
          by (rewrite Hmh, H53; ring).
        lia. }
      apply Z.mul_le_mono_pos_r in S2; assumption.
    + (* B *)
      assert (HEd : 2 ^ (Ea + dG) = 2 ^ dG * 2 ^ Ea).
      { rewrite Z.add_comm. apply Z.pow_add_r; lia. }
      assert (HY : 2 ^ (v + 53) = 2 ^ v * 2 ^ 53)
        by (apply Z.pow_add_r; lia).
      assert (S1 : th * 2 ^ (v + 53) * Z.pos ma
                   <= Z.pos mG * 2 ^ (Ea + dG) * Z.pos ma)
        by (apply Z.mul_le_mono_nonneg_r; lia).
      assert (S2 : Z.pos mG * 2 ^ dG * Z.pos ma * 2 ^ Ea
                   <= (Z.pos mt * 2 ^ 53 + 2 * Z.pos ma) * 2 ^ Ea)
        by (apply Z.mul_le_mono_nonneg_r; lia).
      replace (Z.pos mG * 2 ^ (Ea + dG) * Z.pos ma)
        with (Z.pos mG * 2 ^ dG * Z.pos ma * 2 ^ Ea) in S1
        by (rewrite HEd; ring).
      replace ((Z.pos mt * 2 ^ 53 + 2 * Z.pos ma) * 2 ^ Ea)
        with (tw * 2 ^ (v + 53) * 2 ^ Ea + 2 * Z.pos ma * 2 ^ Ea) in S2
        by (rewrite Hmt, HY; ring).
      lia.
Qed.

(** X22.  With the default size ratio the product's box lies inside
    the background from top to bottom as well: for a background and a
    product whose sides are positive and below [2 ^ 31], the height the
    product is resized to is a natural number of at most 40% of the
    background's height, also after the width was capped, its upper
    edge is at a row that is not negative and its lower edge at most the
    background's height. *)
Theorem product_box_within_height
    (W H : Z) (product : Image) (tw th x y : Z) :
  0 <= W < 2 ^ 31 -> 0 < H < 2 ^ 31 ->
  0 < width product < 2 ^ 31 -> 0 < height product < 2 ^ 31 ->
  product_layout W H product default_product_size_ratio
  = Ok (tw, th, x, y) ->
  0 <= th /\ 10 * th <= 4 * H /\ 0 <= y /\ y + th <= H.
Proof.
  intros HW HH Hpw Hph Hl. unfold product_layout in Hl.
  inv_bind Hl. destruct v as [tw' th']. inv_bind Hl.
  destruct v as [x' y']. apply Ok_inj in Hl.
  injection Hl as -> -> -> ->.
  rename E into Hsize, E0 into Hpos.
  (* the margin *)
  apply product_position_inv in Hpos.
  destruct Hpos as (margin & (mm & Hmm & Hmint) & _ & ->).
  destruct (int_times_constant H 7205759403792794 (-57) mm margin)
    as [Hmargin0 Hmargin]; [lia | lia | lia | exact Hmm | exact Hmint |].
  change (- -57) with 57 in Hmargin.
  (* the default size *)
  apply product_target_size_inv in Hsize.
  destruct Hsize as (w0 & h0 & aspect & limit & Hd & Hlimit & Hbranch).
  apply product_default_size_inv in Hd.
  destruct Hd as ((h & Hh & Hhint) & Haspect & (w & Hw & Hwint)).
  destruct (int_times_constant H 7205759403792794 (-54) h h0)
    as [Hh0 Hh0up]; [lia | lia | lia | exact Hh | exact Hhint |].
  change (- -54) with 54 in Hh0up.
  assert (Hh40 : 10 * h0 <= 4 * H) by lia.
  assert (Hmargin5 : 20 * margin <= H) by lia.
  destruct (int_gt_float w0 limit) eqn:Egt.
  - (* the width is capped *)
    destruct Hbranch as (Htw & q & Hq & Hth).
    destruct (limit_0_9 W HW) as (lim & Hlim & Hfin & Hup).
    rewrite Hlim in Hlimit. apply Ok_inj in Hlimit. subst limit.
    destruct (int_of_float_floor lim tw Hfin Htw) as (Htw0 & Htwle & _).
    pose proof (Hup tw Htwle) as Htw9.
    pose proof (int_gt_float_floor w0 tw lim Hfin Egt Htw) as Htww0.
    destruct (int_truediv_normal (width product) (height product)
                Hpw Hph) as (ma & Ea & Ha & HEa & Hma).
    rewrite Ha in Haspect. apply Ok_inj in Haspect. subst aspect.
    assert (Hh0pos : 0 < h0).
    { destruct (Z.eq_dec h0 0) as [Hz | Hnz]; [|lia]. exfalso.
      subst h0. cbn in Hw. apply Ok_inj in Hw. subst w.
      cbn in Hwint. apply Ok_inj in Hwint. lia. }
    destruct (capped_height_le_default h0 w0 tw th ma Ea w q)
      as [Hth0 Hthh0]; try assumption; try lia.
  - destruct Hbranch as [-> ->]. lia.
Qed.

End Vertical.

Section VerticalSamples.
Import PyFloat PIL ImageEdit Layout.

Lemma product_box_within_height_witness :
  0 <= 131 /\ 10 * 131 <= 4 * 1024 /\ 0 <= 842 /\ 842 + 131 <= 1024.
Proof.
  apply (product_box_within_height 1024 1024 wide_product 921 131 51 842).
  - lia.
  - lia.
  - cbn. lia.
  - cbn. lia.
  - vm_compute. reflexivity.
Defined.

End VerticalSamples.

(** ** The gradient of the base image *)

Section Gradient.
Import PyFloat PIL BaseImage.

Variable new_error : string -> Z * Z -> option exn.

Ltac inv_bind H :=
  let a := fresh "v" in
  let E := fresh "E" in
  apply bind_Ok in H; destruct H as (a & E & H).

(** [a / b] for [0 < a < b < 2 ^ 31], with its mantissa and its
    distance from the exact quotient. *)
Lemma int_truediv_proper (a b : Z) :
  0 < a < b -> b < 2 ^ 31 ->
  exists m E,
    int_truediv a b = Ok (S754_finite false m (- E))
    /\ 51 <= E <= 83
    /\ 2 ^ 52 <= Z.pos m < 2 ^ 53
    /\ Z.pos m * b <= a * 2 ^ E + b.
Proof.
  intros Ha Hb.
  destruct (int_truediv_below a b Ha Hb) as (m & E & Hq & HE & Hup).
  destruct (int_truediv_normal a b ltac:(lia) ltac:(lia))
    as (m' & E' & Hq' & _ & Hnorm).
  rewrite Hq in Hq'. injection Hq' as Hm HE'. subst m'.
  exists m, E. auto.
Qed.

(** The exponents of [float(top)] and [float(span)]. *)
Lemma of_int_byte (top : Z) :
  128 <= top < 256 ->
  exists m,
    of_int top = Ok (S754_finite false m (- 45))
    /\ Z.pos m = top * 2 ^ 45.
Proof.
  intros Ht.
  destruct (of_int_small top) as (m & u & Hof & Hu & Hm & Hnorm);
    [change (2 ^ 31) with 2147483648; lia|].
  assert (Hu45 : u = 45).
  { assert (Hpu : 0 < 2 ^ u) by (apply Z.pow_pos_nonneg; lia).
    destruct (Z_lt_le_dec u 45) as [Hlt | Hge].
    - assert (2 ^ u <= 2 ^ 44) by (apply pow2_le; lia).
      assert (top * 2 ^ u <= 255 * 2 ^ 44)
        by (apply Z.mul_le_mono_nonneg; lia).
      change (2 ^ 52) with (256 * 2 ^ 44) in Hnorm. lia.
    - destruct (Z_lt_le_dec 45 u) as [Hgt | Hle]; [|lia].
      assert (2 ^ 46 <= 2 ^ u) by (apply pow2_le; lia).
      assert (128 * 2 ^ 46 <= top * 2 ^ u)
        by (apply Z.mul_le_mono_nonneg; lia).
      change (128 * 2 ^ 46) with (2 ^ 53) in *. lia. }
  subst u. exists m. auto.
Qed.

Lemma of_int_span (span : Z) :
  1 <= span <= 31 ->
  exists m u,
    of_int span = Ok (S754_finite false m (- u))
    /\ 48 <= u <= 52
    /\ Z.pos m = span * 2 ^ u
    /\ 2 ^ 52 <= Z.pos m < 2 ^ 53.
Proof.
  intros Hs.
  destruct (of_int_small span) as (m & u & Hof & Hu & Hm & Hnorm);
    [change (2 ^ 31) with 2147483648; lia|].
  exists m, u. split; [exact Hof|]. split; [|auto].
  split; [|lia].
  destruct (Z_lt_le_dec u 48) as [Hlt | Hge]; [|assumption].
  assert (2 ^ u <= 2 ^ 47) by (apply pow2_le; lia).
  assert (span * 2 ^ u <= 31 * 2 ^ 47)
    by (apply Z.mul_le_mono_nonneg; lia).
  change (2 ^ 52) with (32 * 2 ^ 47) in Hnorm. lia.
Qed.

(** The scaled row index times the span stays below the span. *)
Lemma scaled_below_span (m ms h y X : Z) :
  0 < y < h -> h < 2 ^ 31 -> 2 ^ 51 <= X -> 0 < m ->
  2 ^ 52 <= ms ->
  m * h <= y * X + h ->
  m * ms + 2 ^ 53 <= ms * X.
Proof.
  intros Hy Hh HX Hm Hms Hup.
  change (2 ^ 31) with 2147483648 in *.
  change (2 ^ 51) with 2251799813685248 in *.
  change (2 ^ 52) with 4503599627370496 in *.
  change (2 ^ 53) with 9007199254740992 in *.
  assert (S1 : y * X <= (h - 1) * X)
    by (apply Z.mul_le_mono_nonneg_r; lia).
  assert (Hg : 2 <= X - m).
  { destruct (Z_lt_le_dec (X - m) 2) as [Hlt | Hge]; [|assumption].
    exfalso.
    assert ((X - m) * h <= 1 * h)
      by (apply Z.mul_le_mono_nonneg_r; lia).
    replace ((X - m) * h) with (X * h - m * h) in H by ring.
    replace ((h - 1) * X) with (X * h - X) in S1 by ring.
    lia. }
  assert (S2 : ms * 2 <= ms * (X - m))
    by (apply Z.mul_le_mono_nonneg_l; lia).
  replace (ms * (X - m)) with (ms * X - m * ms) in S2 by ring.
  lia.
Qed.

(** The subtraction [top - t] for a double [t = mt * 2 ^ et] between 0
    and [span], truncated: between [top - span] and [top]. *)
Lemma top_minus_small (top span : Z) (mT mt : positive) (et : Z) :
  128 <= top - span -> top < 256 -> 0 <= span ->
  Z.pos mT = top * 2 ^ 45 ->
  2 ^ 52 <= Z.pos mt < 2 ^ 53 ->
  -200 <= et <= -48 ->
  Z.pos mt <= span * 2 ^ (- et) ->
  exists c,
    int_of_float (fsub (S754_finite false mT (- 45))
                       (S754_finite false mt et)) = Ok c
    /\ top - span <= c <= top.
Proof.
  intros Hlow Hhigh Hspan HmT Hmt Het Hle.
  unfold fsub, SFsub. rewrite Z.min_r by lia.
  unfold shl_align. rewrite Z.sub_diag.
  destruct (et - - 45) as [|p|p] eqn:Ep; try lia.
  cbn [fst cond_Zopp]. rewrite iter_xO_pow.
  set (n := Z.pos p) in *.
  assert (Hn : n = - 45 - et) by lia.
  assert (Hpn : 0 < 2 ^ n) by (apply Z.pow_pos_nonneg; lia).
  assert (Hp45 : 0 < 2 ^ 45) by (apply Z.pow_pos_nonneg; lia).
  assert (Het' : 2 ^ (- et) = 2 ^ 45 * 2 ^ n).
  { rewrite <- Z.pow_add_r by lia. f_equal. lia. }
  rewrite Het' in Hle.
  assert (Hn8 : 2 ^ 3 <= 2 ^ n) by (apply pow2_le; lia).
  change (2 ^ 3) with 8 in Hn8.
  (* the exact difference *)
  set (M := Z.pos mT * 2 ^ n - Z.pos mt).
  assert (HMlo : (top - span) * 2 ^ 45 * 2 ^ n <= M).
  { unfold M. rewrite HmT.
    replace ((top - span) * 2 ^ 45 * 2 ^ n)
      with (top * 2 ^ 45 * 2 ^ n - span * (2 ^ 45 * 2 ^ n)) by ring.
    lia. }
  assert (HMhi : M < Z.pos mT * 2 ^ n) by (unfold M; lia).
  assert (H128 : 2 ^ 52 * 2 ^ n <= (top - span) * 2 ^ 45 * 2 ^ n).
  { apply Z.mul_le_mono_nonneg_r; [lia|].
    change (2 ^ 52) with (128 * 2 ^ 45).
    apply Z.mul_le_mono_nonneg_r; lia. }
  assert (H256 : Z.pos mT * 2 ^ n < 2 ^ 53 * 2 ^ n).
  { apply Z.mul_lt_mono_pos_r; [assumption|].
    rewrite HmT. change (2 ^ 53) with (256 * 2 ^ 45).
    apply Z.mul_lt_mono_pos_r; lia. }
  assert (HMpos : 0 < M).
  { assert (0 < 2 ^ 52 * 2 ^ n) by (apply Z.mul_pos_pos; lia). lia. }
  destruct M as [|pM|pM] eqn:EM; try lia.
  cbn [binary_normalize]. unfold binary_round.
  assert (HD : Z.pos (digits2_pos pM) = 53 + n).
  { assert (Z.pos (digits2_pos pM) <= 53 + n).
    { apply digits2_pos_le. rewrite Z.pow_add_r by lia. lia. }
    assert (53 + n <= Z.pos (digits2_pos pM)).
    { apply digits2_pos_ge.
      replace (53 + n - 1) with (52 + n) by lia.
      rewrite Z.pow_add_r by lia. lia. }
    lia. }
  rewrite HD.
  assert (Hfexp : fexp prec emax (53 + n + et) = et + n)
    by (unfold fexp, SpecFloat.emin, prec, emax; lia).
  rewrite Hfexp. unfold shl_align.
  destruct (et + n - et) as [|p'|p'] eqn:Ep'; try lia.
  destruct (round_normal pM et loc_Exact)
    as (mr & c & Hres & Hc & Hmr & Hlo & Hhi); [lia | lia | lia |].
  rewrite HD in Hres, Hlo, Hhi.
  replace (53 + n - 53) with n in Hres, Hlo, Hhi by lia.
  rewrite Hres.
  replace (et + n + c) with (c - 45) by lia.
  cbn [int_of_float].
  destruct (Z.leb_spec 0 (c - 45)) as [Hbad | _]; [lia|].
  replace (- (c - 45)) with (45 - c) by lia.
  eexists. split; [reflexivity|].
  assert (Hpc : 0 < 2 ^ c) by (apply Z.pow_pos_nonneg; lia).
  assert (Hp45c : 0 < 2 ^ (45 - c)) by (apply Z.pow_pos_nonneg; lia).
  assert (H45 : 2 ^ 45 = 2 ^ (45 - c) * 2 ^ c).
  { rewrite <- Z.pow_add_r by lia. f_equal. lia. }
  assert (Hnc : 2 ^ (n + c) = 2 ^ c * 2 ^ n).
  { rewrite Z.add_comm. apply Z.pow_add_r; lia. }
  rewrite Hnc in Hlo, Hhi.
  (* cancel the shift *)
  assert (Hlo' : (top - span) * 2 ^ 45 <= Z.pos mr * 2 ^ c).
  { assert (((top - span) * 2 ^ 45 - 1) * 2 ^ n
            < Z.pos mr * 2 ^ c * 2 ^ n).
    { replace (((top - span) * 2 ^ 45 - 1) * 2 ^ n)
        with ((top - span) * 2 ^ 45 * 2 ^ n - 2 ^ n) by ring.
      replace (Z.pos mr * 2 ^ c * 2 ^ n)
        with (Z.pos mr * (2 ^ c * 2 ^ n)) by ring.
      lia. }
    apply Z.mul_lt_mono_pos_r in H; lia. }
  assert (Hhi' : Z.pos mr * 2 ^ c <= top * 2 ^ 45).
  { assert (Z.pos mr * 2 ^ c * 2 ^ n < (Z.pos mT + 1) * 2 ^ n).
    { replace (Z.pos mr * 2 ^ c * 2 ^ n)
        with (Z.pos mr * (2 ^ c * 2 ^ n)) by ring.
      replace ((Z.pos mT + 1) * 2 ^ n)
        with (Z.pos mT * 2 ^ n + 2 ^ n) by ring.
      lia. }
    apply Z.mul_lt_mono_pos_r in H; lia. }
  rewrite H45 in Hlo', Hhi'.
  split.
  - apply Z.div_le_lower_bound; [assumption|].
    apply Z.mul_le_mono_pos_r with (2 ^ c); [assumption|].
    replace (2 ^ (45 - c) * (top - span) * 2 ^ c)
      with ((top - span) * (2 ^ (45 - c) * 2 ^ c)) by ring.
    exact Hlo'.
  - apply Z.div_le_upper_bound; [assumption|].
    apply Z.mul_le_mono_pos_r with (2 ^ c); [assumption|].
    replace (2 ^ (45 - c) * top * 2 ^ c)
      with (top * (2 ^ (45 - c) * 2 ^ c)) by ring.
    exact Hhi'.
Qed.

(** One channel of the gradient stays between [top - span] and [top],
    and is [top] in the first row. *)
Lemma gradient_channel_range (top span y height : Z) :
  128 <= top - span -> top < 256 -> 1 <= span <= 31 ->
  0 <= y < height -> height < 2 ^ 31 ->
  exists c,
    gradient_channel top span y height = Ok c
    /\ top - span <= c <= top
    /\ (y = 0 -> c = top).
Proof.
  intros Hlow Hhigh Hspan Hy Hh. unfold gradient_channel.
  destruct (of_int_byte top ltac:(lia)) as (mT & HofT & HmT).
  destruct (of_int_span span Hspan) as (ms & us & Hofs & Hus & Hms & Hmsn).
  destruct (Z.eq_dec y 0) as [-> | Hnz].
  - unfold int_truediv.
    destruct (Z.eqb_spec height 0) as [|_]; [lia|].
    destruct height as [|ph|ph]; try lia.
    cbn [raw fdiv SFdiv xorb bind]. rewrite Hofs, HofT. cbn [bind].
    cbn [fmul SFmul fsub SFsub xorb int_of_float Z.leb Z.compare].
    change (- - 45) with 45. rewrite HmT, Z.div_mul by lia.
    exists top. split; [reflexivity|]. split; [lia | reflexivity].
  - destruct (int_truediv_proper y height ltac:(lia) Hh)
      as (m & E & Hq & HE & Hm & Hup).
    rewrite Hq. cbn [bind]. rewrite Hofs, HofT. cbn [bind].
    destruct (fmul_normal m ms (- E) (- us) Hm Hmsn ltac:(lia))
      as (mt & d & Ht & Hd & Hmt & Htup).
    rewrite Ht.
    assert (HpE : 0 < 2 ^ E) by (apply Z.pow_pos_nonneg; lia).
    assert (HX51 : 2 ^ 51 <= 2 ^ E) by (apply pow2_le; lia).
    pose proof (scaled_below_span (Z.pos m) (Z.pos ms) height y (2 ^ E)
                  ltac:(lia) Hh HX51 ltac:(lia) ltac:(lia) Hup) as Hbelow.
    assert (Hkey : Z.pos mt * 2 ^ d <= span * 2 ^ (us + E)).
    { rewrite Z.pow_add_r by lia. rewrite Z.mul_assoc, <- Hms. lia. }
    (* the exponent of the product *)
    assert (Hpd : 0 < 2 ^ d) by (apply Z.pow_pos_nonneg; lia).
    assert (Hexp : d + 48 <= us + E).
    { destruct (Z_lt_le_dec (us + E) (d + 48)) as [Hlt | Hge];
        [|assumption]. exfalso.
      assert (2 ^ (us + E) <= 2 ^ (d + 47)) by (apply pow2_le; lia).
      assert (span * 2 ^ (us + E) <= 31 * 2 ^ (d + 47)).
      { apply Z.mul_le_mono_nonneg; try lia;
          try (apply Z.pow_nonneg; lia). }
      assert (2 ^ 52 * 2 ^ d <= Z.pos mt * 2 ^ d)
        by (apply Z.mul_le_mono_nonneg_r; lia).
      replace (d + 47) with (47 + d) in * by lia.
      rewrite (Z.pow_add_r 2 47 d) in * by lia.
      change (2 ^ 52) with (32 * 2 ^ 47) in *.
      assert (0 < 2 ^ 47 * 2 ^ d) by (apply Z.mul_pos_pos; lia).
      lia. }
    destruct (top_minus_small top span mT mt (- E + - us + d))
      as (c & Hc & Hrange); try lia; try assumption.
    + (* the product is at most the span *)
      replace (- (- E + - us + d)) with (us + E - d) by lia.
      assert (Hsplit : 2 ^ (us + E) = 2 ^ (us + E - d) * 2 ^ d).
      { rewrite <- Z.pow_add_r by lia. f_equal. lia. }
      rewrite Hsplit, Z.mul_assoc in Hkey.
      apply Z.mul_le_mono_pos_r in Hkey; assumption.
    + exists c. split; [exact Hc|]. split; [exact Hrange | lia].
Qed.

Lemma gradient_colour_range (y height : Z) :
  0 <= y < height -> height < 2 ^ 31 ->
  exists p,
    gradient_colour y height = Ok p
    /\ 220 <= red p <= 240 /\ green p = red p
    /\ 230 <= blue p <= 245
    /\ (y = 0 -> red p = 240 /\ blue p = 245).
Proof.
  intros Hy Hh. unfold gradient_colour.
  destruct (gradient_channel_range 240 20 y height)
    as (r & Hr & Hrr & Hr0); try lia.
  destruct (gradient_channel_range 245 15 y height)
    as (b & Hb & Hbr & Hb0); try lia.
  rewrite Hr. cbn [bind]. rewrite Hb. cbn [bind].
  eexists. split; [reflexivity|]. cbn [red green blue].
  split; [lia|]. split; [reflexivity|]. split; [lia|].
  intros Hz. split; [apply Hr0 | apply Hb0]; exact Hz.
Qed.

Lemma gradient_rows_spec (height : Z) (n : nat) :
  forall y,
    0 <= y -> y + Z.of_nat n <= height -> height < 2 ^ 31 ->
    exists rows,
      gradient_rows n y height = Ok rows
      /\ List.length rows = n
      /\ forall k d,
          (k < n)%nat ->
          gradient_colour (y + Z.of_nat k) height = Ok (nth k rows d).
Proof.
  induction n as [|n IH]; intros y Hy Hn Hh.
  - exists []. split; [reflexivity|]. split; [reflexivity|].
    intros k d Hk. lia.
  - cbn [gradient_rows].
    destruct (gradient_colour_range y height ltac:(lia) Hh)
      as (p & Hp & _).
    destruct (IH (y + 1) ltac:(lia) ltac:(lia) Hh)
      as (rest & Hrest & Hlen & Hnth).
    rewrite Hp. cbn [bind]. rewrite Hrest. cbn [bind].
    exists (p :: rest). split; [reflexivity|].
    split; [cbn [List.length]; lia|].
    intros [|k] d Hk.
    + cbn [nth]. rewrite Z.add_0_r. exact Hp.
    + cbn [nth]. rewrite <- (Hnth k d) by lia. f_equal. lia.
Qed.

(** X23.  When [Image.new] takes the size, a width that is not
    negative and a height from 0 to below [2 ^ 31],
    [_create_base_image] raises nothing: it returns an RGB image of
    the requested size whose every pixel is a light colour with valid
    bytes, red and green equal and between 220 and 240, blue between
    230 and 245, and whose first row is (240, 240, 245).  The bounds
    hold in binary64 arithmetic, for every row and every height. *)
Theorem base_image_is_a_light_gradient (width height : Z) :
  0 <= width -> 0 <= height < 2 ^ 31 ->
  new_error "RGB"%string (width, height) = None ->
  exists img,
    _create_base_image new_error width height = Ok img
    /\ mode img = "RGB"%string
    /\ size img = (width, height)
    /\ forall x y,
        0 <= y < height ->
        let p := getpixel img x y in
        220 <= red p <= 240 /\ green p = red p
        /\ 230 <= blue p <= 245
        /\ (y = 0 -> red p = 240 /\ blue p = 245).
Proof.
  intros Hw Hh Hnew. unfold _create_base_image, Image_new_checked.
  cbn [fst snd].
  replace ((width <? 0) || (height <? 0)) with false
    by (symmetry; apply orb_false_iff; rewrite !Z.ltb_ge; lia).
  rewrite Hnew. cbn [bind].
  destruct (gradient_rows_spec height (Z.to_nat height) 0)
    as (rows & Hrows & Hlen & Hnth); [lia | lia | lia |].
  rewrite Hrows. cbn [bind]. eexists. split; [reflexivity|].
  split; [reflexivity|]. split; [reflexivity|].
  intros x y Hy. cbn [getpixel]. cbv zeta.
  replace ((0 <=? y) && (y <? height)) with true
    by (symmetry; apply andb_true_iff; split;
        [apply Z.leb_le | apply Z.ltb_lt]; lia).
  destruct (gradient_colour_range y height Hy ltac:(lia))
    as (p & Hp & Hrange).
  specialize (Hnth (Z.to_nat y)
                (getpixel (Image_new "RGB" (width, height)
                             (Pixel 240 240 245 255)) x y)
                ltac:(lia)).
  rewrite Z2Nat.id, Z.add_0_l in Hnth by lia.
  rewrite Hp in Hnth. apply Ok_inj in Hnth. rewrite <- Hnth.
  exact Hrange.
Qed.

End Gradient.

Section GradientSamples.
Import PyFloat PIL BaseImage.

(** The base image of the size [generate_background] asks for. *)
Lemma base_image_is_a_light_gradient_witness :
  exists img,
    _create_base_image small_sizes_only 1024 1024 = Ok img
    /\ size img = (1024, 1024)
    /\ 220 <= red (getpixel img 0 1023) <= 240.
Proof.
  destruct (base_image_is_a_light_gradient small_sizes_only 1024 1024)
    as (img & Himg & _ & Hsize & Hpix); [lia | lia | reflexivity |].
  exists img. split; [exact Himg|]. split; [exact Hsize|].
  apply (Hpix 0 1023). lia.
Defined.

End GradientSamples.

(** ** The layout is always computed *)

Section LayoutTotal.
Import PyFloat PIL ImageEdit Layout.

Lemma int_of_float_nonneg (x : float) :
  nonneg_finite x -> exists k, int_of_float x = Ok k.
Proof.
  destruct x as [s | s | | s m e]; cbn [nonneg_finite int_of_float];
    try contradiction; eauto.
Qed.

(** [int(n * c)] for a constant of the source. *)
Lemma int_times_constant_ok (n : Z) (mc : positive) (ec : Z) :
  0 <= n < 2 ^ 31 -> 2 ^ 52 <= Z.pos mc < 2 ^ 53 -> -1000 <= ec <= -31 ->
  exists v k,
    int_mul_float n (S754_finite false mc ec) = Ok v
    /\ int_of_float v = Ok k
    /\ 0 <= k /\ k * 2 ^ (- ec) <= n * Z.pos mc + 2 ^ 31.
Proof.
  intros Hn Hmc Hec.
  assert (Hv : exists v, int_mul_float n (S754_finite false mc ec) = Ok v
                         /\ nonneg_finite v).
  { destruct (Z.eq_dec n 0) as [-> | Hnz].
    - eexists. split; [reflexivity | exact I].
    - destruct (int_mul_float_upper n mc ec) as (lim & Hlim & Hfin & _);
        try lia.
      eauto. }
  destruct Hv as (v & Hv & Hfin).
  destruct (int_of_float_nonneg v Hfin) as (k & Hk).
  exists v, k. split; [exact Hv|]. split; [exact Hk|].
  apply (int_times_constant n mc ec v k); assumption.
Qed.

(** [int(n * aspect)] and [int(n / aspect)] for an aspect ratio. *)
Lemma int_times_aspect_ok (n : Z) (ma : positive) (Ea : Z) :
  0 <= n < 2 ^ 31 -> 21 <= Ea <= 83 -> 2 ^ 52 <= Z.pos ma < 2 ^ 53 ->
  exists v k,
    int_mul_float n (S754_finite false ma (- Ea)) = Ok v
    /\ int_of_float v = Ok k /\ 0 <= k.
Proof.
  intros Hn HEa Hma.
  destruct (Z.eq_dec n 0) as [-> | Hnz].
  - eexists. exists 0. split; [reflexivity|]. split; [reflexivity | lia].
  - destruct (of_int_small n ltac:(lia)) as (m & u & Hof & Hu & _ & Hm).
    unfold int_mul_float. rewrite Hof. cbn [bind].
    destruct (fmul_normal m ma (- u) (- Ea) Hm Hma ltac:(lia))
      as (mF & dF & HF & _).
    rewrite HF.
    destruct (int_of_float_nonneg
                (S754_finite false mF (- u + - Ea + dF)) eq_refl)
      as (k & Hk).
    destruct (int_of_float_floor
                (S754_finite false mF (- u + - Ea + dF)) k eq_refl Hk)
      as (Hk0 & _).
    eauto 6.
Qed.

Lemma int_by_aspect_ok (n : Z) (ma : positive) (Ea : Z) :
  0 <= n < 2 ^ 31 -> 21 <= Ea <= 83 -> 2 ^ 52 <= Z.pos ma < 2 ^ 53 ->
  exists v k,
    int_div_float n (S754_finite false ma (- Ea)) = Ok v
    /\ int_of_float v = Ok k /\ 0 <= k.
Proof.
  intros Hn HEa Hma.
  destruct (Z.eq_dec n 0) as [-> | Hnz].
  - eexists. exists 0. split; [reflexivity|]. split; [reflexivity | lia].
  - destruct (of_int_small n ltac:(lia)) as (m & u & Hof & Hu & _ & Hm).
    unfold int_div_float, float_truediv. rewrite Hof. cbn [bind is_zero].
    destruct (fdiv_normal m ma (- u) (- Ea) Hm Hma ltac:(lia))
      as (mG & dG & HG & _).
    rewrite HG.
    destruct (int_of_float_nonneg
                (S754_finite false mG (- u - - Ea - 53 + dG)) eq_refl)
      as (k & Hk).
    destruct (int_of_float_floor
                (S754_finite false mG (- u - - Ea - 53 + dG)) k eq_refl Hk)
      as (Hk0 & _).
    eauto 6.
Qed.

(** X24.  For a background, a product and a logo whose sides are
    positive and below [2 ^ 31], the layout computation of
    [create_composite] with the default ratios raises nothing: no
    division by zero, no overflow, no conversion of a NaN.  It yields
    sizes that are not negative. *)
Theorem layouts_never_raise (W H : Z) (product logo : Image) :
  0 < W < 2 ^ 31 -> 0 < H < 2 ^ 31 ->
  0 < width product < 2 ^ 31 -> 0 < height product < 2 ^ 31 ->
  0 < width logo < 2 ^ 31 -> 0 < height logo < 2 ^ 31 ->
  (exists tw th x y,
      product_layout W H product default_product_size_ratio
      = Ok (tw, th, x, y) /\ 0 <= tw /\ 0 <= th)
  /\ (exists lw lh x y,
         logo_layout W logo default_logo_size_ratio = Ok (lw, lh, x, y)
         /\ 0 <= lw /\ 0 <= lh).
Proof.
  intros HW HH Hpw Hph Hlw Hlh. split.
  - unfold product_layout, product_target_size, product_default_size,
      product_position, default_product_size_ratio.
    destruct (int_times_constant_ok H 7205759403792794 (-54))
      as (h & h0 & Hh & Hh0 & Hh0pos & Hh0up); [lia | lia | lia |].
    change (S754_finite false 7205759403792794 (-54)) with f0_4 in Hh.
    rewrite Hh. cbn [bind]. rewrite Hh0. cbn [bind].
    change (- -54) with 54 in Hh0up.
    destruct (int_truediv_normal (width product) (height product)
                Hpw Hph) as (ma & Ea & Ha & HEa & Hma).
    rewrite Ha. cbn [bind].
    destruct (int_times_aspect_ok h0 ma Ea ltac:(lia) HEa Hma)
      as (w & w0 & Hw & Hw0 & Hw0pos).
    rewrite Hw. cbn [bind]. rewrite Hw0. cbn [bind].
    destruct (int_times_constant_ok W 8106479329266893 (-53))
      as (lim & tw & Hlim & Htw & Htwpos & Htwup); [lia | lia | lia |].
    change (S754_finite false 8106479329266893 (-53)) with f0_9 in Hlim.
    rewrite Hlim. cbn [bind]. change (- -53) with 53 in Htwup.
    destruct (int_times_constant_ok H 7205759403792794 (-57))
      as (mm & margin & Hmm & Hmargin & _); [lia | lia | lia |].
    change (S754_finite false 7205759403792794 (-57)) with f0_05 in Hmm.
    destruct (int_gt_float w0 lim).
    + rewrite Htw. cbn [bind].
      destruct (int_by_aspect_ok tw ma Ea ltac:(lia) HEa Hma)
        as (q & th & Hq & Hth & Hthpos).
      rewrite Hq. cbn [bind]. rewrite Hth. cbn [bind].
      rewrite Hmm. cbn [bind]. rewrite Hmargin. cbn [bind].
      eauto 10.
    + cbn [bind]. rewrite Hmm. cbn [bind]. rewrite Hmargin. cbn [bind].
      eauto 10.
  - unfold logo_layout, logo_target_size, logo_position,
      default_logo_size_ratio.
    destruct (int_times_constant_ok W 5404319552844595 (-55))
      as (w & lw & Hw & Hlw0 & Hlwpos & Hlwup); [lia | lia | lia |].
    change (S754_finite false 5404319552844595 (-55)) with f0_15 in Hw.
    rewrite Hw. cbn [bind]. rewrite Hlw0. cbn [bind].
    change (- -55) with 55 in Hlwup.
    destruct (int_truediv_normal (width logo) (height logo) Hlw Hlh)
      as (ma & Ea & Ha & HEa & Hma).
    rewrite Ha. cbn [bind].
    destruct (int_by_aspect_ok lw ma Ea ltac:(lia) HEa Hma)
      as (q & lh & Hq & Hlhq & Hlhpos).
    rewrite Hq. cbn [bind]. rewrite Hlhq. cbn [bind].
    destruct (int_times_constant_ok W 5764607523034235 (-58))
      as (mm & margin & Hmm & Hmargin & _); [lia | lia | lia |].
    change (S754_finite false 5764607523034235 (-58)) with f0_02 in Hmm.
    rewrite Hmm. cbn [bind]. rewrite Hmargin. cbn [bind].
    eauto 10.
Qed.

End LayoutTotal.

Section LayoutTotalSamples.
Import PyFloat PIL ImageEdit Layout.

Lemma layouts_never_raise_witness :
  (exists tw th x y,
      product_layout 1024 1024 wide_product default_product_size_ratio
      = Ok (tw, th, x, y) /\ 0 <= tw /\ 0 <= th)
  /\ (exists lw lh x y,
         logo_layout 1024 wide_logo default_logo_size_ratio
         = Ok (lw, lh, x, y) /\ 0 <= lw /\ 0 <= lh).
Proof.
  apply (layouts_never_raise 1024 1024 wide_product wide_logo);
    cbn; lia.
Defined.

End LayoutTotalSamples.
